(** * deep-research: the recursive research orchestrator and its primitives

    A shallow embedding of [src/ai/providers.ts] (trimPrompt), of the
    research module (safeGenerate, generateSerpQueries, processSerpResult,
    writeFinalReportPdf, deepResearch) and of the feedback module
    (generateFeedback), followed by the properties of the specification
    and by further properties of the code.

    Conventions of the embedding.
    - A JavaScript string is the list of its UTF-16 code units ([text]).
    - A JavaScript number that the program uses as a count (breadth, depth,
      contextSize, lengths) is an integer of [Z]; non-integral doubles and
      NaN are outside the model.  Where the arithmetic of doubles differs
      from that of the integers it is written out: [depth - 1] is
      [number_sub], the difference rounded to a double.
    - The collaborators (tokenizer, text splitter, model completion, web
      search, system prompt) are parameters: pure functions of their
      arguments.  A collaborator that throws returns a failure value.
    - An [async] function is the function from its arguments to the value
      its promise settles with: fulfilled, or rejected with an error. *)

From Stdlib Require Import String Ascii.
From Stdlib Require Import List NArith ZArith Lia Bool.
Import ListNotations.

Local Open Scope Z_scope.

(* ================================================================== *)
(** ** Strings as lists of code units *)

Definition char := N.
Definition text := list char.

(** A literal of the source, written as a Rocq string. *)
Definition lit (s : string) : text :=
  map N_of_ascii (list_ascii_of_string s).

(** [s.length] *)
Definition js_length {A} (t : list A) : Z := Z.of_nat (length t).

(** [s.slice(0, n)], also [a.slice(0, n)] on arrays: a negative [n] counts
    from the end. *)
Definition slice0 {A} (n : Z) (t : list A) : list A :=
  firstn (Z.to_nat (if n <? 0 then js_length t + n else n)) t.

Definition text_eqb (a b : text) : bool :=
  if list_eq_dec N.eq_dec a b then true else false.

(* ================================================================== *)
(** ** TextTrimmer: [trimPrompt] of src/ai/providers.ts *)

Definition MinChunkSize : Z := 140.

Section TextTrimmer.

(** [encoder.encode] of js-tiktoken (o200k_base): the token ids. *)
Variable encode : text -> list N.

(** [new RecursiveCharacterTextSplitter({chunkSize, chunkOverlap: 0})
    .splitText(prompt)]: the class lives in ./text-splitter, which is not
    among the sources; it is taken as a parameter. *)
Variable splitText : Z -> text -> list text.

(** [trimPrompt] recurses on a text that it expects to be shorter; the
    fuel counts the nested calls. *)
Fixpoint trimPrompt_fuel (fuel : nat) (prompt : text) (contextSize : Z)
  : option text :=
  match fuel with
  | O => None
  | S fuel' =>
      match prompt with
      | [] => Some []
      | _ :: _ =>
          let length := js_length (encode prompt) in
          if length <=? contextSize then Some prompt
          else
            let overflowTokens := length - contextSize in
            let chunkSize := js_length prompt - overflowTokens * 3 in
            if chunkSize <? MinChunkSize
            then Some (slice0 MinChunkSize prompt)
            else
              let trimmedPrompt := hd [] (splitText chunkSize prompt) in
              if js_length trimmedPrompt =? js_length prompt
              then trimPrompt_fuel fuel' (slice0 chunkSize prompt) contextSize
              else trimPrompt_fuel fuel' trimmedPrompt contextSize
      end
  end.

Definition trimPrompt (prompt : text) (contextSize : Z) : option text :=
  trimPrompt_fuel (S (length prompt)) prompt contextSize.

End TextTrimmer.

(** The first chunk of the splitter is never longer than the text it
    splits.  It is what makes every nested call of [trimPrompt] work on a
    strictly shorter text. *)
Definition splitter_shrinks (splitText : Z -> text -> list text) : Prop :=
  forall chunkSize t, (length (hd [] (splitText chunkSize t)) <= length t)%nat.

(* ================================================================== *)
(** ** Character classes of the regular expressions and of JSON *)

Local Open Scope N_scope.

(** [\s] of a JavaScript regular expression, which is also what
    [String.prototype.trim] strips: WhiteSpace and LineTerminator. *)
Definition is_space (c : char) : bool :=
  ((9 <=? c) && (c <=? 13)) || (c =? 32) || (c =? 160) || (c =? 5760)
  || ((8192 <=? c) && (c <=? 8202)) || (c =? 8232) || (c =? 8233)
  || (c =? 8239) || (c =? 8287) || (c =? 12288) || (c =? 65279).

(** [[\u0000-\u001F\u007F]] *)
Definition is_control (c : char) : bool := (c <=? 31) || (c =? 127).

(** [[}\]]] *)
Definition is_closer (c : char) : bool := (c =? 125) || (c =? 93).

Definition backtick : char := 96.
Definition comma : char := 44.
Definition dquote : char := 34.
Definition backslash : char := 92.

Fixpoint drop_while {A} (p : A -> bool) (l : list A) : list A :=
  match l with
  | [] => []
  | x :: l' => if p x then drop_while p l' else l
  end.

(** [s.trim()] *)
Definition trim (t : text) : text :=
  rev (drop_while is_space (rev (drop_while is_space t))).

(** Does [t] start with [pat]?  The rest after it. *)
Fixpoint starts_with (pat t : text) : option text :=
  match pat, t with
  | [], _ => Some t
  | p :: pat', c :: t' => if c =? p then starts_with pat' t' else None
  | _ :: _, [] => None
  end.

(** Canonicalize of a regular expression with the [i] flag and without
    the [u] flag: upper case, except that a character outside ASCII never
    maps into ASCII.  On the letters of [json] only the two ASCII cases
    match. *)
Definition ci_eqb (p c : char) : bool :=
  (c =? p) || ((97 <=? p) && (p <=? 122) && (c =? p - 32)).

Fixpoint starts_with_ci (pat t : text) : option text :=
  match pat, t with
  | [], _ => Some t
  | p :: pat', c :: t' => if ci_eqb p c then starts_with_ci pat' t' else None
  | _ :: _, [] => None
  end.

Definition fence : text := [backtick; backtick; backtick].
Definition fence_json : text := fence ++ lit "json".

(* ================================================================== *)
(** ** The regular expression [/```json\s*([\s\S]*?)\s*```/i] *)

(** [\s*```] at the head of [t]: white space is never a backtick, so the
    greedy star has one way to match. *)
Fixpoint closes (t : text) : bool :=
  match starts_with fence t with
  | Some _ => true
  | None =>
      match t with
      | c :: t' => is_space c && closes t'
      | [] => false
      end
  end.

(** [([\s\S]*?)\s*```]: the lazy group takes the fewest characters after
    which the rest matches; the result is the group. *)
Fixpoint lazy_group (t : text) : option text :=
  if closes t then Some []
  else
    match t with
    | [] => None
    | c :: t' => option_map (cons c) (lazy_group t')
    end.

(** [\s*([\s\S]*?)\s*```]: the first star is greedy and gives a character
    back only when the rest fails with it. *)
Fixpoint after_open (t : text) : option text :=
  match t with
  | c :: t' =>
      if is_space c then
        match after_open t' with
        | Some g => Some g
        | None => lazy_group t
        end
      else lazy_group t
  | [] => lazy_group t
  end.

Definition match_here (t : text) : option text :=
  match starts_with_ci fence_json t with
  | Some rest => after_open rest
  | None => None
  end.

(** [responseText.match(re)]: the leftmost position at which the
    expression matches; the value is capture group 1. *)
Fixpoint json_fence_match (t : text) : option text :=
  match match_here t with
  | Some g => Some g
  | None =>
      match t with
      | [] => None
      | _ :: t' => json_fence_match t'
      end
  end.

(** [jsonMatch && jsonMatch[1] ? jsonMatch[1].trim() : responseText.trim()]:
    an empty group is falsy. *)
Definition extract_json_string (responseText : text) : text :=
  match json_fence_match responseText with
  | Some (c :: g) => trim (c :: g)
  | _ => trim responseText
  end.

(* ================================================================== *)
(** ** Sanitization *)

(** [.replace(/[\u0000-\u001F\u007F]/g, '')] *)
Definition strip_control (t : text) : text :=
  filter (fun c => negb (is_control c)) t.

(** [\s*[}\]]] at the head of [t]. *)
Fixpoint ws_closer (t : text) : bool :=
  match t with
  | [] => false
  | c :: t' => is_closer c || (is_space c && ws_closer t')
  end.

(** [.replace(/,(\s*[}\]])/g, '$1')]: a comma that is followed by white
    space and a closer is dropped.  The replacement [$1] is the matched
    white space and closer; none of them is a comma, so copying them and
    resuming after the closer is the same as resuming right after the
    comma. *)
Fixpoint remove_trailing_commas (t : text) : text :=
  match t with
  | [] => []
  | c :: t' =>
      if (c =? comma) && ws_closer t'
      then remove_trailing_commas t'
      else c :: remove_trailing_commas t'
  end.

Definition sanitize (jsonString : text) : text :=
  remove_trailing_commas (strip_control jsonString).

Local Close Scope N_scope.

(* ================================================================== *)
(** ** [JSON.parse] *)

(** The value [JSON.parse] builds.  A number is kept as its literal (the
    double it denotes is not computed): no schema of the program accepts a
    number, so its value is never read.
    An object is the list of its members in source order; a key that
    occurs again overrides the earlier one when it is read. *)
#[warnings="-register-all"]
Inductive json : Type :=
| JNull
| JBool (b : bool)
| JNum (lexeme : text)
| JStr (s : text)
| JArr (elements : list json)
| JObj (members : list (text * json)).

Local Open Scope N_scope.

(** JSON white space: tab, line feed, carriage return, space. *)
Definition is_json_ws (c : char) : bool :=
  (c =? 9) || (c =? 10) || (c =? 13) || (c =? 32).

Definition skip_ws (t : text) : text := drop_while is_json_ws t.

Definition is_digit (c : char) : bool := (48 <=? c) && (c <=? 57).

Definition hex_value (c : char) : option N :=
  if is_digit c then Some (c - 48)
  else if (65 <=? c) && (c <=? 70) then Some (c - 55)
  else if (97 <=? c) && (c <=? 102) then Some (c - 87)
  else None.

Definition hex4 (a b c d : char) : option char :=
  match hex_value a, hex_value b, hex_value c, hex_value d with
  | Some x, Some y, Some z, Some w => Some (((x * 16 + y) * 16 + z) * 16 + w)
  | _, _, _, _ => None
  end.

(** The character an escape [\e] stands for ([\u] apart). *)
Definition unescape (e : char) : option char :=
  if e =? dquote then Some dquote
  else if e =? backslash then Some backslash
  else if e =? 47 then Some 47
  else if e =? 98 then Some 8
  else if e =? 102 then Some 12
  else if e =? 110 then Some 10
  else if e =? 114 then Some 13
  else if e =? 116 then Some 9
  else None.

(** The characters of a string literal after its opening quote, up to the
    closing quote; the rest of the text after it. *)
Fixpoint parse_string_body (t : text) : option (text * text) :=
  match t with
  | [] => None
  | c :: t' =>
      if c =? dquote then Some ([], t')
      else if c =? backslash then
        match t' with
        | [] => None
        | e :: t'' =>
            if e =? 117 then
              match t'' with
              | h1 :: h2 :: h3 :: h4 :: t3 =>
                  match hex4 h1 h2 h3 h4 with
                  | Some u =>
                      match parse_string_body t3 with
                      | Some (s, r) => Some (u :: s, r)
                      | None => None
                      end
                  | None => None
                  end
              | _ => None
              end
            else
              match unescape e with
              | Some u =>
                  match parse_string_body t'' with
                  | Some (s, r) => Some (u :: s, r)
                  | None => None
                  end
              | None => None
              end
        end
      else if c <? 32 then None
      else
        match parse_string_body t' with
        | Some (s, r) => Some (c :: s, r)
        | None => None
        end
  end.

Fixpoint span (p : char -> bool) (t : text) : text * text :=
  match t with
  | [] => ([], [])
  | c :: t' =>
      if p c then let '(a, b) := span p t' in (c :: a, b) else ([], t)
  end.

(** One or more digits. *)
Definition digits1 (t : text) : option (text * text) :=
  match span is_digit t with
  | ([], _) => None
  | (d, r) => Some (d, r)
  end.

(** A number literal is an optional minus sign, an integer part, an
    optional fraction and an optional exponent.  Each part is read by a
    function that returns what it took and the rest. *)
Definition opt_sign (t : text) : text * text :=
  match t with
  | c :: r => if c =? 45 then ([c], r) else ([], t)
  | [] => ([], t)
  end.

(** A zero, or a non-zero digit and more digits. *)
Definition int_part (t : text) : option (text * text) :=
  match t with
  | c :: r =>
      if c =? 48 then Some ([c], r)
      else if is_digit c then
        let '(d, r') := span is_digit r in Some (c :: d, r')
      else None
  | [] => None
  end.

(** Optionally a dot and one or more digits. *)
Definition frac_part (t : text) : option (text * text) :=
  match t with
  | c :: r =>
      if c =? 46 then
        match digits1 r with
        | Some (d, r') => Some (c :: d, r')
        | None => None
        end
      else Some ([], t)
  | [] => Some ([], t)
  end.

(** Optionally e or E, an optional sign and one or more digits. *)
Definition exp_part (t : text) : option (text * text) :=
  match t with
  | c :: r =>
      if (c =? 101) || (c =? 69) then
        let '(s, r1) :=
          match r with
          | x :: r' => if (x =? 43) || (x =? 45) then ([x], r') else ([], r)
          | [] => ([], r)
          end in
        match digits1 r1 with
        | Some (d, r2) => Some (c :: s ++ d, r2)
        | None => None
        end
      else Some ([], t)
  | [] => Some ([], t)
  end.

Definition parse_number (t : text) : option (text * text) :=
  let '(sign, t1) := opt_sign t in
  match int_part t1 with
  | None => None
  | Some (i, t2) =>
      match frac_part t2 with
      | None => None
      | Some (f, t3) =>
          match exp_part t3 with
          | None => None
          | Some (e, t4) => Some (sign ++ i ++ f ++ e, t4)
          end
      end
  end.

(** The recursive descent over values; the fuel bounds the nesting of
    calls and [JSON_parse] below supplies more than any text needs. *)
Fixpoint parse_value (fuel : nat) (t : text) : option (json * text) :=
  match fuel with
  | O => None
  | S f =>
      match skip_ws t with
      | [] => None
      | c :: r =>
          if c =? dquote then
            match parse_string_body r with
            | Some (s, r') => Some (JStr s, r')
            | None => None
            end
          else if c =? 91 then
            match skip_ws r with
            | d :: r' =>
                if d =? 93 then Some (JArr [], r')
                else
                  match parse_elements f r with
                  | Some (vs, r'') => Some (JArr vs, r'')
                  | None => None
                  end
            | [] => None
            end
          else if c =? 123 then
            match skip_ws r with
            | d :: r' =>
                if d =? 125 then Some (JObj [], r')
                else
                  match parse_members f r with
                  | Some (ms, r'') => Some (JObj ms, r'')
                  | None => None
                  end
            | [] => None
            end
          else
            match starts_with (lit "true") (c :: r) with
            | Some r' => Some (JBool true, r')
            | None =>
                match starts_with (lit "false") (c :: r) with
                | Some r' => Some (JBool false, r')
                | None =>
                    match starts_with (lit "null") (c :: r) with
                    | Some r' => Some (JNull, r')
                    | None =>
                        match parse_number (c :: r) with
                        | Some (n, r') => Some (JNum n, r')
                        | None => None
                        end
                    end
                end
            end
      end
  end

(** The elements of an array after its opening bracket, separated by
    commas, up to the closing bracket. *)
with parse_elements (fuel : nat) (t : text) : option (list json * text) :=
  match fuel with
  | O => None
  | S f =>
      match parse_value f t with
      | Some (v, r) =>
          match skip_ws r with
          | d :: r' =>
              if d =? comma then
                match parse_elements f r' with
                | Some (vs, r'') => Some (v :: vs, r'')
                | None => None
                end
              else if d =? 93 then Some ([v], r')
              else None
          | [] => None
          end
      | None => None
      end
  end

(** The members of an object after its opening brace, each a string, a
    colon and a value, separated by commas, up to the closing brace. *)
with parse_members (fuel : nat) (t : text)
  : option (list (text * json) * text) :=
  match fuel with
  | O => None
  | S f =>
      match skip_ws t with
      | q :: r =>
          if q =? dquote then
            match parse_string_body r with
            | Some (k, r1) =>
                match skip_ws r1 with
                | col :: r2 =>
                    if col =? 58 then
                      match parse_value f r2 with
                      | Some (v, r3) =>
                          match skip_ws r3 with
                          | d :: r4 =>
                              if d =? comma then
                                match parse_members f r4 with
                                | Some (ms, r5) => Some ((k, v) :: ms, r5)
                                | None => None
                                end
                              else if d =? 125 then Some ([(k, v)], r4)
                              else None
                          | [] => None
                          end
                      | None => None
                      end
                    else None
                | [] => None
                end
            | None => None
            end
          else None
      | [] => None
      end
  end.

(** [JSON.parse(t)]: one value, then only white space.  [None] is the
    SyntaxError. *)
Definition JSON_parse (t : text) : option json :=
  match parse_value (2 * S (length t)) t with
  | Some (v, r) =>
      match skip_ws r with
      | [] => Some v
      | _ :: _ => None
      end
  | None => None
  end.

Local Close Scope N_scope.

(* ================================================================== *)
(** ** Serialization of a value as JSON text

    The program never serializes; the specification's round trip does
    ("serializing v as JSON").  [JSON_stringify] follows
    [JSON.stringify(v)]: compact, strings quoted by QuoteJSONString.  The
    printer works on the tree of a JSON text, which also has a place for
    the white space between the tokens and for a comma before a closer:
    the malformed text the sanitization is there for. *)

Local Open Scope N_scope.

Definition is_high_surrogate (c : char) : bool := (55296 <=? c) && (c <=? 56319).
Definition is_low_surrogate (c : char) : bool := (56320 <=? c) && (c <=? 57343).

Definition hex_digit (n : N) : char := if n <? 10 then 48 + n else 87 + n.

(** [\uXXXX], lower case. *)
Definition unicode_escape (c : char) : text :=
  [backslash; 117; hex_digit (c / 4096); hex_digit ((c / 256) mod 16);
   hex_digit ((c / 16) mod 16); hex_digit (c mod 16)].

(** One code unit that is not half of a surrogate pair. *)
Definition quote_unit (c : char) : text :=
  if c =? 8 then [backslash; 98]
  else if c =? 9 then [backslash; 116]
  else if c =? 10 then [backslash; 110]
  else if c =? 12 then [backslash; 102]
  else if c =? 13 then [backslash; 114]
  else if c =? dquote then [backslash; dquote]
  else if c =? backslash then [backslash; backslash]
  else if (c <? 32) || is_high_surrogate c || is_low_surrogate c
       then unicode_escape c
  else [c].

Fixpoint quote_chars (s : text) : text :=
  match s with
  | [] => []
  | c :: s' =>
      if is_high_surrogate c then
        match s' with
        | d :: s'' =>
            if is_low_surrogate d then c :: d :: quote_chars s''
            else quote_unit c ++ quote_chars s'
        | [] => quote_unit c
        end
      else quote_unit c ++ quote_chars s'
  end.

(** The tree of a JSON text.  A string node holds the characters between
    the quotes, as they are written (escapes and all); a number node its
    literal; an array or object what stands before its closer (white
    space, possibly after a trailing comma); [CPad] is a value with white
    space before and after it.  A key has white space before and after it
    too. *)
Record ckey : Type := mkKey {
  key_before : text;
  key_body : text;
  key_after : text
}.

#[warnings="-register-all"]
Inductive cst : Type :=
| CNull
| CBool (b : bool)
| CNum (lexeme : text)
| CStr (body : text)
| CArr (elements : list cst) (trailing : text)
| CObj (members : list (ckey * cst)) (trailing : text)
| CPad (before : text) (t : cst) (after : text).

Definition is_some {A} (o : option A) : bool :=
  match o with Some _ => true | None => false end.

(** The characters between the quotes of a string literal: no quote and
    no control character; a backslash starts one of the escapes. *)
Fixpoint body_ok (b : text) : bool :=
  match b with
  | [] => true
  | c :: b' =>
      if c =? dquote then false
      else if c =? backslash then
        match b' with
        | [] => false
        | e :: b'' =>
            if e =? 117 then
              match b'' with
              | h1 :: h2 :: h3 :: h4 :: b3 =>
                  is_some (hex4 h1 h2 h3 h4) && body_ok b3
              | _ => false
              end
            else is_some (unescape e) && body_ok b''
        end
      else (32 <=? c) && body_ok b'
  end.

(** A number literal, whole. *)
Definition number_ok (n : text) : bool :=
  match parse_number n with
  | Some (_, []) => true
  | _ => false
  end.

(** White space between tokens.  The trees describe texts without control
    characters, where the only JSON white space left is the space. *)
Definition is_pad (w : text) : bool := forallb (fun c => c =? 32) w.

Definition key_ok (k : ckey) : bool :=
  is_pad (key_before k) && body_ok (key_body k) && is_pad (key_after k).

(** What stands before a closer: white space, and when [commas] are
    admitted, possibly a comma before it. *)
Definition trailing_ok (commas : bool) (tr : text) : bool :=
  is_pad tr
  || (commas && match tr with
                | c :: w => (c =? comma) && is_pad w
                | [] => false
                end).

Section WellFormed.

(** Are trailing commas admitted?  Without them the tree is that of a
    JSON text. *)
Variable commas : bool.

Fixpoint wf (t : cst) : bool :=
  match t with
  | CNull | CBool _ => true
  | CNum n => number_ok n
  | CStr b => body_ok b
  | CArr l tr => forallb wf l && trailing_ok commas tr
  | CObj ms tr =>
      forallb (fun kv => let '(k, v) := kv in key_ok k && wf v) ms
      && trailing_ok commas tr
  | CPad w1 t' w2 => is_pad w1 && wf t' && is_pad w2
  end.

End WellFormed.

Definition print_key (k : ckey) : text :=
  key_before k ++ dquote :: key_body k ++ dquote :: key_after k.

Section Items.

Variable print : cst -> text.

Fixpoint print_elements (l : list cst) : text :=
  match l with
  | [] => []
  | v :: l' =>
      match l' with
      | [] => print v
      | _ :: _ => print v ++ comma :: print_elements l'
      end
  end.

Fixpoint print_members (l : list (ckey * cst)) : text :=
  match l with
  | [] => []
  | (k, v) :: l' =>
      match l' with
      | [] => print_key k ++ 58 :: print v
      | _ :: _ => print_key k ++ 58 :: print v ++ comma :: print_members l'
      end
  end.

End Items.

(** The text of a tree. *)
Fixpoint print (t : cst) : text :=
  match t with
  | CNull => lit "null"
  | CBool true => lit "true"
  | CBool false => lit "false"
  | CNum n => n
  | CStr b => dquote :: b ++ [dquote]
  | CArr l tr => 91 :: print_elements print l ++ tr ++ [93]
  | CObj ms tr => 123 :: print_members print ms ++ tr ++ [125]
  | CPad w1 t' w2 => w1 ++ print t' ++ w2
  end.

(** The string a literal with body [b] denotes. *)
Definition decode (b : text) : text :=
  match parse_string_body (b ++ [dquote]) with
  | Some (s, _) => s
  | None => []
  end.

(** The value a tree denotes. *)
Fixpoint value_of (t : cst) : json :=
  match t with
  | CNull => JNull
  | CBool b => JBool b
  | CNum n => JNum n
  | CStr b => JStr (decode b)
  | CArr l _ => JArr (map value_of l)
  | CObj ms _ =>
      JObj (map (fun kv => let '(k, x) := kv in
                           (decode (key_body k), value_of x)) ms)
  | CPad _ t' _ => value_of t'
  end.

(** What stands before a closer once the trailing comma is removed. *)
Definition drop_comma (tr : text) : text :=
  match tr with
  | c :: w => if c =? comma then w else tr
  | [] => []
  end.

Definition clean_key (k : ckey) : ckey :=
  mkKey (key_before k) (remove_trailing_commas (key_body k)) (key_after k).

(** The tree after [remove_trailing_commas] went over its text: the
    trailing commas are gone, and so are the commas inside string
    literals that are followed by white space and a closer. *)
Fixpoint clean (t : cst) : cst :=
  match t with
  | CNull => CNull
  | CBool b => CBool b
  | CNum n => CNum n
  | CStr b => CStr (remove_trailing_commas b)
  | CArr l tr => CArr (map clean l) (drop_comma tr)
  | CObj ms tr =>
      CObj (map (fun kv => let '(k, x) := kv in (clean_key k, clean x)) ms)
           (drop_comma tr)
  | CPad w1 t' w2 => CPad w1 (clean t') w2
  end.

Section Stringify.

(** What [JSON.stringify] writes before the closer of a non-empty array
    or object: nothing.  A model that adds trailing commas writes a comma
    there. *)
Variable trailing : text.

Definition trailing_for {A} (l : list A) : text :=
  match l with
  | [] => []
  | _ :: _ => trailing
  end.

Fixpoint cst_of (v : json) : cst :=
  match v with
  | JNull => CNull
  | JBool b => CBool b
  | JNum n => CNum n
  | JStr s => CStr (quote_chars s)
  | JArr l => CArr (map cst_of l) (trailing_for l)
  | JObj ms =>
      CObj (map (fun kv => let '(k, x) := kv in
                           (mkKey [] (quote_chars k) [], cst_of x)) ms)
           (trailing_for ms)
  end.

End Stringify.

(** A value whose numbers are number literals. *)
Fixpoint serializable (v : json) : bool :=
  match v with
  | JNull | JBool _ | JStr _ => true
  | JNum n => number_ok n
  | JArr l => forallb serializable l
  | JObj ms => forallb (fun kv => let '(_, x) := kv in serializable x) ms
  end.

(** [JSON.stringify(v)] *)
Definition JSON_stringify (v : json) : text := print (cst_of [] v).

(** The same text with a comma before the closer of every non-empty
    array and object. *)
Definition stringify_trailing_commas (v : json) : text :=
  print (cst_of [comma] v).

Local Close Scope N_scope.

(* ================================================================== *)
(** ** The zod schemas of the program *)

(** Reading property [k] of a parsed object: the last member with that
    key, [None] for [undefined]. *)
Fixpoint get_property (k : text) (members : list (text * json)) : option json :=
  match members with
  | [] => None
  | (k', v) :: rest =>
      match get_property k rest with
      | Some w => Some w
      | None => if text_eqb k' k then Some v else None
      end
  end.

Fixpoint all_some {A} (l : list (option A)) : option (list A) :=
  match l with
  | [] => Some []
  | Some x :: l' => option_map (cons x) (all_some l')
  | None :: _ => None
  end.

(** [z.string()] *)
Definition z_string (j : option json) : option text :=
  match j with
  | Some (JStr s) => Some s
  | _ => None
  end.

(** [z.array(element)] *)
Definition z_array {T} (element : option json -> option T) (j : option json)
  : option (list T) :=
  match j with
  | Some (JArr l) => all_some (map (fun x => element (Some x)) l)
  | _ => None
  end.

Record SerpQuery : Type := mkSerpQuery {
  query : text;
  researchGoal : text
}.

(** [z.object({ query: z.string(), researchGoal: z.string() })]: unknown
    keys are stripped. *)
Definition z_serpQuery (j : option json) : option SerpQuery :=
  match j with
  | Some (JObj ms) =>
      match z_string (get_property (lit "query") ms),
            z_string (get_property (lit "researchGoal") ms) with
      | Some q, Some g => Some (mkSerpQuery q g)
      | _, _ => None
      end
  | _ => None
  end.

(** [z.object({ queries: z.array(z.object({...})) })], read at
    [res.queries]. *)
Definition schema_queries (j : json) : option (list SerpQuery) :=
  match j with
  | JObj ms => z_array z_serpQuery (get_property (lit "queries") ms)
  | _ => None
  end.

Record SerpLearnings : Type := mkSerpLearnings {
  sl_learnings : list text;
  sl_followUpQuestions : list text
}.

(** [z.object({ learnings: z.array(z.string()),
                followUpQuestions: z.array(z.string()) })] *)
Definition schema_learnings (j : json) : option SerpLearnings :=
  match j with
  | JObj ms =>
      match z_array z_string (get_property (lit "learnings") ms),
            z_array z_string (get_property (lit "followUpQuestions") ms) with
      | Some l, Some f => Some (mkSerpLearnings l f)
      | _, _ => None
      end
  | _ => None
  end.

(* ================================================================== *)
(** ** StructuredExtractor: [safeGenerate] *)

Inductive error : Type :=
| MalformedModelOutput (jsonString : text)
    (** [new Error(`invalid json from model: ${jsonString}`)] *)
| CollaboratorError.
    (** what [generateText] or [firecrawl.search] rejected with *)

(** What the promise of an [async] function settles with.  [NoFuel] is
    the embedding's own: a recursion ran out of fuel. *)
Inductive outcome (T : Type) : Type :=
| Fulfilled (v : T)
| Rejected (e : error)
| NoFuel.

Arguments Fulfilled {T} v.
Arguments Rejected {T} e.
Arguments NoFuel {T}.

(** The steps of [safeGenerate] after the completion: locate, sanitize,
    parse, validate.  [response_text] is [response.text], [None] when it
    is undefined. *)
Definition safeGenerate_on {T} (schema : json -> option T)
    (response_text : option text) : outcome T :=
  let responseText := match response_text with Some t => t | None => [] end in
  let jsonString := extract_json_string responseText in
  match JSON_parse (sanitize jsonString) with
  | Some parsed =>
      match schema parsed with
      | Some v => Fulfilled v
      | None => Rejected (MalformedModelOutput jsonString)
      end
  | None => Rejected (MalformedModelOutput jsonString)
  end.

Section StructuredExtractor.

(** [generateText({ model: curr_model, system, prompt, abortSignal })]:
    [None] when the call rejects, otherwise [response.text]. *)
Variable generateText : text -> text -> option Z -> option (option text).

Definition safeGenerate {T} (schema : json -> option T)
    (system prompt : text) (abortSignal : option Z) : outcome T :=
  match generateText system prompt abortSignal with
  | None => Rejected CollaboratorError
  | Some response_text => safeGenerate_on schema response_text
  end.

End StructuredExtractor.

(** The same call with the completions of the session counted.
    [answers n] is what the [n]-th call of [generateText] gives, and
    [calls] completions have been asked for so far.  [safeGenerate] awaits
    [generateText] once: there is no loop around it and no second attempt
    in [catch], so the count goes up by one, whatever the outcome. *)
Definition safeGenerate_counted {T}
    (answers : nat -> text -> text -> option Z -> option (option text))
    (schema : json -> option T) (system prompt : text)
    (abortSignal : option Z) (calls : nat) : outcome T * nat :=
  (safeGenerate (answers calls) schema system prompt abortSignal, S calls).

(* ================================================================== *)
(** ** Prompt texts *)

Definition nl : text := [10%N].

(** [l.join(sep)] *)
Fixpoint join (sep : text) (l : list text) : text :=
  match l with
  | [] => []
  | x :: l' =>
      match l' with
      | [] => x
      | _ :: _ => x ++ sep ++ join sep l'
      end
  end.

(** A template literal given line by line. *)
Definition lines (l : list text) : text := join nl l.

(** A word between double quotes. *)
Definition quoted (s : string) : text := dquote :: lit s ++ [dquote].

Definition serpQueries_prompt (query : text) (learnings : option (list text))
  : text :=
  lines
    [ lit "given the following prompt from the user, generate a list of serp queries to research the topic.";
      [];
      lit "### output format:";
      lit "return your response in **valid json format**, following this **exact** structure:";
      fence_json;
      lit "{";
      lit "  " ++ quoted "queries" ++ lit ": [";
      lit "    {";
      lit "      " ++ quoted "query" ++ lit ": " ++ quoted "string" ++ lit ",";
      lit "      " ++ quoted "researchGoal" ++ lit ": " ++ quoted "string";
      lit "    }";
      lit "  ]";
      lit "}";
      fence;
      [];
      lit "### rules:";
      lit "- **only return valid json.** no explanations or extra text.";
      lit "- each query **must be unique** and not redundant.";
      lit "- each research goal should be **detailed and suggest further research directions**.";
      [];
      lit "user prompt:";
      lit "<prompt>" ++ query ++ lit "</prompt>";
      [];
      match learnings with
      | Some ls =>
          lit "here are previous research learnings to refine queries: "
          ++ join nl ls
      | None => []
      end;
      [] ].

Definition serpResult_prompt (query : text) (contents : list text) : text :=
  lines
    [ lit "given the following contents from a serp search for the query <query>"
      ++ query
      ++ lit "</query>, generate a structured json response with two fields: "
      ++ quoted "learnings" ++ lit " and " ++ quoted "followUpQuestions" ++ lit ". ";
      [];
      lit "return your response in the following json format:";
      fence_json;
      lit "{";
      lit "  " ++ quoted "learnings" ++ lit ": [" ++ quoted "string1" ++ lit ", "
      ++ quoted "string2" ++ lit ", " ++ quoted "string3" ++ lit "],";
      lit "  " ++ quoted "followUpQuestions" ++ lit ": [" ++ quoted "question1"
      ++ lit ", " ++ quoted "question2" ++ lit ", " ++ quoted "question3" ++ lit "]";
      lit "}";
      fence;
      [];
      lit "make sure:";
      lit "- the json is well-formed.";
      lit "- each learning is unique and contains specific details, numbers, or entities.";
      lit "- the follow-up questions help refine further research.";
      [];
      lit "<contents>"
      ++ join nl
           (map (fun content =>
                   lit "<content>" ++ nl ++ content ++ nl ++ lit "</content>")
                contents)
      ++ lit "</contents>";
      [] ].

(** The query of the next level; the template starts and ends with a line
    break and indentation, which [trim] removes. *)
Definition nextQuery_text (researchGoal : text) (followUpQuestions : list text)
  : text :=
  trim
    (lines
       [ [];
         lit "            previous research goal: " ++ researchGoal;
         lit "            follow-up research directions: "
         ++ concat (map (fun q => nl ++ q) followUpQuestions);
         lit "          " ]).

(* ================================================================== *)
(** ** The web search collaborator *)

Record SearchItem : Type := mkSearchItem {
  url : option text;
  description : option text
}.

Record SearchResponse : Type := mkSearchResponse {
  data : list SearchItem
}.

(** lodash [compact] on strings and [undefined]: the falsy ones go, an
    empty string among them. *)
Fixpoint compact (l : list (option text)) : list text :=
  match l with
  | [] => []
  | Some (c :: s) :: l' => (c :: s) :: compact l'
  | _ :: l' => compact l'
  end.

(* ================================================================== *)
(** ** ResearchOrchestrator: [deepResearch] *)

Record ResearchResult : Type := mkResearchResult {
  learnings : list text;
  visitedUrls : list text
}.

Definition empty_result : ResearchResult := mkResearchResult [] [].

(** [[...new Set(l)]]: a set keeps the first occurrence of each string, in
    insertion order. *)
Definition set_add (s : list text) (x : text) : list text :=
  if existsb (text_eqb x) s then s else s ++ [x].

Definition new_Set (l : list text) : list text := fold_left set_add l [].

(** [Math.ceil(breadth / 2)] on an integer.  Halving a double is exact,
    so this is the value for every integer that is a double. *)
Definition ceil_half (breadth : Z) : Z := (breadth + 1) / 2.

(** The double nearest to an integer, ties to the even significand.  An
    integer of magnitude below 2^53 is a double; above, the doubles are
    the multiples of a power of two, the unit in the last place.
    (Magnitudes from 2^1024 on, where a double overflows, are outside the
    model.) *)
Definition to_double (x : Z) : Z :=
  let m := Z.abs x in
  if m <? 2 ^ 53 then x
  else
    let ulp := 2 ^ (Z.log2 m - 52) in
    let q := m / ulp in
    let r := m mod ulp in
    let up := if 2 * r <? ulp then false
              else if ulp <? 2 * r then true
              else Z.odd q in
    Z.sgn x * ((if up then q + 1 else q) * ulp).

(** [a - b] on numbers: the exact difference, rounded to a double.  It is
    exact while the result stays below 2^53 in magnitude; at 2^54,
    [depth - 1] is [depth] again. *)
Definition number_sub (a b : Z) : Z := to_double (a - b).

(** The arguments of one call of [deepResearch]. *)
Record Invocation : Type := mkInvocation {
  inv_query : text;
  inv_breadth : Z;
  inv_depth : Z;
  inv_learnings : list text;
  inv_visitedUrls : list text
}.

(** One recursive call, as a branch makes it: the call it is made from,
    what the branch found, and the call made. *)
Record RecursiveCall : Type := mkRecursiveCall {
  caller : Invocation;
  found_learnings : list text;
  found_urls : list text;
  callee : Invocation
}.

(** [Promise.all]: the values when every promise fulfils, a rejection
    when one rejects (the model takes the first in list order; in time
    any of them may come first). *)
Fixpoint promise_all {T} (l : list (outcome T)) : outcome (list T) :=
  match l with
  | [] => Fulfilled []
  | o :: l' =>
      match o, promise_all l' with
      | NoFuel, _ => NoFuel
      | _, NoFuel => NoFuel
      | Rejected e, _ => Rejected e
      | Fulfilled _, Rejected e => Rejected e
      | Fulfilled v, Fulfilled vs => Fulfilled (v :: vs)
      end
  end.

Section ResearchOrchestrator.

Variable encode : text -> list N.
Variable splitText : Z -> text -> list text.
Variable generateText : text -> text -> option Z -> option (option text).

(** [firecrawl.search(query, { timeout: 15000, limit: 5 })]: [None] when
    the call rejects. *)
Variable search : text -> option SearchResponse.

(** [systemPrompt()] of ./prompt, which is not among the sources. *)
Variable systemPrompt : text.

Definition generateSerpQueries (query : text) (numQueries : Z)
    (learnings : option (list text)) : outcome (list SerpQuery) :=
  match safeGenerate generateText schema_queries systemPrompt
          (serpQueries_prompt query learnings) None with
  | Fulfilled queries => Fulfilled (slice0 numQueries queries)
  | Rejected e => Rejected e
  | NoFuel => NoFuel
  end.

Definition processSerpResult (query : text) (result : SearchResponse)
    (numLearnings numFollowUpQuestions : Z) : outcome SerpLearnings :=
  match all_some
          (map (fun content => trimPrompt encode splitText content 25000)
               (compact (map description (data result)))) with
  | None => NoFuel
  | Some contents =>
      safeGenerate generateText schema_learnings systemPrompt
        (serpResult_prompt query contents) (Some 60000)
  end.

(** The body that [limit(async () => { try { ... } catch (e) { ... } })]
    runs for one element of [serpQueries].  [recurse] is [deepResearch]
    itself.  What is awaited inside [try] is caught; the promise of the
    recursive call is returned without [await], so the branch settles as
    that promise does. *)
Definition research_branch
    (recurse : Invocation -> outcome ResearchResult * list RecursiveCall)
    (this : Invocation) (serpQuery : SerpQuery)
  : outcome ResearchResult * list RecursiveCall :=
  match query serpQuery with
  | [] => (Fulfilled empty_result, [])
  | _ :: _ =>
      match search (query serpQuery) with
      | None => (Fulfilled empty_result, [])
      | Some result =>
          let newUrls := compact (map url (data result)) in
          let newBreadth := ceil_half (inv_breadth this) in
          let newDepth := number_sub (inv_depth this) 1 in
          match processSerpResult (query serpQuery) result 3 newBreadth with
          | NoFuel => (NoFuel, [])
          | Rejected _ => (Fulfilled empty_result, [])
          | Fulfilled newLearnings =>
              let allLearnings :=
                inv_learnings this ++ sl_learnings newLearnings in
              let allUrls := inv_visitedUrls this ++ newUrls in
              if 0 <? newDepth then
                let nextQuery :=
                  nextQuery_text (researchGoal serpQuery)
                    (sl_followUpQuestions newLearnings) in
                let next :=
                  mkInvocation nextQuery newBreadth newDepth
                    allLearnings allUrls in
                let '(settled, calls) := recurse next in
                (settled,
                 mkRecursiveCall this (sl_learnings newLearnings) newUrls next
                 :: calls)
              else (Fulfilled (mkResearchResult allLearnings allUrls), [])
          end
      end
  end.

(** The merge after [Promise.all]. *)
Definition merge_results (results : list ResearchResult) : ResearchResult :=
  mkResearchResult
    (new_Set (flat_map learnings results))
    (new_Set (flat_map visitedUrls results)).

(** [deepResearch]; the fuel bounds the nesting of recursive calls.  The
    second component lists the recursive calls made below this one.
    [pLimit] decides when a branch starts, not what it computes. *)
Fixpoint deepResearch_fuel (fuel : nat) (this : Invocation)
  : outcome ResearchResult * list RecursiveCall :=
  match fuel with
  | O => (NoFuel, [])
  | S fuel' =>
      match generateSerpQueries (inv_query this) (inv_breadth this)
              (Some (inv_learnings this)) with
      | NoFuel => (NoFuel, [])
      | Rejected e => (Rejected e, [])
      | Fulfilled serpQueries =>
          let branches :=
            map (research_branch (deepResearch_fuel fuel') this) serpQueries in
          (match promise_all (map fst branches) with
           | Fulfilled results => Fulfilled (merge_results results)
           | Rejected e => Rejected e
           | NoFuel => NoFuel
           end,
           concat (map snd branches))
      end
  end.

(** [deepResearch({ query, breadth, depth, learnings, visitedUrls })].
    With a depth of at most 2^53 a call nests at most [depth] deep, and
    this fuel is enough.  Above, [depth - 1] may round to [depth]: the
    calls then nest without end, and [NoFuel] stands for a call that does
    not settle. *)
Definition deepResearch (this : Invocation)
  : outcome ResearchResult * list RecursiveCall :=
  deepResearch_fuel (S (Z.to_nat (inv_depth this))) this.

End ResearchOrchestrator.

(* ================================================================== *)
(** ** Scheduling: the limiters

    [deepResearch] creates its limiter itself: [const limit =
    pLimit(ConcurrencyLimit)] is a statement of its body, so every call
    has a limiter of its own.  A call first awaits the planner; then each
    sub-query is a branch queued at the limiter of the call.  It admits
    a queued branch while fewer than [ConcurrencyLimit] of its branches
    are active.  An admitted branch awaits its collaborators (the pacing
    timer, the search, the distiller); then it ends, or it returns the
    promise of a recursive call and stays active at the limiter of its
    caller until that call has settled.  The steps of different branches
    interleave in any order. *)

Definition ConcurrencyLimit : nat := 2.

Inductive branch_state (call : Type) : Type :=
| Awaiting
| Recursing (child : call).

Arguments Awaiting {call}.
Arguments Recursing {call} child.

#[warnings="-register-all"]
Inductive call_state : Type :=
| Planning (breadth depth : Z)
| Running (breadth depth : Z) (queued : nat)
    (active : list (branch_state call_state)).

Inductive step : call_state -> call_state -> Prop :=
| step_plan breadth depth (serpQueries : list SerpQuery) :
    (** [generateSerpQueries] answers: [slice(0, breadth)] of its queries
        are queued *)
    step (Planning breadth depth)
         (Running breadth depth (length (slice0 breadth serpQueries)) [])
| step_admit breadth depth queued active :
    (** the limiter admits the next queued branch *)
    (length active < ConcurrencyLimit)%nat ->
    step (Running breadth depth (S queued) active)
         (Running breadth depth queued (active ++ [Awaiting]))
| step_end breadth depth queued a1 a2 :
    (** a branch ends: depth exhausted, invalid query, or a caught failure *)
    step (Running breadth depth queued (a1 ++ Awaiting :: a2))
         (Running breadth depth queued (a1 ++ a2))
| step_recurse breadth depth queued a1 a2 :
    (** [newDepth > 0]: the branch calls [deepResearch] *)
    0 < number_sub depth 1 ->
    step (Running breadth depth queued (a1 ++ Awaiting :: a2))
         (Running breadth depth queued
            (a1 ++ Recursing (Planning (ceil_half breadth) (number_sub depth 1))
                :: a2))
| step_inside breadth depth queued a1 a2 child child' :
    (** a step of the recursive call *)
    step child child' ->
    step (Running breadth depth queued (a1 ++ Recursing child :: a2))
         (Running breadth depth queued (a1 ++ Recursing child' :: a2))
| step_return breadth depth queued a1 a2 breadth' depth' :
    (** the recursive call has merged its branches and returns *)
    step (Running breadth depth queued
            (a1 ++ Recursing (Running breadth' depth' 0 []) :: a2))
         (Running breadth depth queued (a1 ++ a2)).

Inductive steps : call_state -> call_state -> Prop :=
| steps_refl s : steps s s
| steps_step s1 s2 s3 : steps s1 s2 -> step s2 s3 -> steps s1 s3.

(** The branches (and planner calls) that await a collaborator, over all
    levels. *)
Fixpoint awaiting (s : call_state) : nat :=
  match s with
  | Planning _ _ => 1
  | Running _ _ _ active =>
      list_sum
        (map (fun b => match b with
                       | Awaiting => 1%nat
                       | Recursing child => awaiting child
                       end) active)
  end.

(** Every limiter holds at most [ConcurrencyLimit] active branches. *)
Fixpoint within_limit (s : call_state) : bool :=
  match s with
  | Planning _ _ => true
  | Running _ _ _ active =>
      (length active <=? ConcurrencyLimit)%nat
      && forallb (fun b => match b with
                           | Awaiting => true
                           | Recursing child => within_limit child
                           end) active
  end.

(** A call rejects: its planner fails, or the call that one of its
    branches returned rejects ([return deepResearch(...)] is not awaited
    inside [try], so [catch] does not see it, and [Promise.all] rejects
    with the first rejection).  [rejects s rest]: the call in state [s]
    rejects, and [rest] are the calls that go on afterwards.  Nothing
    cancels the branches of a call that has rejected: its limiter frees
    the slot of the branch that rejected and keeps admitting what is
    queued, while nobody waits for the call any more. *)
Inductive rejects : call_state -> list call_state -> Prop :=
| rejects_planner breadth depth :
    (** [generateSerpQueries] rejects: the call has no branch yet *)
    rejects (Planning breadth depth) []
| rejects_branch breadth depth queued a1 a2 child rest :
    (** the recursive call of a branch rejects *)
    rejects child rest ->
    rejects (Running breadth depth queued (a1 ++ Recursing child :: a2))
            (Running breadth depth queued (a1 ++ a2) :: rest).

(** A session: the call of the caller, and the calls that go on after
    they have rejected. *)
Inductive session_step : list call_state -> list call_state -> Prop :=
| session_inside f1 f2 s s' :
    step s s' -> session_step (f1 ++ s :: f2) (f1 ++ s' :: f2)
| session_reject f1 f2 s rest :
    rejects s rest -> session_step (f1 ++ s :: f2) (f1 ++ rest ++ f2).

Inductive session_steps : list call_state -> list call_state -> Prop :=
| session_refl f : session_steps f f
| session_next f1 f2 f3 :
    session_steps f1 f2 -> session_step f2 f3 -> session_steps f1 f3.

(** The branches (and planner calls) of a session that await a
    collaborator. *)
Definition session_awaiting (f : list call_state) : nat :=
  list_sum (map awaiting f).

(** Breadth 4, depth 2: both admitted branches of the first level have
    recursed, and each of the two calls of the second level has admitted
    its two branches. *)
Definition demo_four_awaiting : call_state :=
  Running 4 2 2
    [Recursing (Running 2 1 0 [Awaiting; Awaiting]);
     Recursing (Running 2 1 0 [Awaiting; Awaiting])].

(** The same session when the planner of the first recursive call has
    rejected instead: the call of the caller has rejected with it, and
    goes on with its other branch. *)
Definition demo_after_rejection : list call_state :=
  [Running 4 2 2 [Recursing (Running 2 1 0 [Awaiting; Awaiting])]].

(* ================================================================== *)
(** ** What the specification says, as predicates *)

(** What [trimPrompt] promises of its result [r]: it fits the budget, or
    it is no longer than the floor. *)
Definition trimmed (encode : text -> list N) (contextSize : Z) (r : text)
  : Prop :=
  js_length (encode r) <= contextSize \/ js_length r <= MinChunkSize.

(** What the specification says of the budget of a recursive call. *)
Definition budget_step (c : RecursiveCall) : Prop :=
  inv_depth (callee c) = inv_depth (caller c) - 1
  /\ inv_breadth (callee c) = ceil_half (inv_breadth (caller c))
  /\ 0 < inv_depth (callee c).

(** What the specification says of the accumulator of a recursive call. *)
Definition accumulator_step (c : RecursiveCall) : Prop :=
  inv_learnings (callee c) = inv_learnings (caller c) ++ found_learnings c
  /\ inv_visitedUrls (callee c) = inv_visitedUrls (caller c) ++ found_urls c.

(** A recursive call made below a call of depth [bound]. *)
Definition call_ok (bound : Z) (c : RecursiveCall) : Prop :=
  budget_step c /\ accumulator_step c /\ inv_depth (callee c) < bound.

(** A result holds everything an accumulator holds. *)
Definition includes_accumulator (this : Invocation) (r : ResearchResult) : Prop :=
  incl (inv_learnings this) (learnings r)
  /\ incl (inv_visitedUrls this) (visitedUrls r).

(** What a call returns with respect to its input accumulator: nothing at
    all, or at least the accumulator. *)
Definition empty_or_includes (this : Invocation) (r : ResearchResult) : Prop :=
  (learnings r = [] /\ visitedUrls r = []) \/ includes_accumulator this r.

(** Does [pat] occur in [t]? *)
Fixpoint contains (pat t : text) : bool :=
  match starts_with pat t with
  | Some _ => true
  | None =>
      match t with
      | [] => false
      | _ :: t' => contains pat t'
      end
  end.

(** Does [pat] occur in [t], letters in either case? *)
Fixpoint contains_ci (pat t : text) : bool :=
  match starts_with_ci pat t with
  | Some _ => true
  | None =>
      match t with
      | [] => false
      | _ :: t' => contains_ci pat t'
      end
  end.

(** Is there a comma in [t] that [remove_trailing_commas] removes? *)
Fixpoint has_trailing_comma (t : text) : bool :=
  match t with
  | [] => false
  | c :: t' => ((c =? comma)%N && ws_closer t') || has_trailing_comma t'
  end.

(** A text in which no closing fence starts: it has no three backticks in
    a row and its last character is neither a backtick nor white space. *)
Definition sealed (b : text) : Prop :=
  contains fence b = false
  /\ exists init z, b = init ++ [z] /\ is_space z = false
                    /\ (z =? backtick)%N = false.

(** A response with the JSON text [s] in a block tagged json: text, the
    opening fence, white space, [s], white space, the closing fence,
    text. *)
Definition fenced (before ws1 s ws2 after : text) : text :=
  before ++ fence_json ++ ws1 ++ s ++ ws2 ++ fence ++ after.

(* ================================================================== *)
(** ** Induction on values and trees, measures *)

(** Induction on a tree, with the property on every element of an array
    and on every member value of an object. *)
Section CstInduction.

Variable P : cst -> Prop.
Hypothesis Hnull : P CNull.
Hypothesis Hbool : forall b, P (CBool b).
Hypothesis Hnum : forall n, P (CNum n).
Hypothesis Hstr : forall b, P (CStr b).
Hypothesis Harr : forall l tr, Forall P l -> P (CArr l tr).
Hypothesis Hobj :
  forall ms tr, Forall (fun kv => P (snd kv)) ms -> P (CObj ms tr).
Hypothesis Hpad : forall w1 t w2, P t -> P (CPad w1 t w2).

Fixpoint cst_nested_ind (t : cst) : P t :=
  match t with
  | CNull => Hnull
  | CBool b => Hbool b
  | CNum n => Hnum n
  | CStr b => Hstr b
  | CArr l tr =>
      Harr l tr
        ((fix go (l : list cst) : Forall P l :=
            match l with
            | [] => Forall_nil P
            | x :: l' => Forall_cons x (cst_nested_ind x) (go l')
            end) l)
  | CObj ms tr =>
      Hobj ms tr
        ((fix go (ms : list (ckey * cst)) : Forall (fun kv => P (snd kv)) ms :=
            match ms with
            | [] => Forall_nil _
            | kv :: ms' =>
                Forall_cons kv (cst_nested_ind (snd kv)) (go ms')
            end) ms)
  | CPad w1 t' w2 => Hpad w1 t' w2 (cst_nested_ind t')
  end.

End CstInduction.

Section JsonInduction.

Variable P : json -> Prop.
Hypothesis Hnull : P JNull.
Hypothesis Hbool : forall b, P (JBool b).
Hypothesis Hnum : forall n, P (JNum n).
Hypothesis Hstr : forall s, P (JStr s).
Hypothesis Harr : forall l, Forall P l -> P (JArr l).
Hypothesis Hobj : forall ms, Forall (fun kv => P (snd kv)) ms -> P (JObj ms).

Fixpoint json_nested_ind (v : json) : P v :=
  match v with
  | JNull => Hnull
  | JBool b => Hbool b
  | JNum n => Hnum n
  | JStr s => Hstr s
  | JArr l =>
      Harr l
        ((fix go (l : list json) : Forall P l :=
            match l with
            | [] => Forall_nil P
            | x :: l' => Forall_cons x (json_nested_ind x) (go l')
            end) l)
  | JObj ms =>
      Hobj ms
        ((fix go (ms : list (text * json)) : Forall (fun kv => P (snd kv)) ms :=
            match ms with
            | [] => Forall_nil _
            | kv :: ms' =>
                Forall_cons kv (json_nested_ind (snd kv)) (go ms')
            end) ms)
  end.

End JsonInduction.

Local Open Scope N_scope.

(** The fuel [parse_value] needs for the text of a tree. *)
Fixpoint cost (t : cst) : nat :=
  match t with
  | CArr l _ => S (list_sum (map (fun x => S (cost x)) l))
  | CObj ms _ =>
      S (list_sum (map (fun kv => let '(_, x) := kv in S (cost x)) ms))
  | CPad _ t' _ => cost t'
  | _ => 1
  end.

(** The white space at the end of the text of a tree that [parse_value]
    leaves to its caller. *)
Fixpoint tail_ws (t : cst) : text :=
  match t with
  | CPad _ t' w2 => tail_ws t' ++ w2
  | _ => []
  end.

(** The first character of the text of a value: a quote, an opening
    bracket or brace, the first letter of [null], [true], [false], a
    minus sign or a digit. *)
Definition opener (h : char) : bool :=
  (h =? 34) || (h =? 91) || (h =? 123) || (h =? 110) || (h =? 116)
  || (h =? 102) || (h =? 45) || is_digit h.

(** The characters of number literals. *)
Definition is_num_char (c : char) : bool :=
  is_digit c || (c =? 43) || (c =? 45) || (c =? 46) || (c =? 69)
  || (c =? 101).

(** A text that does not continue a number literal. *)
Definition delimited (r : text) : bool :=
  match r with
  | [] => true
  | h :: _ => negb (is_num_char h)
  end.

(** The text of a tree without trailing commas parses to the value of the
    tree, whatever follows it (that does not continue a number). *)
Definition parses (t : cst) : Prop :=
  wf false t = true ->
  forall fuel rest, (cost t <= fuel)%nat ->
    delimited (tail_ws t ++ rest) = true ->
    parse_value fuel (print t ++ rest) = Some (value_of t, tail_ws t ++ rest).

(** The fuel is bounded by the length of the text. *)
Definition cost_bounded (t : cst) : Prop :=
  wf false t = true -> (cost t <= length (print t))%nat.

(** [remove_trailing_commas] on the text of a tree gives the text of the
    cleaned tree. *)
Definition cleans (t : cst) : Prop :=
  wf true t = true ->
  forall rest,
    remove_trailing_commas (print t ++ rest)
    = print (clean t) ++ remove_trailing_commas rest.

(** A text without characters below 32. *)
Definition printable (s : text) : bool := forallb (fun c => 32 <=? c) s.

(** The text of a tree is printable. *)
Definition prints_printable (t : cst) : Prop :=
  wf false t = true -> printable (print t) = true.

(** A tree that is not a padded value at its root, as [JSON.stringify]
    writes it. *)
Definition compact_root (t : cst) : Prop :=
  match t with
  | CPad _ _ _ => False
  | _ => True
  end.

(** The text of a tree starts with white space and an opener. *)
Definition opens (t : cst) : Prop :=
  forall commas, wf commas t = true ->
  exists w h tl, print t = w ++ h :: tl /\ is_pad w = true /\ opener h = true.

Local Close Scope N_scope.

(* ================================================================== *)
(** ** A research session to run the definitions on

    The model answers the planner with three sub-queries in a fenced
    block (with a trailing comma before every closer), answers the
    distiller with five learnings, two of them equal, and answers the
    planner of a deeper level (whose query starts with "previous research
    goal") with text that is not JSON.  The search finds pages for every
    query but "wind", for which it fails. *)

(** Collaborators for the trimmer: a tokenizer with one token per code
    unit, and a splitter that cuts every [chunkSize] code units. *)
Definition unit_encode (t : text) : list N := t.

Definition cut_splitText (chunkSize : Z) (t : text) : list text :=
  match t with
  | [] => []
  | _ :: _ => [firstn (Z.to_nat chunkSize) t]
  end.

Definition demo_planner_response : text :=
  lit "here are the queries:" ++ nl ++ fence_json ++ nl
  ++ stringify_trailing_commas
       (JObj [(lit "queries",
               JArr [JObj [(lit "query", JStr (lit "solar"));
                           (lit "researchGoal", JStr (lit "cost of solar"))];
                     JObj [(lit "query", JStr (lit "wind"));
                           (lit "researchGoal", JStr (lit "cost of wind"))];
                     JObj [(lit "query", JStr (lit "hydro"));
                           (lit "researchGoal", JStr (lit "cost of hydro"))]])])
  ++ nl ++ fence.

Definition demo_distiller_response : text :=
  JSON_stringify
    (JObj [(lit "learnings", JArr [JStr (lit "L1"); JStr (lit "L1"); JStr (lit "L2");
                                    JStr (lit "L3"); JStr (lit "L4")]);
           (lit "followUpQuestions", JArr [JStr (lit "F1"); JStr (lit "F2")])]).

Definition demo_generateText (system prompt : text) (abortSignal : option Z)
  : option (option text) :=
  match abortSignal with
  | Some _ => Some (Some demo_distiller_response)
  | None =>
      if contains (lit "<prompt>previous research goal") prompt
      then Some (Some (lit "sorry, no json today"))
      else Some (Some demo_planner_response)
  end.

Definition demo_search (q : text) : option SearchResponse :=
  if text_eqb q (lit "wind") then None
  else Some (mkSearchResponse
               [mkSearchItem (Some (lit "https://example.org/" ++ q))
                             (Some (lit "a page about " ++ q));
                mkSearchItem None (Some (lit "no address"));
                mkSearchItem (Some (lit "https://example.org/energy")) (Some [])]).

Definition demo_deepResearch : Invocation
    -> outcome ResearchResult * list RecursiveCall :=
  deepResearch unit_encode cut_splitText demo_generateText demo_search
    (lit "you are a researcher").

Definition demo_invocation (breadth depth : Z) : Invocation :=
  mkInvocation (lit "renewable energy trends") breadth depth
    [lit "L0"] [lit "https://example.org/seed"].

(** A search service that is down. *)
Definition demo_search_down (q : text) : option SearchResponse := None.

(** A model that answers every planner with the three sub-queries and
    every distiller with the learnings above. *)
Definition demo_generateText_steady (system prompt : text)
    (abortSignal : option Z) : option (option text) :=
  match abortSignal with
  | Some _ => Some (Some demo_distiller_response)
  | None => Some (Some demo_planner_response)
  end.

(** The session with that model, by fuel. *)
Definition steady_deepResearch_fuel : nat -> Invocation
    -> outcome ResearchResult * list RecursiveCall :=
  deepResearch_fuel unit_encode cut_splitText demo_generateText_steady
    demo_search (lit "you are a researcher").

(** A call of breadth 1 at a depth where [depth - 1] rounds back to
    [depth]. *)
Definition demo_deep_invocation : Invocation :=
  mkInvocation (lit "renewable energy trends") 1 (2 ^ 54) [] [].

(** A value of the distiller's schema for the round trip, with the given
    learning. *)
Definition demo_learnings_json (learning : text) : json :=
  JObj [(lit "learnings", JArr [JStr learning]);
        (lit "followUpQuestions", JArr [JStr (lit "why?")])].

(** A text of the model to run the sanitization on: the tree of an object
    with white space between its tokens, a number, a string with a comma
    before a bracket, and a comma before every closer; in the text a line
    feed and a delete character follow each character. *)
Definition demo_tree : cst :=
  CPad [32%N]
    (CObj
       [(mkKey [32%N] (lit "queries") [32%N],
         CPad [32%N]
           (CArr
              [CObj [(mkKey [] (lit "query") [], CStr (lit "solar"));
                     (mkKey [32%N; 32%N] (lit "researchGoal") [],
                      CPad [32%N] (CStr (lit "cost, of [solar,]")) [])]
                    [comma];
               CPad [32%N] (CNum (lit "-1.5e3")) [32%N]]
              [comma; 32%N])
           [])]
       [comma; 32%N; 32%N])
    [32%N].

Definition demo_noisy_json : text :=
  flat_map (fun ch => [ch; 10%N; 127%N]) (print demo_tree).

(** The value of the planner's answer above. *)
Definition demo_queries_json : json :=
  JObj [(lit "queries",
         JArr [JObj [(lit "query", JStr (lit "solar"));
                     (lit "researchGoal", JStr (lit "cost of solar"))];
               JObj [(lit "query", JStr (lit "wind"));
                     (lit "researchGoal", JStr (lit "cost of wind"))];
               JObj [(lit "query", JStr (lit "hydro"));
                     (lit "researchGoal", JStr (lit "cost of hydro"))]])].

(** A model whose first completion is not JSON, and whose later
    completions are the planner's answer, with its trailing commas. *)
Definition demo_answers (n : nat) (system prompt : text)
    (abortSignal : option Z) : option (option text) :=
  match n with
  | O => Some (Some (lit "sorry, no json today"))
  | S _ => Some (Some demo_planner_response)
  end.

(* ================================================================== *)
(** ** Follow-up questions: [generateFeedback] of the feedback module *)

Definition feedback_prompt (query : text) : text :=
  lines
    [ lit "given the following query from the user, ask some follow-up questions to clarify the research direction.";
      [];
      lit "return your response in **valid json format**, following this exact structure:";
      fence_json;
      lit "{";
      lit "  " ++ quoted "questions" ++ lit ": [" ++ quoted "question1" ++ lit ", "
      ++ quoted "question2" ++ lit ", " ++ quoted "question3" ++ lit "]";
      lit "}";
      fence;
      [];
      lit "### rules:";
      lit "- only return valid json. no extra text or explanations.";
      lit "- ensure the response is well-formed json.";
      lit "- each question must be concise and relevant.";
      [];
      lit "user query:";
      lit "<query>" ++ query ++ lit "</query>";
      [] ].

(** [z.object({ questions: z.array(z.string()) })], read at
    [validated.questions]. *)
Definition schema_questions (j : json) : option (list text) :=
  match j with
  | JObj ms => z_array z_string (get_property (lit "questions") ms)
  | _ => None
  end.

Section Feedback.

Variable generateText : text -> text -> option Z -> option (option text).
Variable systemPrompt : text.

(** The statements inside [try]; [None] when one of them throws: the
    completion rejects, [JSON.parse] raises a SyntaxError, the schema a
    ZodError.  The candidate is parsed as it was extracted: this function
    does not sanitize. *)
Definition generateFeedback_try (query : text) (numQuestions : Z)
  : option (list text) :=
  match generateText systemPrompt (feedback_prompt query) None with
  | None => None
  | Some response_text =>
      let responseText :=
        match response_text with Some t => t | None => [] end in
      let jsonString := extract_json_string responseText in
      match JSON_parse jsonString with
      | None => None
      | Some parsed =>
          match schema_questions parsed with
          | None => None
          | Some questions => Some (slice0 numQuestions questions)
          end
      end
  end.

(** [generateFeedback({ query, numQuestions = 3 })]: the [catch] logs the
    error and returns the empty array. *)
Definition generateFeedback (query : text) (numQuestions : Z)
  : outcome (list text) :=
  match generateFeedback_try query numQuestions with
  | Some questions => Fulfilled questions
  | None => Fulfilled []
  end.

End Feedback.

(* ================================================================== *)
(** ** The final report: [writeFinalReportPdf] *)

Definition report_prompt (prompt learningsString : text) : text :=
  lines
    [ lit "given the following prompt from the user, write a final academic report on the topic using the learnings from research. make it as detailed as possible, aim for 5 or more pages, and include all research learnings.";
      [];
      lit "### output format:";
      lit "return your response in **valid json format**, following this exact structure:";
      fence_json;
      lit "{";
      lit "  " ++ quoted "reportMarkdown" ++ lit ": " ++ quoted "string";
      lit "}";
      fence;
      [];
      lit "- **only return valid json.** no extra explanations or text.";
      [];
      lit "### user prompt:";
      lit "<prompt>" ++ prompt ++ lit "</prompt>";
      [];
      lit "### research learnings:";
      lit "<learnings>";
      learningsString;
      lit "</learnings>";
      [] ].

(** [z.object({ reportMarkdown: z.string() })], read at
    [res.reportMarkdown]. *)
Definition schema_report (j : json) : option text :=
  match j with
  | JObj ms => z_string (get_property (lit "reportMarkdown") ms)
  | _ => None
  end.

(** [learnings.map(l => `<learning>\n${l}\n</learning>`).join('\n')] *)
Definition learnings_block (learnings : list text) : text :=
  join nl
    (map (fun l => lit "<learning>" ++ nl ++ l ++ nl ++ lit "</learning>")
       learnings).

(** [`\n\n## sources\n\n${visitedUrls.map(url => `- ${url}`).join('\n')}`] *)
Definition urlsSection (visitedUrls : list text) : text :=
  nl ++ nl ++ lit "## sources" ++ nl ++ nl
  ++ join nl (map (fun url => lit "- " ++ url) visitedUrls).

(** The style sheet handed to the renderer. *)
Definition report_css : text :=
  lines
    [ [];
      lit "  @page {";
      lit "    size: a4;";
      lit "    margin: 2cm;";
      lit "  }";
      lit "  body {";
      lit "    font-family: " ++ quoted "times new roman" ++ lit ", serif;";
      lit "    font-size: 12pt;";
      lit "    line-height: 1.6;";
      lit "    color: #000;";
      lit "    margin: 0;";
      lit "    padding: 0;";
      lit "  }";
      lit "  h1, h2, h3, h4, h5, h6 {";
      lit "    font-weight: bold;";
      lit "    text-align: center;";
      lit "    margin: 1em 0 0.5em 0;";
      lit "  }";
      lit "  h1 {";
      lit "    font-size: 24pt;";
      lit "  }";
      lit "  h2 {";
      lit "    font-size: 20pt;";
      lit "  }";
      lit "  h3 {";
      lit "    font-size: 16pt;";
      lit "  }";
      lit "  p {";
      lit "    text-align: justify;";
      lit "    margin: 1em 0;";
      lit "  }";
      lit "  .title-page {";
      lit "    text-align: center;";
      lit "    margin-top: 200px;";
      lit "  }";
      lit "  .title-page h1 {";
      lit "    font-size: 28pt;";
      lit "  }";
      lit "  .title-page h2 {";
      lit "    font-size: 18pt;";
      lit "    font-weight: normal;";
      lit "  }";
      lit "  footer {";
      lit "    position: fixed;";
      lit "    bottom: 1cm;";
      lit "    text-align: center;";
      lit "    font-size: 10pt;";
      lit "    color: #666;";
      lit "  }";
      lit "  " ].

Definition outputPath : text := lit "./final-report.pdf".

(** The files on disk: the bytes at a path, [None] where there is no
    file. *)
Definition files : Type := text -> option (list N).

(** [fs.writeFileSync(path, content)] when it returns: the file at
    [path] is created or replaced, the others are as before.  A write that
    the operating system refuses throws instead, possibly after it has
    emptied the file; [writeFinalReportPdf] would then reject.  That
    outcome is outside the model: the write is taken to succeed. *)
Definition writeFileSync (fs : files) (path : text) (content : list N)
  : files :=
  fun p => if text_eqb p path then Some content else fs p.

Section ReportWriter.

Variable encode : text -> list N.
Variable splitText : Z -> text -> list text.
Variable generateText : text -> text -> option Z -> option (option text).
Variable systemPrompt : text.

(** [mdToPdf({ content, stylesheet })] of md-to-pdf: the bytes of
    [pdfResult.content], [None] when the call rejects. *)
Variable mdToPdf : text -> text -> option (list N).

(** [writeFinalReportPdf({ prompt, learnings, visitedUrls })]: what the
    promise settles with, and the files afterwards.  Nothing is caught: a
    rejection of the completion, of the extraction or of the renderer is
    the rejection of the call (that of the renderer is a
    [CollaboratorError] here).  The write itself is taken to succeed. *)
Definition writeFinalReportPdf (prompt : text)
    (learnings visitedUrls : list text) (fs : files)
  : outcome text * files :=
  match trimPrompt encode splitText (learnings_block learnings) 150000 with
  | None => (NoFuel, fs)
  | Some learningsString =>
      match safeGenerate generateText schema_report systemPrompt
              (report_prompt prompt learningsString) None with
      | NoFuel => (NoFuel, fs)
      | Rejected e => (Rejected e, fs)
      | Fulfilled res_reportMarkdown =>
          let reportMarkdown := res_reportMarkdown ++ urlsSection visitedUrls in
          match mdToPdf reportMarkdown report_css with
          | None => (Rejected CollaboratorError, fs)
          | Some content =>
              (Fulfilled outputPath, writeFileSync fs outputPath content)
          end
      end
  end.

End ReportWriter.

(* ================================================================== *)
(** ** Measures and predicates of the further properties *)

(** A bound on the number of recursive calls below a call that has
    [levels] levels under it: each of at most [breadth] branches makes at
    most one call, of half the breadth. *)
Fixpoint max_calls (levels : nat) (breadth : Z) : Z :=
  match levels with
  | O => 0
  | S levels' => breadth * (1 + max_calls levels' (ceil_half breadth))
  end.

(** [deletes p t s]: [s] is [t] with some of its characters that satisfy
    [p] taken out; the others are kept, in their order. *)
Inductive deletes (p : char -> bool) : text -> text -> Prop :=
| deletes_nil : deletes p [] []
| deletes_keep c t s : deletes p t s -> deletes p (c :: t) (c :: s)
| deletes_drop c t s : p c = true -> deletes p t s -> deletes p (c :: t) s.

(** The object that the feedback prompt asks for. *)
Definition questions_json (questions : list text) : json :=
  JObj [(lit "questions", JArr (map JStr questions))].

(** The object that the report prompt asks for. *)
Definition report_json (reportMarkdown : text) : json :=
  JObj [(lit "reportMarkdown", JStr reportMarkdown)].

(** A renderer to run [writeFinalReportPdf] on: the bytes of the
    document. *)
Definition demo_mdToPdf (content stylesheet : text) : option (list N) :=
  Some content.

(** A disk without files. *)
Definition no_files : files := fun _ => None.

(* ================================================================== *)
(** * Properties *)

(** ** TextTrimmer *)

Section TextTrimmerFacts.

Variable encode : text -> list N.
Variable splitText : Z -> text -> list text.

Lemma slice0_short (n : Z) (t : text) :
  0 <= n -> js_length t <= n -> slice0 n t = t.
Proof.
  intros Hn Hlen. unfold slice0, js_length in *.
  destruct (Z.ltb_spec n 0) as [Hneg | _]; [lia |].
  apply firstn_all2. lia.
Qed.

Lemma slice0_length (n : Z) (t : text) :
  0 <= n -> js_length (slice0 n t) <= n.
Proof.
  intros Hn. unfold slice0, js_length.
  destruct (Z.ltb_spec n 0) as [Hneg | _]; [lia |].
  rewrite length_firstn. lia.
Qed.

Lemma slice0_length_le (n : Z) (t : text) :
  0 <= n -> (length (slice0 n t) <= Z.to_nat n)%nat.
Proof.
  intros Hn. pose proof (slice0_length n t Hn) as H.
  unfold js_length in H. lia.
Qed.

Lemma trimPrompt_fuel_trimmed (fuel : nat) :
  forall t b r, trimPrompt_fuel encode splitText fuel t b = Some r ->
                trimmed encode b r.
Proof.
  induction fuel as [| fuel IH]; intros t b r H; simpl in H; [discriminate |].
  destruct t as [| c t'].
  - inversion H; subst. right. unfold js_length, MinChunkSize. simpl. lia.
  - destruct (Z.leb_spec (js_length (encode (c :: t'))) b) as [Hfit | Hover].
    + inversion H; subst. left. exact Hfit.
    + match type of H with
      | (if ?g then _ else _) = _ => destruct g
      end.
      * inversion H; subst. right. apply slice0_length.
        unfold MinChunkSize. lia.
      * match type of H with
        | (if ?g then _ else _) = _ => destruct g
        end; eapply IH; exact H.
Qed.

(** A result of [trimPrompt] is a fixed point of [trimPrompt]. *)
Lemma trimPrompt_fuel_fixed (fuel : nat) (r : text) (b : Z) :
  trimmed encode b r ->
  trimPrompt_fuel encode splitText (S fuel) r b = Some r.
Proof.
  intros Hr. simpl. destruct r as [| c r']; [reflexivity |].
  destruct (Z.leb_spec (js_length (encode (c :: r'))) b) as [Hfit | Hover];
    [reflexivity |].
  destruct Hr as [Hfit | Hshort]; [lia |].
  destruct (Z.ltb_spec
              (js_length (c :: r')
               - (js_length (encode (c :: r')) - b) * 3) MinChunkSize)
    as [_ | Hbig].
  - rewrite slice0_short; [reflexivity | unfold MinChunkSize; lia | exact Hshort].
  - exfalso. lia.
Qed.

Lemma trimPrompt_fuel_unchanged (fuel : nat) (t : text) (b : Z) :
  js_length (encode t) <= b ->
  trimPrompt_fuel encode splitText (S fuel) t b = Some t.
Proof.
  intros H. apply trimPrompt_fuel_fixed. left. exact H.
Qed.

Hypothesis split_shrinks : splitter_shrinks splitText.

(** With a splitter whose first chunk is no longer than the text, each
    nested call works on a strictly shorter text, so the fuel that
    [trimPrompt] supplies is enough. *)
Lemma trimPrompt_fuel_total (n : nat) :
  forall t b, (length t <= n)%nat ->
              exists r, trimPrompt_fuel encode splitText (S n) t b = Some r.
Proof.
  induction n as [| n IH]; intros t b Hlen.
  - destruct t; [| simpl in Hlen; lia]. exists []. reflexivity.
  - cbn [trimPrompt_fuel]. destruct t as [| c t']; [eexists; reflexivity |].
    destruct (Z.leb_spec (js_length (encode (c :: t'))) b) as [Hfit | Hover];
      [eexists; reflexivity |].
    set (chunkSize := js_length (c :: t')
                      - (js_length (encode (c :: t')) - b) * 3).
    destruct (Z.ltb_spec chunkSize MinChunkSize) as [_ | Hbig];
      [eexists; reflexivity |].
    assert (Hchunk : chunkSize < js_length (c :: t')) by (unfold chunkSize; lia).
    destruct (Z.eqb_spec
                (js_length (hd [] (splitText chunkSize (c :: t'))))
                (js_length (c :: t'))) as [Heq | Hne].
    + apply IH.
      assert (H0 : 0 <= chunkSize) by (unfold MinChunkSize in Hbig; lia).
      pose proof (slice0_length_le chunkSize (c :: t') H0) as Hs.
      unfold js_length in Hchunk. simpl in Hlen, Hchunk |- *. lia.
    + apply IH.
      pose proof (split_shrinks chunkSize (c :: t')) as Hs.
      unfold js_length in Hne. simpl in Hlen, Hne, Hs |- *. lia.
Qed.

Lemma trimPrompt_total (t : text) (b : Z) :
  exists r, trimPrompt encode splitText t b = Some r.
Proof.
  unfold trimPrompt. apply trimPrompt_fuel_total. lia.
Qed.

End TextTrimmerFacts.

Lemma cut_splitText_shrinks : splitter_shrinks cut_splitText.
Proof.
  intros chunkSize t. destruct t as [| c t']; [apply Nat.le_refl |].
  unfold cut_splitText, hd. rewrite length_firstn. apply Nat.le_min_r.
Defined.

(** C2. For every text [t] and token budget [b], [trimPrompt t b] returns
    a text whose token count is at most [b], or whose length is at most
    the floor of 140 characters.  (That it returns at all needs a
    splitter whose first chunk is no longer than the text.) *)
Theorem trimPrompt_budget_or_floor
    (encode : text -> list N) (splitText : Z -> text -> list text)
    (Hsplit : splitter_shrinks splitText) (t : text) (b : Z) :
  exists r, trimPrompt encode splitText t b = Some r
            /\ (js_length (encode r) <= b \/ js_length r <= 140).
Proof.
  destruct (trimPrompt_total encode splitText Hsplit t b) as [r Hr].
  exists r. split; [exact Hr |].
  exact (trimPrompt_fuel_trimmed encode splitText _ _ _ _ Hr).
Qed.

Lemma trimPrompt_budget_or_floor_witness :
  splitter_shrinks cut_splitText
  /\ exists r, trimPrompt unit_encode cut_splitText (repeat 97%N 500) 400 = Some r
               /\ (js_length (unit_encode r) <= 400 \/ js_length r <= 140).
Proof.
  split; [exact cut_splitText_shrinks |].
  apply (trimPrompt_budget_or_floor unit_encode cut_splitText
           cut_splitText_shrinks (repeat 97%N 500) 400).
Defined.

(** C8. Trimming is idempotent: for every text [t] and budget [b] at
    least the floor size, [trimPrompt (trimPrompt t b) b] equals
    [trimPrompt t b]; and when the token count of [t] is at most [b],
    [trimPrompt t b] is [t] itself. *)
Theorem trimPrompt_idempotent
    (encode : text -> list N) (splitText : Z -> text -> list text)
    (Hsplit : splitter_shrinks splitText) (t : text) (b : Z)
    (Hb : MinChunkSize <= b) :
  exists r, trimPrompt encode splitText t b = Some r
            /\ trimPrompt encode splitText r b = Some r
            /\ (js_length (encode t) <= b -> r = t).
Proof.
  destruct (trimPrompt_total encode splitText Hsplit t b) as [r Hr].
  exists r. split; [exact Hr |]. split.
  - apply trimPrompt_fuel_fixed.
    exact (trimPrompt_fuel_trimmed encode splitText _ _ _ _ Hr).
  - intros Hfit. unfold trimPrompt in Hr.
    rewrite (trimPrompt_fuel_unchanged encode splitText _ _ _ Hfit) in Hr.
    congruence.
Qed.

Lemma trimPrompt_idempotent_witness :
  splitter_shrinks cut_splitText /\ MinChunkSize <= 400
  /\ exists r, trimPrompt unit_encode cut_splitText (repeat 97%N 500) 400 = Some r
               /\ trimPrompt unit_encode cut_splitText r 400 = Some r
               /\ (js_length (unit_encode (repeat 97%N 500)) <= 400
                   -> r = repeat 97%N 500).
Proof.
  split; [exact cut_splitText_shrinks |].
  split; [unfold MinChunkSize; lia |].
  apply (trimPrompt_idempotent unit_encode cut_splitText
           cut_splitText_shrinks (repeat 97%N 500) 400).
  unfold MinChunkSize. lia.
Defined.

(* ================================================================== *)
(** ** The merge: [[...new Set(l)]] *)

Lemma text_eqb_eq (a b : text) : text_eqb a b = true <-> a = b.
Proof.
  unfold text_eqb. destruct (list_eq_dec N.eq_dec a b); split; congruence.
Qed.

Lemma existsb_text_eqb (x : text) (s : list text) :
  existsb (text_eqb x) s = true <-> In x s.
Proof.
  rewrite existsb_exists. split.
  - intros [y [Hy Heq]]. apply text_eqb_eq in Heq. subst. exact Hy.
  - intros Hx. exists x. split; [exact Hx | apply text_eqb_eq; reflexivity].
Qed.

Lemma set_add_NoDup (s : list text) (x : text) :
  NoDup s -> NoDup (set_add s x).
Proof.
  intros Hs. unfold set_add.
  destruct (existsb (text_eqb x) s) eqn:E; [exact Hs |].
  apply NoDup_app; [exact Hs | repeat constructor; intros [] | ].
  intros y Hy [Hyx | []]. subst y.
  apply existsb_text_eqb in Hy. congruence.
Qed.

Lemma set_add_In (s : list text) (x y : text) :
  In y (set_add s x) <-> In y s \/ y = x.
Proof.
  unfold set_add. destruct (existsb (text_eqb x) s) eqn:E.
  - apply existsb_text_eqb in E. split; [tauto |].
    intros [H | H]; [exact H | subst; exact E].
  - rewrite in_app_iff. simpl. intuition congruence.
Qed.

Lemma fold_set_add_NoDup (l : list text) :
  forall s, NoDup s -> NoDup (fold_left set_add l s).
Proof.
  induction l as [| x l IH]; intros s Hs; simpl; [exact Hs |].
  apply IH, set_add_NoDup, Hs.
Qed.

Lemma fold_set_add_In (l : list text) :
  forall s y, In y (fold_left set_add l s) <-> In y s \/ In y l.
Proof.
  induction l as [| x l IH]; intros s y; simpl; [tauto |].
  rewrite IH, set_add_In. intuition congruence.
Qed.

Lemma new_Set_NoDup (l : list text) : NoDup (new_Set l).
Proof. apply fold_set_add_NoDup. constructor. Qed.

Lemma new_Set_In (l : list text) (y : text) : In y (new_Set l) <-> In y l.
Proof. unfold new_Set. rewrite fold_set_add_In. simpl. tauto. Qed.

Lemma new_Set_once (l : list text) (y : text) :
  In y l -> count_occ (list_eq_dec N.eq_dec) (new_Set l) y = 1%nat.
Proof.
  intros Hy. apply new_Set_In in Hy.
  pose proof (new_Set_NoDup l) as Hnd.
  rewrite (NoDup_count_occ (list_eq_dec N.eq_dec)) in Hnd.
  specialize (Hnd y).
  apply (count_occ_In (list_eq_dec N.eq_dec)) in Hy. lia.
Qed.

(* ================================================================== *)
(** ** [Promise.all] *)

Lemma promise_all_NoFuel {T} (l : list (outcome T)) :
  promise_all l = NoFuel -> In NoFuel l.
Proof.
  induction l as [| o l IH]; simpl; [discriminate |].
  destruct o as [v | e |]; [| | auto];
    destruct (promise_all l); intros H; try discriminate; auto.
Qed.

Lemma promise_all_Fulfilled {T} (l : list (outcome T)) :
  forall vs, promise_all l = Fulfilled vs -> l = map Fulfilled vs.
Proof.
  induction l as [| o l IH]; simpl; intros vs H.
  - inversion H. reflexivity.
  - destruct o as [v | e |]; destruct (promise_all l) as [ws | e' |];
      try discriminate.
    inversion H; subst. simpl. f_equal. apply IH. reflexivity.
Qed.

Lemma promise_all_Rejected {T} (l : list (outcome T)) (e : error) :
  promise_all l = Rejected e -> In (Rejected e) l.
Proof.
  induction l as [| o l IH]; simpl; [discriminate |].
  destruct o as [v | e0 |]; destruct (promise_all l) as [ws | e' |];
    intros H; try discriminate; inversion H; subst; auto.
Qed.

Lemma promise_all_map_Fulfilled {T} (vs : list T) :
  promise_all (map Fulfilled vs) = Fulfilled vs.
Proof.
  induction vs as [| v vs IH]; simpl; [reflexivity |]. rewrite IH. reflexivity.
Qed.

Lemma all_some_map_total {A B} (f : A -> option B) (l : list A) :
  (forall x, In x l -> exists y, f x = Some y) ->
  exists ys, all_some (map f l) = Some ys.
Proof.
  induction l as [| x l IH]; intros H; simpl; [eexists; reflexivity |].
  destruct (H x (or_introl eq_refl)) as [y Hy]. rewrite Hy.
  destruct IH as [ys Hys]; [intros z Hz; apply H; right; exact Hz |].
  rewrite Hys. eexists. reflexivity.
Qed.

(* ================================================================== *)
(** ** The orchestrator *)

Lemma ceil_half_spec (b : Z) : b <= 2 * ceil_half b < b + 2.
Proof.
  unfold ceil_half.
  pose proof (Z.div_mod (b + 1) 2 ltac:(lia)) as Hd.
  pose proof (Z.mod_pos_bound (b + 1) 2 ltac:(lia)) as Hm. lia.
Qed.

(** *** The subtraction of the depth *)

Lemma two_53 : 2 ^ 53 = 9007199254740992.
Proof. reflexivity. Qed.

Lemma to_double_exact (x : Z) : Z.abs x < 2 ^ 53 -> to_double x = x.
Proof.
  intros H. unfold to_double.
  destruct (Z.ltb_spec (Z.abs x) (2 ^ 53)); [reflexivity | lia].
Qed.

Lemma to_double_nonpos (x : Z) : x <= 0 -> to_double x <= 0.
Proof.
  intros H. unfold to_double.
  destruct (Z.ltb_spec (Z.abs x) (2 ^ 53)) as [_ | Hbig]; [exact H |].
  cbv zeta.
  set (ulp := 2 ^ (Z.log2 (Z.abs x) - 52)).
  assert (Hulp : 0 <= ulp) by (apply Z.pow_nonneg; lia).
  assert (Hq : 0 <= Z.abs x / ulp).
  { destruct (Z.eq_dec ulp 0) as [-> | Hne].
    - rewrite Z.div_0_r. lia.
    - apply Z.div_pos; lia. }
  assert (Hs : Z.sgn x <= 0) by (destruct x; simpl; lia).
  match goal with
  | |- Z.sgn x * (?k * ulp) <= 0 =>
      assert (Hk : 0 <= k * ulp)
        by (apply Z.mul_nonneg_nonneg; [destruct (_ : bool); lia | exact Hulp]);
      generalize dependent (k * ulp)
  end.
  intros v Hv. apply Z.mul_nonpos_nonneg; assumption.
Qed.

(** Below 2^53 the depth of a recursive call is the depth less one. *)
Lemma number_sub_one_safe (d : Z) :
  d <= 2 ^ 53 -> 0 < number_sub d 1 -> number_sub d 1 = d - 1 /\ 0 < d - 1.
Proof.
  intros Hsafe Hpos. unfold number_sub in *.
  destruct (Z.le_gt_cases (d - 1) 0) as [Hle | Hgt].
  - pose proof (to_double_nonpos _ Hle). lia.
  - rewrite to_double_exact by (rewrite two_53 in *; lia). split; [reflexivity | lia].
Qed.

(** At a depth of 1 or less no recursive call is made. *)
Lemma number_sub_one_floor (d : Z) : d <= 1 -> number_sub d 1 <= 0.
Proof. intros H. apply to_double_nonpos. lia. Qed.

Lemma map_eq_In {A B C} (f : A -> C) (g : B -> C) (l : list A) :
  forall l' b, map f l = map g l' -> In b l' -> exists a, In a l /\ f a = g b.
Proof.
  induction l as [| a l IH]; intros [| b' l'] b Hmap Hb; simpl in *;
    try discriminate; try contradiction.
  inversion Hmap. destruct Hb as [-> | Hb].
  - exists a. auto.
  - destruct (IH l' b H1 Hb) as [a' [Ha' Heq]]. exists a'. auto.
Qed.

Lemma map_Fulfilled_In {A T} (f : A -> outcome T) (l : list A)
    (results : list T) :
  map f l = map Fulfilled results ->
  (forall a, In a l -> exists b, f a = Fulfilled b /\ In b results)
  /\ (forall b, In b results -> exists a, In a l /\ f a = Fulfilled b).
Proof.
  intros Hmap. split.
  - intros a Ha. apply (in_map f) in Ha. rewrite Hmap in Ha.
    apply in_map_iff in Ha. destruct Ha as [b [Hb Hin]]. exists b. auto.
  - intros b Hb. exact (map_eq_In _ _ _ _ _ Hmap Hb).
Qed.

Section OrchestratorFacts.

Variable encode : text -> list N.
Variable splitText : Z -> text -> list text.
Variable generateText : text -> text -> option Z -> option (option text).
Variable search : text -> option SearchResponse.
Variable systemPrompt : text.

Let branch := research_branch encode splitText generateText search systemPrompt.
Let run := deepResearch_fuel encode splitText generateText search systemPrompt.

Lemma safeGenerate_on_settles {T} (schema : json -> option T) r :
  safeGenerate_on schema r <> NoFuel.
Proof.
  unfold safeGenerate_on.
  destruct (JSON_parse _) as [j |]; [destruct (schema j) |]; discriminate.
Qed.

Lemma safeGenerate_settles {T} (schema : json -> option T) s p a :
  safeGenerate generateText schema s p a <> NoFuel.
Proof.
  unfold safeGenerate. destruct (generateText s p a);
    [apply safeGenerate_on_settles | discriminate].
Qed.

Lemma generateSerpQueries_settles q n ls :
  generateSerpQueries generateText systemPrompt q n ls <> NoFuel.
Proof.
  unfold generateSerpQueries.
  pose proof (safeGenerate_settles schema_queries systemPrompt
                (serpQueries_prompt q ls) None) as H.
  destruct (safeGenerate _ _ _ _ _); congruence.
Qed.

Lemma processSerpResult_settles q result n m :
  splitter_shrinks splitText ->
  processSerpResult encode splitText generateText systemPrompt q result n m
  <> NoFuel.
Proof.
  intros Hsplit. unfold processSerpResult.
  destruct (all_some_map_total
              (fun content => trimPrompt encode splitText content 25000)
              (compact (map description (data result)))) as [ys Hys].
  - intros x _. apply trimPrompt_total. exact Hsplit.
  - rewrite Hys. apply safeGenerate_settles.
Qed.

Lemma branch_calls recurse this q :
  inv_depth this <= 2 ^ 53 ->
  (forall next, inv_depth next = inv_depth this - 1 ->
                Forall (call_ok (inv_depth next)) (snd (recurse next))) ->
  Forall (call_ok (inv_depth this)) (snd (branch recurse this q)).
Proof.
  intros Hsafe Hrec. unfold branch, research_branch.
  destruct (query q) as [| qc qt]; [constructor |].
  destruct (search _) as [result |]; [| constructor].
  destruct (processSerpResult _ _ _ _ _ _ _ _) as [found | e |];
    try constructor.
  destruct (Z.ltb_spec 0 (number_sub (inv_depth this) 1)) as [Hpos | Hle];
    [| constructor].
  destruct (number_sub_one_safe _ Hsafe Hpos) as [Heq Hpos']. rewrite Heq.
  match goal with
  | |- context [recurse ?n] =>
      specialize (Hrec n eq_refl); destruct (recurse n) as [settled calls]
  end.
  simpl in *. constructor.
  - repeat split; simpl; try reflexivity; lia.
  - eapply Forall_impl; [| exact Hrec].
    intros c (Hb & Ha & Hd). split; [exact Hb |]. split; [exact Ha |]. lia.
Qed.

Lemma run_calls (fuel : nat) :
  forall this, inv_depth this <= 2 ^ 53 ->
               Forall (call_ok (inv_depth this)) (snd (run fuel this)).
Proof.
  induction fuel as [| fuel IH]; intros this Hsafe; simpl; [constructor |].
  destruct (generateSerpQueries _ _ _ _ _) as [qs | e |]; try constructor.
  simpl. apply Forall_concat. rewrite map_map.
  apply Forall_map, Forall_forall. intros q _.
  apply branch_calls; [exact Hsafe |]. intros next Hd. apply IH. lia.
Qed.

Lemma branch_ext r1 r2 this q :
  inv_depth this <= 2 ^ 53 ->
  (forall next, inv_depth next = inv_depth this - 1 -> 0 < inv_depth next ->
                r1 next = r2 next) ->
  branch r1 this q = branch r2 this q.
Proof.
  intros Hsafe Hrec. unfold branch, research_branch.
  destruct (query q) as [| qc qt]; [reflexivity |].
  destruct (search _) as [result |]; [| reflexivity].
  destruct (processSerpResult _ _ _ _ _ _ _ _) as [found | e |];
    try reflexivity.
  destruct (Z.ltb_spec 0 (number_sub (inv_depth this) 1)) as [Hpos | Hle];
    [| reflexivity].
  destruct (number_sub_one_safe _ Hsafe Hpos) as [Heq Hpos']. rewrite Heq.
  rewrite Hrec; [reflexivity | reflexivity | exact Hpos'].
Qed.

(** For a depth of at most 2^53, more fuel than the depth changes
    nothing: a call nests at most [depth] deep. *)
Lemma run_fuel_irrelevant (f1 : nat) :
  forall f2 this,
    inv_depth this <= 2 ^ 53 ->
    (Z.to_nat (inv_depth this) < f1)%nat ->
    (Z.to_nat (inv_depth this) < f2)%nat ->
    run f1 this = run f2 this.
Proof.
  induction f1 as [| f1 IH]; intros f2 this Hsafe H1 H2; [lia |].
  destruct f2 as [| f2]; [lia |]. simpl.
  destruct (generateSerpQueries _ _ _ _ _) as [qs | e |]; try reflexivity.
  assert (Hmap : map (research_branch encode splitText generateText search
                        systemPrompt (run f1) this) qs
                 = map (research_branch encode splitText generateText search
                          systemPrompt (run f2) this) qs).
  { apply map_ext. intros q. apply branch_ext; [exact Hsafe |].
    intros next Hd Hpos. apply IH; lia. }
  fold run. rewrite Hmap. reflexivity.
Qed.

Hypothesis split_shrinks : splitter_shrinks splitText.

Lemma branch_settles recurse this q :
  inv_depth this <= 2 ^ 53 ->
  (forall next, inv_depth next = inv_depth this - 1 -> 0 < inv_depth next ->
                fst (recurse next) <> NoFuel) ->
  fst (branch recurse this q) <> NoFuel.
Proof.
  intros Hsafe Hrec. unfold branch, research_branch.
  destruct (query q) as [| qc qt]; [discriminate |].
  destruct (search _) as [result |]; [| discriminate].
  pose proof (processSerpResult_settles (qc :: qt) result 3
                (ceil_half (inv_breadth this)) split_shrinks) as Hp.
  destruct (processSerpResult _ _ _ _ _ _ _ _) as [found | e |];
    [| discriminate | congruence].
  destruct (Z.ltb_spec 0 (number_sub (inv_depth this) 1)) as [Hpos | Hle];
    [| discriminate].
  destruct (number_sub_one_safe _ Hsafe Hpos) as [Heq Hpos']. rewrite Heq.
  match goal with
  | |- context [recurse ?n] =>
      specialize (Hrec n eq_refl Hpos'); destruct (recurse n) as [settled calls]
  end.
  exact Hrec.
Qed.

Lemma run_settles (fuel : nat) :
  forall this, inv_depth this <= 2 ^ 53 ->
               (Z.to_nat (inv_depth this) < fuel)%nat ->
               fst (run fuel this) <> NoFuel.
Proof.
  induction fuel as [| fuel IH]; intros this Hsafe Hfuel; [lia |]. simpl.
  pose proof (generateSerpQueries_settles (inv_query this) (inv_breadth this)
                (Some (inv_learnings this))) as Hg.
  destruct (generateSerpQueries _ _ _ _ _) as [qs | e |];
    [| discriminate | congruence].
  simpl. destruct (promise_all _) as [results | e |] eqn:Hall;
    try discriminate.
  apply promise_all_NoFuel in Hall. rewrite map_map in Hall.
  apply in_map_iff in Hall. destruct Hall as [q [Hq _]].
  exfalso. apply (branch_settles (run fuel) this q); [exact Hsafe | | exact Hq].
  intros next Hd Hpos. apply IH; lia.
Qed.

(** What a fulfilled call returns: the merge of what its branches
    settled with. *)
Lemma run_Fulfilled (fuel : nat) this r :
  fst (run (S fuel) this) = Fulfilled r ->
  exists qs results,
    generateSerpQueries generateText systemPrompt (inv_query this)
      (inv_breadth this) (Some (inv_learnings this)) = Fulfilled qs
    /\ map (fun q => fst (branch (run fuel) this q)) qs = map Fulfilled results
    /\ r = merge_results results.
Proof.
  simpl. destruct (generateSerpQueries _ _ _ _ _) as [qs | e |];
    try discriminate.
  simpl. destruct (promise_all _) as [results | e |] eqn:Hall;
    try discriminate.
  intros H. inversion H; subst. exists qs, results.
  split; [reflexivity |]. split; [| reflexivity].
  apply promise_all_Fulfilled in Hall. rewrite map_map in Hall. exact Hall.
Qed.

(** A fulfilled call had every branch of the planner's queries fulfilled,
    and returns the strings of their results, each one once. *)
Lemma run_Fulfilled_union (fuel : nat) this r :
  fst (run (S fuel) this) = Fulfilled r ->
  exists qs,
    generateSerpQueries generateText systemPrompt (inv_query this)
      (inv_breadth this) (Some (inv_learnings this)) = Fulfilled qs
    /\ (forall q, In q qs ->
          exists b, fst (branch (run fuel) this q) = Fulfilled b)
    /\ (forall x, In x (learnings r) <->
          exists q b, In q qs /\ fst (branch (run fuel) this q) = Fulfilled b
                      /\ In x (learnings b))
    /\ (forall x, In x (visitedUrls r) <->
          exists q b, In q qs /\ fst (branch (run fuel) this q) = Fulfilled b
                      /\ In x (visitedUrls b)).
Proof.
  intros Hr. apply run_Fulfilled in Hr.
  destruct Hr as (qs & results & Hplan & Hmap & ->).
  destruct (map_Fulfilled_In _ _ _ Hmap) as [Hfwd Hbwd].
  exists qs. split; [exact Hplan |]. split; [| split].
  - intros q Hq. destruct (Hfwd q Hq) as [b [Hb _]]. exists b. exact Hb.
  - intros x. unfold merge_results. cbn [learnings].
    rewrite new_Set_In, in_flat_map. split.
    + intros [b [Hb Hx]]. destruct (Hbwd b Hb) as [q [Hq Hqb]].
      exists q, b. auto.
    + intros (q & b & Hq & Hqb & Hx). destruct (Hfwd q Hq) as [b' [Hb' Hin]].
      rewrite Hqb in Hb'. inversion Hb'; subst b'. exists b. auto.
  - intros x. unfold merge_results. cbn [visitedUrls].
    rewrite new_Set_In, in_flat_map. split.
    + intros [b [Hb Hx]]. destruct (Hbwd b Hb) as [q [Hq Hqb]].
      exists q, b. auto.
    + intros (q & b & Hq & Hqb & Hx). destruct (Hfwd q Hq) as [b' [Hb' Hin]].
      rewrite Hqb in Hb'. inversion Hb'; subst b'. exists b. auto.
Qed.

Lemma run_Fulfilled_NoDup (fuel : nat) this r :
  fst (run (S fuel) this) = Fulfilled r ->
  NoDup (learnings r) /\ NoDup (visitedUrls r).
Proof.
  intros Hr. apply run_Fulfilled in Hr.
  destruct Hr as (qs & results & _ & _ & ->).
  split; apply new_Set_NoDup.
Qed.

(** The accumulator of every recursive call, at any depth. *)
Lemma branch_accumulator_steps recurse this q :
  (forall next, Forall accumulator_step (snd (recurse next))) ->
  Forall accumulator_step (snd (branch recurse this q)).
Proof.
  intros Hrec. unfold branch, research_branch.
  destruct (query q) as [| qc qt]; [constructor |].
  destruct (search _) as [result |]; [| constructor].
  destruct (processSerpResult _ _ _ _ _ _ _ _) as [found | e |];
    try constructor.
  destruct (Z.ltb_spec 0 (number_sub (inv_depth this) 1)) as [Hpos | Hle];
    [| constructor].
  match goal with
  | |- context [recurse ?n] =>
      specialize (Hrec n); destruct (recurse n) as [settled calls]
  end.
  simpl in *. constructor; [| exact Hrec]. split; reflexivity.
Qed.

Lemma run_accumulator_steps (fuel : nat) :
  forall this, Forall accumulator_step (snd (run fuel this)).
Proof.
  induction fuel as [| fuel IH]; intros this; simpl; [constructor |].
  destruct (generateSerpQueries _ _ _ _ _) as [qs | e |]; try constructor.
  simpl. apply Forall_concat. rewrite map_map.
  apply Forall_map, Forall_forall. intros q _.
  apply branch_accumulator_steps. exact IH.
Qed.

End OrchestratorFacts.

Lemma NoDup_once (l : list text) (x : text) :
  NoDup l -> In x l -> count_occ (list_eq_dec N.eq_dec) l x = 1%nat.
Proof.
  intros Hnd Hx. rewrite (NoDup_count_occ (list_eq_dec N.eq_dec)) in Hnd.
  specialize (Hnd x). apply (count_occ_In (list_eq_dec N.eq_dec)) in Hx. lia.
Qed.

(** C1, as the code has it.  For a depth of at most 2^53, where the
    double [depth - 1] is exact: every recursive call that [deepResearch]
    makes has depth one less than its caller and breadth the half of its
    caller's, rounded up; it is made only when that depth is positive; the
    nesting of calls is bounded by the initial depth (fuel beyond the
    depth changes nothing) and the call always settles. *)
Theorem deepResearch_budget_bounded
    (encode : text -> list N) (splitText : Z -> text -> list text)
    (generateText : text -> text -> option Z -> option (option text))
    (search : text -> option SearchResponse) (systemPrompt : text)
    (Hsplit : splitter_shrinks splitText) (this : Invocation)
    (Hdepth : inv_depth this <= 2 ^ 53) :
  fst (deepResearch encode splitText generateText search systemPrompt this)
  <> NoFuel
  /\ (forall fuel, (Z.to_nat (inv_depth this) < fuel)%nat ->
        deepResearch_fuel encode splitText generateText search systemPrompt
          fuel this
        = deepResearch encode splitText generateText search systemPrompt this)
  /\ Forall (fun c =>
               inv_depth (callee c) = inv_depth (caller c) - 1
               /\ inv_breadth (callee c) = ceil_half (inv_breadth (caller c))
               /\ inv_breadth (caller c) <= 2 * inv_breadth (callee c)
                  < inv_breadth (caller c) + 2
               /\ 0 < inv_depth (callee c) < inv_depth this)
       (snd (deepResearch encode splitText generateText search systemPrompt
               this)).
Proof.
  unfold deepResearch. split; [| split].
  - apply run_settles; [exact Hsplit | exact Hdepth | lia].
  - intros fuel Hfuel. apply run_fuel_irrelevant; [exact Hdepth | lia | lia].
  - eapply Forall_impl; [| apply run_calls; exact Hdepth].
    intros c ((Hd & Hb & Hpos) & _ & Hbound).
    rewrite Hb. pose proof (ceil_half_spec (inv_breadth (caller c))). lia.
Qed.

Lemma deepResearch_budget_bounded_witness :
  splitter_shrinks cut_splitText
  /\ inv_depth (demo_invocation 3 2) <= 2 ^ 53
  /\ fst (demo_deepResearch (demo_invocation 3 2)) <> NoFuel
  /\ (forall fuel, (Z.to_nat (inv_depth (demo_invocation 3 2)) < fuel)%nat ->
        deepResearch_fuel unit_encode cut_splitText demo_generateText
          demo_search (lit "you are a researcher") fuel (demo_invocation 3 2)
        = demo_deepResearch (demo_invocation 3 2))
  /\ Forall (fun c =>
               inv_depth (callee c) = inv_depth (caller c) - 1
               /\ inv_breadth (callee c) = ceil_half (inv_breadth (caller c))
               /\ inv_breadth (caller c) <= 2 * inv_breadth (callee c)
                  < inv_breadth (caller c) + 2
               /\ 0 < inv_depth (callee c) < inv_depth (demo_invocation 3 2))
       (snd (demo_deepResearch (demo_invocation 3 2))).
Proof.
  split; [exact cut_splitText_shrinks |].
  split; [vm_compute; discriminate |].
  exact (deepResearch_budget_bounded unit_encode cut_splitText
           demo_generateText demo_search (lit "you are a researcher")
           cut_splitText_shrinks (demo_invocation 3 2)
           ltac:(vm_compute; discriminate)).
Defined.

(** The planner of the steady model: one sub-query at breadth 1. *)
Lemma steady_planner (q : text) (ls : list text) :
  generateSerpQueries demo_generateText_steady (lit "you are a researcher")
    q 1 (Some ls)
  = Fulfilled [mkSerpQuery (lit "solar") (lit "cost of solar")].
Proof.
  unfold generateSerpQueries, safeGenerate.
  change (demo_generateText_steady (lit "you are a researcher")
            (serpQueries_prompt q (Some ls)) None)
    with (Some (Some demo_planner_response)).
  vm_compute. reflexivity.
Qed.

(** At 2^54 the spacing of the doubles is 4: [2^54 - 1] rounds to 2^54. *)
Lemma number_sub_rounds : number_sub (2 ^ 54) 1 = 2 ^ 54.
Proof. vm_compute. reflexivity. Qed.

(** One level of the steady session at depth 2^54: the branch recurses at
    the same depth. *)
Lemma steady_level (fuel : nat) (q : text) (ls us : list text) :
  exists next found_l found_u,
    inv_breadth next = 1 /\ inv_depth next = 2 ^ 54
    /\ fst (steady_deepResearch_fuel (S fuel) (mkInvocation q 1 (2 ^ 54) ls us))
       = match fst (steady_deepResearch_fuel fuel next) with
         | Fulfilled r => Fulfilled (merge_results [r])
         | Rejected e => Rejected e
         | NoFuel => NoFuel
         end
    /\ In (mkRecursiveCall (mkInvocation q 1 (2 ^ 54) ls us)
             found_l found_u next)
         (snd (steady_deepResearch_fuel (S fuel)
                 (mkInvocation q 1 (2 ^ 54) ls us))).
Proof.
  unfold steady_deepResearch_fuel. cbn [deepResearch_fuel].
  cbn [inv_query inv_breadth inv_learnings].
  rewrite steady_planner. cbn [map].
  unfold research_branch.
  cbn [query inv_breadth inv_depth inv_learnings inv_visitedUrls researchGoal].
  destruct (lit "solar") as [| c0 t0] eqn:El; [vm_compute in El; discriminate |].
  rewrite <- El.
  destruct (demo_search (lit "solar")) as [result |] eqn:Es;
    [| vm_compute in Es; discriminate].
  vm_compute in Es. injection Es as <-.
  destruct (processSerpResult _ _ _ _ _ _ _ _) as [found | e |] eqn:Ep;
    [| vm_compute in Ep; discriminate | vm_compute in Ep; discriminate].
  rewrite number_sub_rounds.
  change (0 <? 2 ^ 54) with true. change (ceil_half 1) with 1. cbv iota.
  match goal with
  | |- context [deepResearch_fuel _ _ _ _ _ fuel ?n] =>
      exists n; destruct (deepResearch_fuel unit_encode cut_splitText
                            demo_generateText_steady demo_search
                            (lit "you are a researcher") fuel n)
                  as [settled calls]
  end.
  do 2 eexists.
  split; [reflexivity |]. split; [reflexivity |]. split.
  - cbn [fst promise_all]. destruct settled; reflexivity.
  - cbn [snd map concat app]. left. reflexivity.
Qed.

Lemma steady_never_settles (fuel : nat) :
  forall q ls us,
    fst (steady_deepResearch_fuel fuel (mkInvocation q 1 (2 ^ 54) ls us))
    = NoFuel.
Proof.
  induction fuel as [| fuel IH]; intros q ls us; [reflexivity |].
  destruct (steady_level fuel q ls us)
    as (next & fl & fu & Hb & Hd & Hfst & _).
  rewrite Hfst. destruct next as [q' b' d' ls' us']. simpl in Hb, Hd.
  subst b' d'. rewrite IH. reflexivity.
Qed.

(** C1 as stated fails above 2^53.  At depth 2^54 the double [depth - 1]
    is [depth] again: the recursive call has the depth of its caller, and
    with a model and a search that always answer, the call does not settle,
    whatever the fuel. *)
Lemma deepResearch_depth_rounds :
  number_sub (2 ^ 54) 1 = 2 ^ 54
  /\ (forall fuel,
        fst (deepResearch_fuel unit_encode cut_splitText
               demo_generateText_steady demo_search
               (lit "you are a researcher") fuel demo_deep_invocation)
        = NoFuel)
  /\ fst (deepResearch unit_encode cut_splitText demo_generateText_steady
            demo_search (lit "you are a researcher") demo_deep_invocation)
     = NoFuel
  /\ exists c,
       In c (snd (deepResearch unit_encode cut_splitText
                    demo_generateText_steady demo_search
                    (lit "you are a researcher") demo_deep_invocation))
       /\ caller c = demo_deep_invocation
       /\ inv_depth (callee c) = inv_depth (caller c).
Proof.
  split; [exact number_sub_rounds |].
  split; [intros fuel; apply steady_never_settles |].
  split; [apply steady_never_settles |].
  unfold deepResearch.
  generalize (Z.to_nat (inv_depth demo_deep_invocation)). intros fuel.
  destruct (steady_level fuel (lit "renewable energy trends") [] [])
    as (next & fl & fu & _ & Hd & _ & Hin).
  eexists. split; [exact Hin |]. split; [reflexivity |]. exact Hd.
Qed.

(** C7. When [deepResearch] fulfils, no string occurs twice in the
    returned learnings or visitedUrls.  Every branch, one for each
    sub-query of the planner, was fulfilled, and a string that any of them
    reports (two siblings may report the same one) occurs in the returned
    list exactly once; the returned lists hold nothing else. *)
Theorem deepResearch_merge_no_duplicates
    (encode : text -> list N) (splitText : Z -> text -> list text)
    (generateText : text -> text -> option Z -> option (option text))
    (search : text -> option SearchResponse) (systemPrompt : text)
    (this : Invocation) (r : ResearchResult)
    (Hr : fst (deepResearch encode splitText generateText search systemPrompt
                 this) = Fulfilled r) :
  NoDup (learnings r) /\ NoDup (visitedUrls r)
  /\ exists qs,
       generateSerpQueries generateText systemPrompt (inv_query this)
         (inv_breadth this) (Some (inv_learnings this)) = Fulfilled qs
       /\ (forall q, In q qs ->
             exists b,
               fst (research_branch encode splitText generateText search
                      systemPrompt
                      (deepResearch_fuel encode splitText generateText search
                         systemPrompt (Z.to_nat (inv_depth this)))
                      this q) = Fulfilled b
               /\ (forall x, In x (learnings b) ->
                     count_occ (list_eq_dec N.eq_dec) (learnings r) x = 1%nat)
               /\ (forall x, In x (visitedUrls b) ->
                     count_occ (list_eq_dec N.eq_dec) (visitedUrls r) x
                     = 1%nat))
       /\ (forall x, In x (learnings r) ->
             exists q b,
               In q qs
               /\ fst (research_branch encode splitText generateText search
                         systemPrompt
                         (deepResearch_fuel encode splitText generateText
                            search systemPrompt (Z.to_nat (inv_depth this)))
                         this q) = Fulfilled b
               /\ In x (learnings b))
       /\ (forall x, In x (visitedUrls r) ->
             exists q b,
               In q qs
               /\ fst (research_branch encode splitText generateText search
                         systemPrompt
                         (deepResearch_fuel encode splitText generateText
                            search systemPrompt (Z.to_nat (inv_depth this)))
                         this q) = Fulfilled b
               /\ In x (visitedUrls b)).
Proof.
  unfold deepResearch in Hr.
  destruct (run_Fulfilled_NoDup _ _ _ _ _ _ _ _ Hr) as [Hnl Hnu].
  apply run_Fulfilled_union in Hr.
  destruct Hr as (qs & Hplan & Hall & Hl & Hu).
  split; [exact Hnl |]. split; [exact Hnu |].
  exists qs. split; [exact Hplan |]. split; [| split].
  - intros q Hq. destruct (Hall q Hq) as [b Hb]. exists b.
    split; [exact Hb |]. split; intros x Hx.
    + apply NoDup_once; [exact Hnl |]. apply Hl. exists q, b. auto.
    + apply NoDup_once; [exact Hnu |]. apply Hu. exists q, b. auto.
  - intros x Hx. apply Hl. exact Hx.
  - intros x Hx. apply Hu. exact Hx.
Qed.

Lemma deepResearch_merge_no_duplicates_witness :
  exists r,
    fst (demo_deepResearch (demo_invocation 3 1)) = Fulfilled r
    /\ length (learnings r) = 5%nat
    /\ NoDup (learnings r) /\ NoDup (visitedUrls r)
    /\ count_occ (list_eq_dec N.eq_dec) (learnings r) (lit "L1") = 1%nat.
Proof.
  eexists. split; [vm_compute; reflexivity |].
  split; [reflexivity |].
  pose proof (deepResearch_merge_no_duplicates unit_encode cut_splitText
                demo_generateText demo_search (lit "you are a researcher")
                (demo_invocation 3 1) _ ltac:(vm_compute; reflexivity))
    as (H1 & H2 & qs & Hplan & Hall & _).
  split; [exact H1 |]. split; [exact H2 |].
  vm_compute in Hplan. inversion Hplan as [Hqs]. clear Hplan.
  destruct (Hall _ ltac:(rewrite <- Hqs; left; reflexivity))
    as (b & Hb & Hlb & _).
  apply Hlb. vm_compute in Hb. inversion Hb. simpl. right. left.
  reflexivity.
Defined.

(* ================================================================== *)
(** ** The accumulator *)

Lemma merge_empty_or_includes (this : Invocation) (results : list ResearchResult) :
  (forall b, In b results -> empty_or_includes this b) ->
  empty_or_includes this (merge_results results).
Proof.
  intros Hall.
  assert (H : (flat_map learnings results = []
               /\ flat_map visitedUrls results = [])
              \/ (incl (inv_learnings this) (flat_map learnings results)
                  /\ incl (inv_visitedUrls this) (flat_map visitedUrls results))).
  { induction results as [| b bs IH]; [left; split; reflexivity |].
    simpl. destruct (Hall b (or_introl eq_refl)) as [[Hl Hu] | [Hl Hu]].
    - rewrite Hl, Hu. simpl. apply IH. intros b' Hb'. apply Hall. right. exact Hb'.
    - right. split; apply incl_appl; assumption. }
  destruct H as [[Hl Hu] | [Hl Hu]].
  - left. unfold merge_results. simpl. rewrite Hl, Hu. split; reflexivity.
  - right. split; simpl; intros x Hx; apply new_Set_In; auto.
Qed.

Section AccumulatorFacts.

Variable encode : text -> list N.
Variable splitText : Z -> text -> list text.
Variable generateText : text -> text -> option Z -> option (option text).
Variable search : text -> option SearchResponse.
Variable systemPrompt : text.

Let branch := research_branch encode splitText generateText search systemPrompt.
Let run := deepResearch_fuel encode splitText generateText search systemPrompt.

Lemma branch_empty_or_includes recurse this q r :
  (forall next r', fst (recurse next) = Fulfilled r' ->
                   empty_or_includes next r') ->
  fst (branch recurse this q) = Fulfilled r ->
  empty_or_includes this r.
Proof.
  intros Hrec. unfold branch, research_branch.
  destruct (query q) as [| qc qt];
    [intros H; inversion H; left; split; reflexivity |].
  destruct (search _) as [result |];
    [| intros H; inversion H; left; split; reflexivity].
  destruct (processSerpResult _ _ _ _ _ _ _ _) as [found | e |];
    [| intros H; inversion H; left; split; reflexivity | discriminate].
  destruct (Z.ltb_spec 0 (number_sub (inv_depth this) 1)) as [Hpos | Hle].
  - match goal with
    | |- context [recurse ?n] =>
        specialize (Hrec n); destruct (recurse n) as [settled calls]
    end.
    simpl. intros ->. destruct (Hrec r eq_refl) as [He | [Hl Hu]];
      [left; exact He |].
    right. simpl in Hl, Hu. split.
    + eapply incl_tran; [apply incl_appl, incl_refl | exact Hl].
    + eapply incl_tran; [apply incl_appl, incl_refl | exact Hu].
  - simpl. intros H. inversion H. right.
    split; simpl; apply incl_appl, incl_refl.
Qed.

Lemma run_empty_or_includes (fuel : nat) :
  forall this r, fst (run fuel this) = Fulfilled r -> empty_or_includes this r.
Proof.
  induction fuel as [| fuel IH]; intros this r Hr; [discriminate |].
  apply run_Fulfilled in Hr. destruct Hr as (qs & results & _ & Hmap & ->).
  apply merge_empty_or_includes. intros b Hb.
  destruct (map_eq_In _ _ _ _ _ Hmap Hb) as [q [_ Hq]].
  eapply branch_empty_or_includes; [| exact Hq].
  intros next r'. apply IH.
Qed.

End AccumulatorFacts.

Lemma empty_result_eq (b : ResearchResult) :
  learnings b = [] -> visitedUrls b = [] -> b = empty_result.
Proof. destruct b; simpl; intros -> ->; reflexivity. Qed.

Lemma no_member_nil {A} (l : list A) : (forall x, ~ In x l) -> l = [].
Proof.
  destruct l as [| a l]; [reflexivity |].
  intros H. exfalso. apply (H a). left. reflexivity.
Qed.

(** C6, as the code has it.  Each recursive call receives the caller's
    accumulator followed by what its branch found.  A fulfilled call had
    every branch, one for each sub-query of the planner, fulfilled; each
    branch gave the empty result or a result that includes the input
    accumulator, and a branch whose query is empty or whose search fails
    gave the empty result; the returned learnings and visitedUrls hold
    the strings of the branch results and nothing else.  So the returned
    lists are both empty exactly when every branch gave the empty result,
    and as soon as one branch gave another result they include the input
    accumulator's contents. *)
Theorem deepResearch_accumulator_threaded
    (encode : text -> list N) (splitText : Z -> text -> list text)
    (generateText : text -> text -> option Z -> option (option text))
    (search : text -> option SearchResponse) (systemPrompt : text)
    (this : Invocation) (r : ResearchResult)
    (Hr : fst (deepResearch encode splitText generateText search systemPrompt
                 this) = Fulfilled r) :
  Forall accumulator_step
    (snd (deepResearch encode splitText generateText search systemPrompt this))
  /\ exists qs,
       generateSerpQueries generateText systemPrompt (inv_query this)
         (inv_breadth this) (Some (inv_learnings this)) = Fulfilled qs
       /\ (forall q, In q qs ->
             exists b,
               fst (research_branch encode splitText generateText search
                      systemPrompt
                      (deepResearch_fuel encode splitText generateText search
                         systemPrompt (Z.to_nat (inv_depth this)))
                      this q) = Fulfilled b
               /\ (b = empty_result \/ includes_accumulator this b)
               /\ (query q = [] \/ search (query q) = None ->
                   b = empty_result))
       /\ (forall x, In x (learnings r) <->
             exists q b,
               In q qs
               /\ fst (research_branch encode splitText generateText search
                         systemPrompt
                         (deepResearch_fuel encode splitText generateText
                            search systemPrompt (Z.to_nat (inv_depth this)))
                         this q) = Fulfilled b
               /\ In x (learnings b))
       /\ (forall x, In x (visitedUrls r) <->
             exists q b,
               In q qs
               /\ fst (research_branch encode splitText generateText search
                         systemPrompt
                         (deepResearch_fuel encode splitText generateText
                            search systemPrompt (Z.to_nat (inv_depth this)))
                         this q) = Fulfilled b
               /\ In x (visitedUrls b))
       /\ ((learnings r = [] /\ visitedUrls r = []) <->
           (forall q, In q qs ->
              fst (research_branch encode splitText generateText search
                     systemPrompt
                     (deepResearch_fuel encode splitText generateText search
                        systemPrompt (Z.to_nat (inv_depth this)))
                     this q) = Fulfilled empty_result))
       /\ ((exists q,
              In q qs
              /\ fst (research_branch encode splitText generateText search
                        systemPrompt
                        (deepResearch_fuel encode splitText generateText
                           search systemPrompt (Z.to_nat (inv_depth this)))
                        this q) <> Fulfilled empty_result) ->
           includes_accumulator this r).
Proof.
  split; [apply run_accumulator_steps |].
  unfold deepResearch in Hr. apply run_Fulfilled_union in Hr.
  destruct Hr as (qs & Hplan & Hall & Hl & Hu).
  assert (Hbranch : forall q b,
             fst (research_branch encode splitText generateText search
                    systemPrompt
                    (deepResearch_fuel encode splitText generateText search
                       systemPrompt (Z.to_nat (inv_depth this)))
                    this q) = Fulfilled b ->
             b = empty_result \/ includes_accumulator this b).
  { intros q b Hb.
    destruct (branch_empty_or_includes encode splitText generateText search
                systemPrompt _ this q b
                (run_empty_or_includes encode splitText generateText search
                   systemPrompt _) Hb) as [[Hel Heu] | Hinc].
    - left. apply empty_result_eq; assumption.
    - right. exact Hinc. }
  exists qs. split; [exact Hplan |].
  split; [| split; [exact Hl | split; [exact Hu | split]]].
  - intros q Hq. destruct (Hall q Hq) as [b Hb]. exists b.
    split; [exact Hb |]. split; [exact (Hbranch q b Hb) |].
    intros Hfail. revert Hb. unfold research_branch.
    destruct (query q) as [| qc qt];
      [intros H; inversion H; reflexivity |].
    destruct Hfail as [Hq0 | Hs]; [discriminate Hq0 |].
    rewrite Hs. intros H; inversion H; reflexivity.
  - split.
    + intros [Hel Heu] q Hq. destruct (Hall q Hq) as [b Hb]. rewrite Hb.
      f_equal. apply empty_result_eq; apply no_member_nil; intros x Hx.
      * assert (Hin : In x (learnings r)) by (apply Hl; exists q, b; auto).
        rewrite Hel in Hin. exact Hin.
      * assert (Hin : In x (visitedUrls r)) by (apply Hu; exists q, b; auto).
        rewrite Heu in Hin. exact Hin.
    + intros Hempty. split; apply no_member_nil; intros x Hx.
      * apply Hl in Hx. destruct Hx as (q & b & Hq & Hb & Hx).
        rewrite (Hempty q Hq) in Hb. inversion Hb; subst b. exact Hx.
      * apply Hu in Hx. destruct Hx as (q & b & Hq & Hb & Hx).
        rewrite (Hempty q Hq) in Hb. inversion Hb; subst b. exact Hx.
  - intros (q & Hq & Hne). destruct (Hall q Hq) as [b Hb].
    destruct (Hbranch q b Hb) as [-> | [Hil Hiu]]; [congruence |].
    split; intros x Hx.
    + apply Hl. exists q, b. auto.
    + apply Hu. exists q, b. auto.
Qed.

Lemma deepResearch_accumulator_threaded_witness :
  exists r,
    fst (demo_deepResearch (demo_invocation 3 1)) = Fulfilled r
    /\ Forall accumulator_step (snd (demo_deepResearch (demo_invocation 3 1)))
    /\ includes_accumulator (demo_invocation 3 1) r.
Proof.
  eexists. split; [vm_compute; reflexivity |].
  pose proof (deepResearch_accumulator_threaded unit_encode cut_splitText
                demo_generateText demo_search (lit "you are a researcher")
                (demo_invocation 3 1) _ ltac:(vm_compute; reflexivity))
    as (H1 & qs & Hplan & _ & _ & _ & _ & Hinc).
  split; [exact H1 |]. apply Hinc.
  vm_compute in Hplan. inversion Hplan as [Hqs]. clear Hplan Hinc.
  eexists. split; [left; reflexivity |].
  vm_compute. discriminate.
Defined.

(** C6 as stated fails: with the search service down every branch gives
    the empty result, and the call returns nothing of its input
    accumulator. *)
Lemma deepResearch_accumulator_dropped :
  fst (deepResearch unit_encode cut_splitText demo_generateText
         demo_search_down (lit "you are a researcher") (demo_invocation 3 1))
  = Fulfilled empty_result
  /\ ~ includes_accumulator (demo_invocation 3 1) empty_result.
Proof.
  split; [vm_compute; reflexivity |].
  intros [Hl _]. apply (Hl (lit "L0")). left. reflexivity.
Qed.

(* ================================================================== *)
(** ** Failures inside a branch *)

(** What is awaited inside [try] is caught: a branch rejects only as the
    recursive call it returns rejects. *)
Lemma research_branch_rejects
    (encode : text -> list N) (splitText : Z -> text -> list text)
    (generateText : text -> text -> option Z -> option (option text))
    (search : text -> option SearchResponse) (systemPrompt : text)
    (recurse : Invocation -> outcome ResearchResult * list RecursiveCall)
    (this : Invocation) (q : SerpQuery) (e : error) :
  fst (research_branch encode splitText generateText search systemPrompt
         recurse this q) = Rejected e ->
  exists next, inv_depth next = number_sub (inv_depth this) 1
               /\ 0 < inv_depth next
               /\ fst (recurse next) = Rejected e.
Proof.
  unfold research_branch.
  destruct (query q) as [| qc qt]; [discriminate |].
  destruct (search _) as [result |]; [| discriminate].
  destruct (processSerpResult _ _ _ _ _ _ _ _) as [found | e' |];
    try discriminate.
  destruct (Z.ltb_spec 0 (number_sub (inv_depth this) 1)) as [Hpos | Hle];
    [| discriminate].
  match goal with
  | |- context [recurse ?n] =>
      intros H; exists n; destruct (recurse n) as [settled calls] eqn:E
  end.
  simpl in H. subst settled. simpl. auto.
Qed.

(** C4 at a failing input.  Breadth 3, depth 2: the planner of the first
    level answers, every search but one succeeds, the distiller answers,
    and the planner of the second level answers with text that is not
    JSON.  That failure is raised inside a branch, in the recursive call
    the branch returns without awaiting it; it is not caught there, and
    the whole call rejects with it.  The same session at depth 1, where no
    branch recurses, fulfils: the branch whose search fails gives the
    empty result and its siblings contribute. *)
Theorem deepResearch_branch_failure_escapes :
  fst (demo_deepResearch (demo_invocation 3 2))
  = Rejected (MalformedModelOutput (lit "sorry, no json today"))
  /\ fst (demo_deepResearch (demo_invocation 3 1))
     = Fulfilled
         (mkResearchResult
            [lit "L0"; lit "L1"; lit "L2"; lit "L3"; lit "L4"]
            [lit "https://example.org/seed"; lit "https://example.org/solar";
             lit "https://example.org/energy"; lit "https://example.org/hydro"]).
Proof.
  split; vm_compute; reflexivity.
Qed.

(* ================================================================== *)
(** ** ResultDistiller *)

(** C10. What [processSerpResult] returns is what the schema validated of
    the parsed model response: the lists of the keys [learnings] and
    [followUpQuestions], whole.  [numLearnings] and
    [numFollowUpQuestions] have no part in it: with any other counts the
    result is the same, and the lists can be longer than the counts (five
    learnings for three asked, two questions for one). *)
Theorem processSerpResult_returns_all
    (encode : text -> list N) (splitText : Z -> text -> list text)
    (generateText : text -> text -> option Z -> option (option text))
    (systemPrompt : text) (q : text) (result : SearchResponse)
    (numLearnings numFollowUpQuestions : Z) (res : SerpLearnings)
    (Hres : processSerpResult encode splitText generateText systemPrompt
              q result numLearnings numFollowUpQuestions = Fulfilled res) :
  (forall n m, processSerpResult encode splitText generateText systemPrompt
                 q result n m = Fulfilled res)
  /\ (exists contents response members,
        generateText systemPrompt (serpResult_prompt q contents) (Some 60000)
        = Some response
        /\ JSON_parse
             (sanitize
                (extract_json_string
                   match response with Some t => t | None => [] end))
           = Some (JObj members)
        /\ z_array z_string (get_property (lit "learnings") members)
           = Some (sl_learnings res)
        /\ z_array z_string (get_property (lit "followUpQuestions") members)
           = Some (sl_followUpQuestions res))
  /\ (exists res',
        processSerpResult unit_encode cut_splitText demo_generateText []
          (lit "solar") (mkSearchResponse []) 3 1 = Fulfilled res'
        /\ 3 < js_length (sl_learnings res')
        /\ 1 < js_length (sl_followUpQuestions res')).
Proof.
  split; [| split].
  - intros n m. exact Hres.
  - unfold processSerpResult in Hres.
    destruct (all_some _) as [contents |]; [| discriminate].
    unfold safeGenerate in Hres.
    destruct (generateText _ _ _) as [response |] eqn:Hgen; [| discriminate].
    unfold safeGenerate_on in Hres.
    destruct (JSON_parse _) as [parsed |] eqn:Hparse; [| discriminate].
    destruct (schema_learnings parsed) as [v |] eqn:Hschema; [| discriminate].
    inversion Hres; subst v. unfold schema_learnings in Hschema.
    destruct parsed as [| | | | | members]; try discriminate.
    destruct (z_array z_string (get_property (lit "learnings") members))
      as [l |] eqn:Hl; [| discriminate].
    destruct (z_array z_string (get_property (lit "followUpQuestions") members))
      as [f |] eqn:Hf; [| discriminate].
    inversion Hschema; subst res. simpl.
    exists contents, response, members. auto.
  - eexists. split; [vm_compute; reflexivity |]. split; reflexivity.
Qed.

Lemma processSerpResult_returns_all_witness :
  exists res,
    processSerpResult unit_encode cut_splitText demo_generateText []
      (lit "solar") (mkSearchResponse []) 3 1 = Fulfilled res
    /\ forall n m,
         processSerpResult unit_encode cut_splitText demo_generateText []
           (lit "solar") (mkSearchResponse []) n m = Fulfilled res.
Proof.
  eexists. split; [vm_compute; reflexivity |].
  exact (proj1 (processSerpResult_returns_all unit_encode cut_splitText
                  demo_generateText [] (lit "solar") (mkSearchResponse [])
                  3 1 _ ltac:(vm_compute; reflexivity))).
Defined.

(* ================================================================== *)
(** ** String literals *)

Local Open Scope N_scope.

Lemma hex_value_digit (n : N) : n < 16 -> hex_value (hex_digit n) = Some n.
Proof.
  intros Hn. unfold hex_digit, hex_value, is_digit.
  destruct (N.ltb_spec n 10) as [Hlt | Hge].
  - replace ((48 <=? 48 + n) && (48 + n <=? 57)) with true.
    + f_equal. lia.
    + symmetry. apply andb_true_iff. split; apply N.leb_le; lia.
  - replace ((48 <=? 87 + n) && (87 + n <=? 57)) with false.
    + replace ((65 <=? 87 + n) && (87 + n <=? 70)) with false.
      * replace ((97 <=? 87 + n) && (87 + n <=? 102)) with true.
        -- f_equal. lia.
        -- symmetry. apply andb_true_iff. split; apply N.leb_le; lia.
      * symmetry. apply andb_false_iff. right. apply N.leb_gt. lia.
    + symmetry. apply andb_false_iff. right. apply N.leb_gt. lia.
Qed.

Lemma hex4_unicode_escape (c : char) :
  c < 65536 ->
  hex4 (hex_digit (c / 4096)) (hex_digit ((c / 256) mod 16))
       (hex_digit ((c / 16) mod 16)) (hex_digit (c mod 16)) = Some c.
Proof.
  intros Hc. unfold hex4.
  rewrite !hex_value_digit.
  - f_equal. Zify.zify. Z.to_euclidean_division_equations. lia.
  - apply N.mod_lt. discriminate.
  - apply N.mod_lt. discriminate.
  - apply N.mod_lt. discriminate.
  - apply N.Div0.div_lt_upper_bound. lia.
Qed.

Lemma escaped_lt (c : char) :
  (c <? 32) || is_high_surrogate c || is_low_surrogate c = true -> c < 65536.
Proof.
  unfold is_high_surrogate, is_low_surrogate. intros H.
  repeat (apply orb_true_iff in H; destruct H as [H | H]).
  - apply N.ltb_lt in H. lia.
  - apply andb_true_iff in H. destruct H as [_ H]. apply N.leb_le in H. lia.
  - apply andb_true_iff in H. destruct H as [_ H]. apply N.leb_le in H. lia.
Qed.

(** One quoted code unit in front of a string body. *)
Lemma quote_unit_parse (c : char) (tail s r : text) :
  parse_string_body tail = Some (s, r) ->
  parse_string_body (quote_unit c ++ tail) = Some (c :: s, r).
Proof.
  intros Ht. unfold quote_unit.
  destruct (N.eqb_spec c 8) as [-> | N8]; [cbn; rewrite Ht; reflexivity |].
  destruct (N.eqb_spec c 9) as [-> | N9]; [cbn; rewrite Ht; reflexivity |].
  destruct (N.eqb_spec c 10) as [-> | N10]; [cbn; rewrite Ht; reflexivity |].
  destruct (N.eqb_spec c 12) as [-> | N12]; [cbn; rewrite Ht; reflexivity |].
  destruct (N.eqb_spec c 13) as [-> | N13]; [cbn; rewrite Ht; reflexivity |].
  destruct (N.eqb_spec c dquote) as [-> | Nq]; [cbn; rewrite Ht; reflexivity |].
  destruct (N.eqb_spec c backslash) as [-> | Nb]; [cbn; rewrite Ht; reflexivity |].
  destruct ((c <? 32) || is_high_surrogate c || is_low_surrogate c) eqn:E.
  - unfold unicode_escape. cbn [app parse_string_body].
    change (backslash =? dquote) with false.
    change (backslash =? backslash) with true.
    change (117 =? 117) with true. cbv iota.
    rewrite (hex4_unicode_escape c (escaped_lt c E)), Ht. reflexivity.
  - cbn [app parse_string_body].
    destruct (N.eqb_spec c dquote); [contradiction |].
    destruct (N.eqb_spec c backslash); [contradiction |].
    apply orb_false_iff in E. destruct E as [E _].
    apply orb_false_iff in E. destruct E as [E _].
    rewrite E, Ht. reflexivity.
Qed.

Lemma quote_unit_body_ok (c : char) (tail : text) :
  body_ok tail = true -> body_ok (quote_unit c ++ tail) = true.
Proof.
  intros Ht. unfold quote_unit.
  destruct (N.eqb_spec c 8) as [-> | N8]; [cbn; exact Ht |].
  destruct (N.eqb_spec c 9) as [-> | N9]; [cbn; exact Ht |].
  destruct (N.eqb_spec c 10) as [-> | N10]; [cbn; exact Ht |].
  destruct (N.eqb_spec c 12) as [-> | N12]; [cbn; exact Ht |].
  destruct (N.eqb_spec c 13) as [-> | N13]; [cbn; exact Ht |].
  destruct (N.eqb_spec c dquote) as [-> | Nq]; [cbn; exact Ht |].
  destruct (N.eqb_spec c backslash) as [-> | Nb]; [cbn; exact Ht |].
  destruct ((c <? 32) || is_high_surrogate c || is_low_surrogate c) eqn:E.
  - unfold unicode_escape. cbn [app body_ok].
    change (backslash =? dquote) with false.
    change (backslash =? backslash) with true.
    change (117 =? 117) with true. cbv iota.
    rewrite (hex4_unicode_escape c (escaped_lt c E)), Ht. reflexivity.
  - cbn [app body_ok].
    destruct (N.eqb_spec c dquote); [contradiction |].
    destruct (N.eqb_spec c backslash); [contradiction |].
    apply orb_false_iff in E. destruct E as [E _].
    apply orb_false_iff in E. destruct E as [E _].
    apply N.ltb_ge in E. apply N.leb_le in E. rewrite E, Ht. reflexivity.
Qed.

Lemma high_surrogate_plain (c : char) :
  is_high_surrogate c = true ->
  (c =? dquote) = false /\ (c =? backslash) = false /\ (c <? 32) = false
  /\ (32 <=? c) = true.
Proof.
  unfold is_high_surrogate, dquote, backslash. intros H.
  apply andb_true_iff in H. destruct H as [H _]. apply N.leb_le in H.
  repeat split; try (apply N.eqb_neq; lia); try (apply N.ltb_ge; lia).
  apply N.leb_le. lia.
Qed.

Lemma low_surrogate_plain (c : char) :
  is_low_surrogate c = true ->
  (c =? dquote) = false /\ (c =? backslash) = false /\ (c <? 32) = false
  /\ (32 <=? c) = true.
Proof.
  unfold is_low_surrogate, dquote, backslash. intros H.
  apply andb_true_iff in H. destruct H as [H _]. apply N.leb_le in H.
  repeat split; try (apply N.eqb_neq; lia); try (apply N.ltb_ge; lia).
  apply N.leb_le. lia.
Qed.

Lemma quote_chars_spec (n : nat) :
  forall s, (length s <= n)%nat ->
            body_ok (quote_chars s) = true
            /\ forall rest, parse_string_body (quote_chars s ++ dquote :: rest)
                            = Some (s, rest).
Proof.
  induction n as [| n IH]; intros s Hlen.
  - destruct s; [| simpl in Hlen; lia]. split; reflexivity.
  - destruct s as [| c s']; [split; reflexivity |].
    cbn [quote_chars].
    destruct (IH s' ltac:(simpl in Hlen; lia)) as [Hok' Hparse'].
    assert (Hunit : body_ok (quote_unit c ++ quote_chars s') = true
                    /\ forall rest,
                         parse_string_body
                           ((quote_unit c ++ quote_chars s') ++ dquote :: rest)
                         = Some (c :: s', rest)).
    { split; [apply quote_unit_body_ok, Hok' |].
      intros rest. rewrite <- app_assoc. apply quote_unit_parse, Hparse'. }
    destruct (is_high_surrogate c) eqn:Eh; [| exact Hunit].
    destruct s' as [| d s'']; [| destruct (is_low_surrogate d) eqn:El];
      [ | | exact Hunit].
    + cbn [quote_chars] in Hunit. rewrite app_nil_r in Hunit. exact Hunit.
    + destruct (IH s'' ltac:(simpl in Hlen; lia)) as [Hok'' Hparse''].
      destruct (high_surrogate_plain c Eh) as (C1 & C2 & C3 & C4).
      destruct (low_surrogate_plain d El) as (D1 & D2 & D3 & D4).
      split.
      * cbn [body_ok]. rewrite C1, C2, C4, D1, D2, D4. exact Hok''.
      * intros rest. cbn [app parse_string_body].
        rewrite C1, C2, C3, D1, D2, D3, Hparse''. reflexivity.
Qed.

Lemma body_parse_exists (n : nat) :
  forall b, (length b <= n)%nat -> body_ok b = true ->
            exists s, forall rest,
              parse_string_body (b ++ dquote :: rest) = Some (s, rest).
Proof.
  induction n as [| n IH]; intros b Hlen Hok.
  - destruct b; [| simpl in Hlen; lia]. exists []. reflexivity.
  - destruct b as [| c b']; [exists []; reflexivity |].
    cbn [body_ok] in Hok. cbn [app parse_string_body].
    destruct (c =? dquote); [discriminate |].
    destruct (c =? backslash).
    + destruct b' as [| e b'']; [discriminate |]. cbn [app].
      destruct (e =? 117).
      * destruct b'' as [| h1 [| h2 [| h3 [| h4 b3]]]]; try discriminate.
        cbn [app]. apply andb_true_iff in Hok. destruct Hok as [Hhex Hok].
        destruct (hex4 h1 h2 h3 h4) as [u |]; [| discriminate].
        destruct (IH b3 ltac:(simpl in Hlen; lia) Hok) as [s Hs].
        exists (u :: s). intros rest. rewrite Hs. reflexivity.
      * apply andb_true_iff in Hok. destruct Hok as [Hesc Hok].
        destruct (unescape e) as [u |]; [| discriminate].
        destruct (IH b'' ltac:(simpl in Hlen; lia) Hok) as [s Hs].
        exists (u :: s). intros rest. rewrite Hs. reflexivity.
    + apply andb_true_iff in Hok. destruct Hok as [Hc Hok].
      destruct (IH b' ltac:(simpl in Hlen; lia) Hok) as [s Hs].
      exists (c :: s). intros rest. rewrite Hs.
      apply N.leb_le in Hc. destruct (N.ltb_spec c 32); [lia | reflexivity].
Qed.

Lemma body_parse (b : text) (rest : text) :
  body_ok b = true ->
  parse_string_body (b ++ dquote :: rest) = Some (decode b, rest).
Proof.
  intros Hok. destruct (body_parse_exists (length b) b (Nat.le_refl _) Hok) as [s Hs].
  unfold decode. rewrite (Hs []). apply Hs.
Qed.

Lemma ws_closer_barrier (a : text) (x : char) (r : text) :
  is_space x = false -> is_closer x = false ->
  ws_closer (a ++ x :: r) = ws_closer a.
Proof.
  intros Hs Hc. induction a as [| c a IH]; simpl.
  - rewrite Hs, Hc. reflexivity.
  - rewrite IH. reflexivity.
Qed.

Lemma rtc_barrier (a : text) (x : char) (r : text) :
  is_space x = false -> is_closer x = false ->
  remove_trailing_commas (a ++ x :: r)
  = remove_trailing_commas a ++ remove_trailing_commas (x :: r).
Proof.
  intros Hs Hc. induction a as [| c a IH]; [reflexivity |].
  cbn [app remove_trailing_commas]. rewrite ws_closer_barrier by assumption.
  destruct ((c =? comma) && ws_closer a); rewrite IH; reflexivity.
Qed.

Lemma hex_value_comma a b c d :
  is_some (hex4 a b c d) = true ->
  (a =? comma) = false /\ (b =? comma) = false /\ (c =? comma) = false /\ (d =? comma) = false.
Proof.
  unfold hex4.
  assert (H : forall x, (x =? comma) = true -> hex_value x = None).
  { intros x Hx. apply N.eqb_eq in Hx. subst. reflexivity. }
  destruct (a =? comma) eqn:Ea; [rewrite (H a Ea); discriminate |].
  destruct (b =? comma) eqn:Eb; [rewrite (H b Eb); destruct (hex_value a); discriminate |].
  destruct (c =? comma) eqn:Ec; [rewrite (H c Ec); destruct (hex_value a), (hex_value b); discriminate |].
  destruct (d =? comma) eqn:Ed; [rewrite (H d Ed); destruct (hex_value a), (hex_value b), (hex_value c); discriminate |].
  auto.
Qed.

Lemma body_ok_rtc (n : nat) :
  forall b, (length b <= n)%nat -> body_ok b = true ->
            body_ok (remove_trailing_commas b) = true.
Proof.
  induction n as [| n IH]; intros b Hlen Hok.
  - destruct b; [reflexivity | simpl in Hlen; lia].
  - destruct b as [| c b']; [reflexivity |].
    cbn [body_ok] in Hok. cbn [remove_trailing_commas].
    destruct (c =? dquote) eqn:Eq; [discriminate |].
    destruct (c =? backslash) eqn:Eb.
    + apply N.eqb_eq in Eb. subst c. cbn [N.eqb andb Pos.eqb comma backslash].
      change ((backslash =? comma) && ws_closer b') with false. cbv iota.
      destruct b' as [| e b'']; [discriminate |].
      cbn [remove_trailing_commas].
      destruct (e =? 117) eqn:Eu.
      * apply N.eqb_eq in Eu. subst e.
        change ((117 =? comma) && ws_closer b'') with false. cbv iota.
        destruct b'' as [| h1 [| h2 [| h3 [| h4 b3]]]]; try discriminate.
        apply andb_true_iff in Hok. destruct Hok as [Hhex Hok].
        destruct (hex_value_comma _ _ _ _ Hhex) as (E1 & E2 & E3 & E4).
        cbn [remove_trailing_commas]. rewrite E1, E2, E3, E4. cbn [andb].
        cbn [body_ok]. change (backslash =? dquote) with false.
        change (backslash =? backslash) with true. change (117 =? 117) with true.
        cbv iota. rewrite Hhex. apply IH; [simpl in Hlen; lia | exact Hok].
      * apply andb_true_iff in Hok. destruct Hok as [Hesc Hok].
        assert (Ec : (e =? comma) = false).
        { destruct (e =? comma) eqn:Ec; [| reflexivity].
          apply N.eqb_eq in Ec. subst e. discriminate. }
        rewrite Ec. cbn [andb body_ok].
        change (backslash =? dquote) with false.
        change (backslash =? backslash) with true. cbv iota.
        rewrite Eu, Hesc. apply IH; [simpl in Hlen; lia | exact Hok].
    + apply andb_true_iff in Hok. destruct Hok as [Hc Hok].
      pose proof (IH b' ltac:(simpl in Hlen; lia) Hok) as Hb'.
      destruct ((c =? comma) && ws_closer b'); [exact Hb' |].
      cbn [body_ok]. rewrite Eq, Eb, Hc. exact Hb'.
Qed.

Local Close Scope N_scope.

(* ================================================================== *)
(** ** Number literals *)

Local Open Scope N_scope.

Lemma delimited_not_digit (h : char) (r : text) :
  delimited (h :: r) = true -> is_digit h = false.
Proof.
  unfold delimited, is_num_char. intros H. apply negb_true_iff in H.
  repeat (apply orb_false_iff in H; destruct H as [H _]). exact H.
Qed.

Lemma delimited_head (h : char) (r : text) (k : N) :
  delimited (h :: r) = true -> is_num_char k = true -> (h =? k) = false.
Proof.
  unfold delimited. intros H Hk. apply negb_true_iff in H.
  destruct (N.eqb_spec h k) as [-> |]; [congruence | reflexivity].
Qed.

Lemma span_ext (rest : text) (t : text) :
  delimited rest = true ->
  forall a b, span is_digit t = (a, b) ->
              span is_digit (t ++ rest) = (a, b ++ rest).
Proof.
  intros Hd. induction t as [| c t IH]; intros a b H.
  - inversion H; subst. cbn [app]. destruct rest as [| h r]; [reflexivity |].
    cbn [span]. rewrite (delimited_not_digit h r Hd). reflexivity.
  - cbn [app span] in *. destruct (is_digit c).
    + destruct (span is_digit t) as [a' b'] eqn:E. inversion H; subst.
      rewrite (IH a' b eq_refl). reflexivity.
    + inversion H; subst. reflexivity.
Qed.

Lemma digits1_ext (rest t d r : text) :
  delimited rest = true ->
  digits1 t = Some (d, r) -> digits1 (t ++ rest) = Some (d, r ++ rest).
Proof.
  unfold digits1. intros Hd H.
  destruct (span is_digit t) as [a b] eqn:E.
  rewrite (span_ext rest t Hd a b E).
  destruct a; [discriminate |]. inversion H; subst. reflexivity.
Qed.

Lemma opt_sign_ext (rest t s r : text) :
  delimited rest = true ->
  opt_sign t = (s, r) -> opt_sign (t ++ rest) = (s, r ++ rest).
Proof.
  unfold opt_sign. intros Hd H. destruct t as [| c t].
  - inversion H; subst. cbn [app]. destruct rest as [| h rest']; [reflexivity |].
    rewrite (delimited_head h rest' 45 Hd eq_refl). reflexivity.
  - cbn [app]. destruct (c =? 45); inversion H; subst; reflexivity.
Qed.

Lemma int_part_ext (rest t i r : text) :
  delimited rest = true ->
  int_part t = Some (i, r) -> int_part (t ++ rest) = Some (i, r ++ rest).
Proof.
  unfold int_part. intros Hd H. destruct t as [| c t]; [discriminate |].
  cbn [app]. destruct (c =? 48); [inversion H; subst; reflexivity |].
  destruct (is_digit c); [| discriminate].
  destruct (span is_digit t) as [a b] eqn:E.
  rewrite (span_ext rest t Hd a b E). inversion H; subst. reflexivity.
Qed.

Lemma frac_part_ext (rest t f r : text) :
  delimited rest = true ->
  frac_part t = Some (f, r) -> frac_part (t ++ rest) = Some (f, r ++ rest).
Proof.
  unfold frac_part. intros Hd H. destruct t as [| c t].
  - inversion H; subst. cbn [app]. destruct rest as [| h rest']; [reflexivity |].
    rewrite (delimited_head h rest' 46 Hd eq_refl). reflexivity.
  - cbn [app]. destruct (c =? 46); [| inversion H; subst; reflexivity].
    destruct (digits1 t) as [[d r'] |] eqn:E; [| discriminate].
    rewrite (digits1_ext rest t d r' Hd E). inversion H; subst. reflexivity.
Qed.

Lemma exp_part_ext (rest t e r : text) :
  delimited rest = true ->
  exp_part t = Some (e, r) -> exp_part (t ++ rest) = Some (e, r ++ rest).
Proof.
  unfold exp_part. intros Hd H. destruct t as [| c t].
  - inversion H; subst. cbn [app]. destruct rest as [| h rest']; [reflexivity |].
    rewrite (delimited_head h rest' 101 Hd eq_refl).
    rewrite (delimited_head h rest' 69 Hd eq_refl). reflexivity.
  - cbn [app]. destruct ((c =? 101) || (c =? 69)); [| inversion H; subst; reflexivity].
    destruct t as [| x t'].
    + discriminate.
    + cbn [app]. destruct ((x =? 43) || (x =? 45)).
      * destruct (digits1 t') as [[d r2] |] eqn:E; [| discriminate].
        rewrite (digits1_ext rest t' d r2 Hd E). inversion H; subst. reflexivity.
      * destruct (digits1 (x :: t')) as [[d r2] |] eqn:E; [| discriminate].
        pose proof (digits1_ext rest (x :: t') d r2 Hd E) as E'.
        cbn [app] in E'. rewrite E'. inversion H; subst. reflexivity.
Qed.

Lemma parse_number_ext (rest t n r : text) :
  delimited rest = true ->
  parse_number t = Some (n, r) ->
  parse_number (t ++ rest) = Some (n, r ++ rest).
Proof.
  unfold parse_number. intros Hd H.
  destruct (opt_sign t) as [s t1] eqn:Es.
  rewrite (opt_sign_ext rest t s t1 Hd Es).
  destruct (int_part t1) as [[i t2] |] eqn:Ei; [| discriminate].
  rewrite (int_part_ext rest t1 i t2 Hd Ei).
  destruct (frac_part t2) as [[f t3] |] eqn:Ef; [| discriminate].
  rewrite (frac_part_ext rest t2 f t3 Hd Ef).
  destruct (exp_part t3) as [[e t4] |] eqn:Ee; [| discriminate].
  rewrite (exp_part_ext rest t3 e t4 Hd Ee).
  inversion H; subst. reflexivity.
Qed.

Lemma digit_num_char (c : char) : is_digit c = true -> is_num_char c = true.
Proof. unfold is_num_char. intros ->. reflexivity. Qed.

Lemma span_shape (t : text) :
  forall a b, span is_digit t = (a, b) ->
              t = a ++ b /\ forallb is_num_char a = true.
Proof.
  induction t as [| c t IH]; intros a b H.
  - inversion H. auto.
  - cbn [span] in H. destruct (is_digit c) eqn:Ec.
    + destruct (span is_digit t) as [a' b'] eqn:E. inversion H; subst.
      destruct (IH a' b eq_refl) as [-> Ha]. split; [reflexivity |].
      cbn [forallb]. rewrite (digit_num_char c Ec), Ha. reflexivity.
    + inversion H; subst. auto.
Qed.

Lemma digits1_shape (t d r : text) :
  digits1 t = Some (d, r) -> t = d ++ r /\ forallb is_num_char d = true.
Proof.
  unfold digits1. destruct (span is_digit t) as [a b] eqn:E. intros H.
  destruct (span_shape t a b E) as [-> Ha].
  destruct a; [discriminate |]. inversion H; subst. auto.
Qed.

Lemma opt_sign_shape (t s r : text) :
  opt_sign t = (s, r) ->
  t = s ++ r /\ forallb is_num_char s = true /\ (s = [] \/ s = [45]).
Proof.
  unfold opt_sign. destruct t as [| c t]; intros H.
  - inversion H. auto.
  - destruct (N.eqb_spec c 45) as [-> |]; inversion H; subst; auto.
Qed.

Lemma int_part_shape (t i r : text) :
  int_part t = Some (i, r) ->
  t = i ++ r /\ forallb is_num_char i = true
  /\ exists h tl, i = h :: tl /\ is_digit h = true.
Proof.
  unfold int_part. destruct t as [| c t]; [discriminate |]. intros H.
  destruct (N.eqb_spec c 48) as [-> |].
  - inversion H; subst. repeat split. exists 48, []. auto.
  - destruct (is_digit c) eqn:Ec; [| discriminate].
    destruct (span is_digit t) as [a b] eqn:E. inversion H; subst.
    destruct (span_shape t a r E) as [-> Ha]. repeat split.
    + cbn [forallb]. rewrite (digit_num_char c Ec), Ha. reflexivity.
    + exists c, a. auto.
Qed.

Lemma frac_part_shape (t f r : text) :
  frac_part t = Some (f, r) -> t = f ++ r /\ forallb is_num_char f = true.
Proof.
  unfold frac_part. destruct t as [| c t]; intros H; [inversion H; auto |].
  destruct (N.eqb_spec c 46) as [-> |]; [| inversion H; auto].
  destruct (digits1 t) as [[d r'] |] eqn:E; [| discriminate].
  destruct (digits1_shape t d r' E) as [-> Hd]. inversion H; subst.
  split; [reflexivity |]. cbn [forallb]. rewrite Hd. reflexivity.
Qed.

Lemma exp_part_shape (t e r : text) :
  exp_part t = Some (e, r) -> t = e ++ r /\ forallb is_num_char e = true.
Proof.
  unfold exp_part. destruct t as [| c t]; intros H; [inversion H; auto |].
  destruct ((c =? 101) || (c =? 69)) eqn:Ec; [| inversion H; auto].
  assert (Hc : is_num_char c = true).
  { unfold is_num_char. apply orb_true_iff in Ec.
    destruct Ec as [-> | ->]; rewrite ?orb_true_r; reflexivity. }
  destruct t as [| x t']; [discriminate |].
  destruct ((x =? 43) || (x =? 45)) eqn:Ex.
  - destruct (digits1 t') as [[d r2] |] eqn:E; [| discriminate].
    destruct (digits1_shape t' d r2 E) as [-> Hd]. inversion H; subst.
    split; [reflexivity |]. cbn [app forallb]. rewrite Hc, Hd.
    assert (Hx : is_num_char x = true).
    { unfold is_num_char. apply orb_true_iff in Ex.
      destruct Ex as [-> | ->]; rewrite ?orb_true_r; reflexivity. }
    rewrite Hx. reflexivity.
  - destruct (digits1 (x :: t')) as [[d r2] |] eqn:E; [| discriminate].
    destruct (digits1_shape (x :: t') d r2 E) as [Heq Hd]. inversion H; subst.
    rewrite Heq. split; [reflexivity |]. cbn [app forallb]. rewrite Hc, Hd.
    reflexivity.
Qed.

Lemma parse_number_shape (t n r : text) :
  parse_number t = Some (n, r) ->
  t = n ++ r /\ forallb is_num_char n = true
  /\ exists h tl, n = h :: tl /\ opener h = true.
Proof.
  unfold parse_number. intros H.
  destruct (opt_sign t) as [s t1] eqn:Es.
  destruct (int_part t1) as [[i t2] |] eqn:Ei; [| discriminate].
  destruct (frac_part t2) as [[f t3] |] eqn:Ef; [| discriminate].
  destruct (exp_part t3) as [[e t4] |] eqn:Ee; [| discriminate].
  inversion H; subst.
  destruct (opt_sign_shape _ _ _ Es) as (-> & Hs & Hsign).
  destruct (int_part_shape _ _ _ Ei) as (-> & Hi & h & tl & -> & Hh).
  destruct (frac_part_shape _ _ _ Ef) as (-> & Hf).
  destruct (exp_part_shape _ _ _ Ee) as (-> & He).
  split; [rewrite <- !app_assoc; reflexivity |]. split.
  - rewrite !forallb_app, Hs, Hi, Hf, He. reflexivity.
  - destruct Hsign as [-> | ->].
    + exists h, (tl ++ f ++ e). split; [reflexivity |].
      unfold opener. rewrite Hh. rewrite !orb_true_r. reflexivity.
    + exists 45, ((h :: tl) ++ f ++ e). split; reflexivity.
Qed.

(** A number literal: it parses whole, whatever delimiter follows; its
    characters are those of numbers; it starts with an opener. *)
Lemma number_ok_spec (n : text) :
  number_ok n = true ->
  (forall rest, delimited rest = true ->
                parse_number (n ++ rest) = Some (n, rest))
  /\ forallb is_num_char n = true
  /\ exists h tl, n = h :: tl /\ opener h = true.
Proof.
  unfold number_ok. destruct (parse_number n) as [[m r] |] eqn:E;
    [| discriminate].
  destruct r; [| discriminate]. intros _.
  destruct (parse_number_shape n m [] E) as (Heq & Hm & Hh).
  rewrite app_nil_r in Heq. subst m. split; [| auto].
  intros rest Hd. apply (parse_number_ext rest n n [] Hd E).
Qed.

Local Close Scope N_scope.

(* ================================================================== *)
(** ** Parsing the text of a tree *)

Local Open Scope N_scope.

(** *** White space and openers *)

Ltac decide_tests :=
  repeat match goal with
         | |- context [?a =? ?b] => destruct (N.eqb_spec a b); [lia |]
         | |- context [?a <=? ?b] => destruct (N.leb_spec a b); try lia
         end.

Lemma opener_cases (h : char) :
  opener h = true ->
  h = 34 \/ h = 91 \/ h = 123 \/ h = 110 \/ h = 116 \/ h = 102 \/ h = 45
  \/ (48 <= h /\ h <= 57).
Proof.
  unfold opener, is_digit. intros H.
  repeat (apply orb_true_iff in H; destruct H as [H | H]);
    try (apply N.eqb_eq in H; tauto).
  apply andb_true_iff in H. destruct H as [H1 H2].
  apply N.leb_le in H1. apply N.leb_le in H2. tauto.
Qed.

Lemma opener_facts (h : char) :
  opener h = true ->
  is_json_ws h = false /\ is_space h = false /\ is_closer h = false
  /\ (h =? comma) = false /\ (h =? backtick) = false /\ (h =? 32) = false.
Proof.
  intros H. apply opener_cases in H.
  destruct H as [-> | [-> | [-> | [-> | [-> | [-> | [-> | [H1 H2]]]]]]]];
    try (repeat split; reflexivity).
  unfold is_json_ws, is_space, is_closer, comma, backtick.
  repeat split; decide_tests; reflexivity.
Qed.

Lemma is_pad_app (a b : text) : is_pad (a ++ b) = is_pad a && is_pad b.
Proof. apply forallb_app. Qed.

Lemma skip_ws_pad (w t : text) : is_pad w = true -> skip_ws (w ++ t) = skip_ws t.
Proof.
  induction w as [| c w IH]; [reflexivity |]. cbn [is_pad forallb].
  intros H. apply andb_true_iff in H. destruct H as [Hc Hw].
  apply N.eqb_eq in Hc. subst c. cbn [app]. exact (IH Hw).
Qed.

Lemma skip_ws_opener (h : char) (t : text) :
  opener h = true -> skip_ws (h :: t) = h :: t.
Proof.
  intros H. destruct (opener_facts h H) as (Hws & _).
  unfold skip_ws. cbn [drop_while]. rewrite Hws. reflexivity.
Qed.

Lemma delimited_pad (w : text) (h : char) (r : text) :
  is_pad w = true -> is_num_char h = false -> delimited (w ++ h :: r) = true.
Proof.
  destruct w as [| c w]; cbn [app delimited]; intros Hw Hh.
  - rewrite Hh. reflexivity.
  - cbn [is_pad forallb] in Hw. apply andb_true_iff in Hw.
    destruct Hw as [Hc _]. apply N.eqb_eq in Hc. subst c. reflexivity.
Qed.

(** *** One step of the descent *)

Lemma parse_value_skip (f : nat) (t t' : text) :
  skip_ws t = skip_ws t' -> parse_value f t = parse_value f t'.
Proof.
  intros H. destruct f as [| f]; [reflexivity |].
  cbn [parse_value]. rewrite H. reflexivity.
Qed.

Lemma parse_members_skip (f : nat) (t t' : text) :
  skip_ws t = skip_ws t' -> parse_members f t = parse_members f t'.
Proof.
  intros H. destruct f as [| f]; [reflexivity |].
  cbn [parse_members]. rewrite H. reflexivity.
Qed.

Lemma parse_value_string (f : nat) (b : text) :
  parse_value (S f) (dquote :: b)
  = match parse_string_body b with
    | Some (s, r) => Some (JStr s, r)
    | None => None
    end.
Proof. reflexivity. Qed.

Lemma parse_value_array (f : nat) (r : text) :
  parse_value (S f) (91 :: r)
  = match skip_ws r with
    | d :: r' =>
        if d =? 93 then Some (JArr [], r')
        else
          match parse_elements f r with
          | Some (vs, r'') => Some (JArr vs, r'')
          | None => None
          end
    | [] => None
    end.
Proof. reflexivity. Qed.

Lemma parse_value_object (f : nat) (r : text) :
  parse_value (S f) (123 :: r)
  = match skip_ws r with
    | d :: r' =>
        if d =? 125 then Some (JObj [], r')
        else
          match parse_members f r with
          | Some (ms, r'') => Some (JObj ms, r'')
          | None => None
          end
    | [] => None
    end.
Proof. reflexivity. Qed.

Lemma parse_value_number (f : nat) (h : char) (tl : text) :
  h = 45 \/ (48 <= h /\ h <= 57) ->
  parse_value (S f) (h :: tl)
  = match parse_number (h :: tl) with
    | Some (n, r) => Some (JNum n, r)
    | None => None
    end.
Proof.
  intros [-> | [H1 H2]]; [reflexivity |].
  cbn [parse_value skip_ws drop_while].
  assert (Hws : is_json_ws h = false) by (unfold is_json_ws; decide_tests; reflexivity).
  rewrite Hws.
  assert (E1 : (h =? dquote) = false) by (unfold dquote; decide_tests; reflexivity).
  assert (E2 : (h =? 91) = false) by (decide_tests; reflexivity).
  assert (E3 : (h =? 123) = false) by (decide_tests; reflexivity).
  rewrite E1, E2, E3.
  assert (E4 : (h =? 116) = false) by (decide_tests; reflexivity).
  assert (E5 : (h =? 102) = false) by (decide_tests; reflexivity).
  assert (E6 : (h =? 110) = false) by (decide_tests; reflexivity).
  cbn. rewrite E4, E5, E6. reflexivity.
Qed.

Lemma parse_elements_step (f : nat) (t : text) :
  parse_elements (S f) t
  = match parse_value f t with
    | Some (v, r) =>
        match skip_ws r with
        | d :: r' =>
            if d =? comma then
              match parse_elements f r' with
              | Some (vs, r'') => Some (v :: vs, r'')
              | None => None
              end
            else if d =? 93 then Some ([v], r')
            else None
        | [] => None
        end
    | None => None
    end.
Proof. reflexivity. Qed.

Lemma parse_members_step (f : nat) (b : text) :
  parse_members (S f) (dquote :: b)
  = match parse_string_body b with
    | Some (k, r1) =>
        match skip_ws r1 with
        | col :: r2 =>
            if col =? 58 then
              match parse_value f r2 with
              | Some (v, r3) =>
                  match skip_ws r3 with
                  | d :: r4 =>
                      if d =? comma then
                        match parse_members f r4 with
                        | Some (ms, r5) => Some ((k, v) :: ms, r5)
                        | None => None
                        end
                      else if d =? 125 then Some ([(k, v)], r4)
                      else None
                  | [] => None
                  end
              | None => None
              end
            else None
        | [] => None
        end
    | None => None
    end.
Proof. reflexivity. Qed.

(** *** The printer, equation by equation *)

Lemma print_elements_last (p : cst -> text) (x : cst) :
  print_elements p [x] = p x.
Proof. reflexivity. Qed.

Lemma print_elements_cons (p : cst -> text) (x y : cst) l :
  print_elements p (x :: y :: l) = p x ++ comma :: print_elements p (y :: l).
Proof. reflexivity. Qed.

Lemma print_members_last (p : cst -> text) k (x : cst) :
  print_members p [(k, x)] = print_key k ++ 58 :: p x.
Proof. reflexivity. Qed.

Lemma print_members_cons (p : cst -> text) k (x : cst) m l :
  print_members p ((k, x) :: m :: l)
  = print_key k ++ 58 :: p x ++ comma :: print_members p (m :: l).
Proof. reflexivity. Qed.

Lemma print_array (l : list cst) (tr : text) :
  print (CArr l tr) = 91 :: print_elements print l ++ tr ++ [93].
Proof. reflexivity. Qed.

Lemma print_object (ms : list (ckey * cst)) (tr : text) :
  print (CObj ms tr) = 123 :: print_members print ms ++ tr ++ [125].
Proof. reflexivity. Qed.

Lemma print_pad (w1 : text) (t : cst) (w2 : text) :
  print (CPad w1 t w2) = w1 ++ print t ++ w2.
Proof. reflexivity. Qed.

(** *** Shape of the text of a tree *)

Lemma print_opens (t : cst) : opens t.
Proof.
  induction t as [| b | n | b | l tr Hl | ms tr Hms | w1 t w2 IH]
    using cst_nested_ind; intros commas Hv.
  - exists [], 110, (lit "ull"). auto.
  - destruct b; [exists [], 116, (lit "rue") | exists [], 102, (lit "alse")]; auto.
  - destruct (number_ok_spec n Hv) as (_ & _ & h & tl & -> & Ho).
    exists [], h, tl. auto.
  - exists [], dquote, (b ++ [dquote]). auto.
  - exists [], 91, (print_elements print l ++ tr ++ [93]). auto.
  - exists [], 123, (print_members print ms ++ tr ++ [125]). auto.
  - cbn [wf] in Hv. apply andb_true_iff in Hv. destruct Hv as [Hv H2].
    apply andb_true_iff in Hv. destruct Hv as [H1 Hv].
    destruct (IH commas Hv) as (w & h & tl & Hp & Hw & Ho).
    exists (w1 ++ w), h, (tl ++ w2). rewrite print_pad, Hp, is_pad_app, H1, Hw.
    rewrite <- !app_assoc. auto.
Qed.

Lemma print_elements_opens (commas : bool) (x : cst) (l : list cst) :
  wf commas x = true ->
  exists w h tl, print_elements print (x :: l) = w ++ h :: tl
                 /\ is_pad w = true /\ opener h = true.
Proof.
  intros Hv. destruct (print_opens x commas Hv) as (w & h & tl & Hp & Hw & Ho).
  destruct l as [| y l].
  - exists w, h, tl. rewrite print_elements_last. auto.
  - exists w, h, (tl ++ comma :: print_elements print (y :: l)).
    rewrite print_elements_cons, Hp, <- app_assoc. auto.
Qed.

Lemma print_members_opens (k : ckey) (x : cst) (l : list (ckey * cst)) :
  exists tl, print_members print ((k, x) :: l)
             = key_before k ++ dquote :: tl.
Proof.
  destruct l as [| m l].
  - exists (key_body k ++ dquote :: key_after k ++ 58 :: print x).
    rewrite print_members_last. unfold print_key.
    repeat (rewrite <- app_assoc || rewrite <- app_comm_cons). reflexivity.
  - exists (key_body k ++ dquote :: key_after k
            ++ 58 :: print x ++ comma :: print_members print (m :: l)).
    rewrite print_members_cons. unfold print_key.
    repeat (rewrite <- app_assoc || rewrite <- app_comm_cons). reflexivity.
Qed.

Lemma tail_ws_pad (commas : bool) (t : cst) :
  wf commas t = true -> is_pad (tail_ws t) = true.
Proof.
  induction t as [| b | n | b | l tr Hl | ms tr Hms | w1 t w2 IH]
    using cst_nested_ind; intros Hv; try reflexivity.
  cbn [wf] in Hv. apply andb_true_iff in Hv. destruct Hv as [Hv H2].
  apply andb_true_iff in Hv. destruct Hv as [H1 Hv].
  cbn [tail_ws]. rewrite is_pad_app, (IH Hv), H2. reflexivity.
Qed.

(** *** The text of a tree parses to its value *)

Ltac norm_app :=
  repeat (rewrite <- app_assoc || rewrite <- app_comm_cons || rewrite app_nil_l).

Lemma parse_print_elements (l : list cst) :
  Forall parses l ->
  forall x, parses x -> forallb (wf false) (x :: l) = true ->
  forall tr fuel rest,
    is_pad tr = true ->
    (list_sum (map (fun x => S (cost x)) (x :: l)) <= fuel)%nat ->
    parse_elements fuel (print_elements print (x :: l) ++ tr ++ 93 :: rest)
    = Some (map value_of (x :: l), rest).
Proof.
  induction 1 as [| y l Hy Hl IH]; intros x Hx Hv tr fuel rest Htr Hfuel;
    cbn [forallb] in Hv; apply andb_true_iff in Hv; destruct Hv as [Hvx Hvl];
    simpl in Hfuel; (destruct fuel as [| f]; [lia |]);
    rewrite parse_elements_step;
    pose proof (tail_ws_pad false x Hvx) as Htail.
  - rewrite print_elements_last.
    rewrite (Hx Hvx f (tr ++ 93 :: rest)); [| lia |].
    + rewrite app_assoc, skip_ws_pad by (rewrite is_pad_app, Htail, Htr; reflexivity).
      reflexivity.
    + rewrite app_assoc. apply delimited_pad; [| reflexivity].
      rewrite is_pad_app, Htail, Htr. reflexivity.
  - rewrite print_elements_cons. norm_app.
    rewrite (Hx Hvx f); [| lia | apply delimited_pad; [exact Htail | reflexivity]].
    rewrite skip_ws_pad by exact Htail.
    change (skip_ws (comma :: ?t)) with (comma :: t).
    change (comma =? comma) with true. cbv iota.
    rewrite (IH y Hy Hvl tr f rest Htr) by (simpl; lia).
    reflexivity.
Qed.

Lemma parse_print_members (ms : list (ckey * cst)) :
  Forall (fun kv => parses (snd kv)) ms ->
  forall k x, parses x ->
  forallb (fun kv => let '(k, v) := kv in key_ok k && wf false v) ((k, x) :: ms)
  = true ->
  forall tr fuel rest,
    is_pad tr = true ->
    (list_sum (map (fun kv => let '(_, x) := kv in S (cost x)) ((k, x) :: ms))
     <= fuel)%nat ->
    parse_members fuel (print_members print ((k, x) :: ms) ++ tr ++ 125 :: rest)
    = Some (map (fun kv => let '(k, x) := kv in
                           (decode (key_body k), value_of x))
                ((k, x) :: ms), rest).
Proof.
  induction 1 as [| [k' y] ms Hy Hl IH]; intros k x Hx Hv tr fuel rest Htr Hfuel;
    cbn [forallb] in Hv; apply andb_true_iff in Hv; destruct Hv as [Hvx Hvl];
    apply andb_true_iff in Hvx; destruct Hvx as [Hk Hvx];
    unfold key_ok in Hk; apply andb_true_iff in Hk; destruct Hk as [Hk Hka];
    apply andb_true_iff in Hk; destruct Hk as [Hkb Hk];
    simpl in Hfuel; (destruct fuel as [| f]; [lia |]);
    pose proof (tail_ws_pad false x Hvx) as Htail.
  - rewrite print_members_last. unfold print_key. norm_app.
    rewrite (parse_members_skip (S f) _ (dquote :: key_body k ++ dquote :: key_after k ++ 58 :: print x ++ tr ++ 125 :: rest))
      by (apply skip_ws_pad; exact Hkb).
    rewrite parse_members_step, body_parse by exact Hk.
    rewrite skip_ws_pad by exact Hka.
    change (skip_ws (58 :: ?t)) with (58 :: t).
    change (58 =? 58) with true. cbv iota.
    rewrite (Hx Hvx f (tr ++ 125 :: rest)); [| lia |].
    + rewrite app_assoc, skip_ws_pad by (rewrite is_pad_app, Htail, Htr; reflexivity).
      reflexivity.
    + rewrite app_assoc. apply delimited_pad; [| reflexivity].
      rewrite is_pad_app, Htail, Htr. reflexivity.
  - rewrite print_members_cons. unfold print_key at 1. norm_app.
    rewrite (parse_members_skip (S f) _ (dquote :: key_body k ++ dquote :: key_after k ++ 58 :: print x ++ comma :: print_members print ((k', y) :: ms) ++ tr ++ 125 :: rest))
      by (apply skip_ws_pad; exact Hkb).
    rewrite parse_members_step, body_parse by exact Hk.
    rewrite skip_ws_pad by exact Hka.
    change (skip_ws (58 :: ?t)) with (58 :: t).
    change (58 =? 58) with true. cbv iota.
    rewrite (Hx Hvx f); [| lia | apply delimited_pad; [exact Htail | reflexivity]].
    rewrite skip_ws_pad by exact Htail.
    change (skip_ws (comma :: ?t)) with (comma :: t).
    change (comma =? comma) with true. cbv iota.
    simpl in Hy.
    rewrite (IH k' y Hy Hvl tr f rest Htr) by (simpl; lia).
    reflexivity.
Qed.

Lemma trailing_ok_false (tr : text) : trailing_ok false tr = is_pad tr.
Proof. unfold trailing_ok. cbn [andb]. apply orb_false_r. Qed.

Theorem parse_print (t : cst) : parses t.
Proof.
  induction t as [| b | n | b | l tr Hl | ms tr Hms | w1 t w2 IH]
    using cst_nested_ind; intros Hv fuel rest Hfuel Hd.
  - destruct fuel as [| f]; [simpl in Hfuel; lia |]. reflexivity.
  - destruct fuel as [| f]; [simpl in Hfuel; lia |]. destruct b; reflexivity.
  - destruct fuel as [| f]; [simpl in Hfuel; lia |].
    cbn [wf] in Hv. destruct (number_ok_spec n Hv) as (Hparse & _ & h & tl & Hn & Ho).
    cbn [print value_of tail_ws app] in *.
    assert (Hh : h = 45 \/ (48 <= h /\ h <= 57)).
    { pose proof (Hparse [] eq_refl) as Hp. rewrite app_nil_r in Hp.
      destruct (opener_cases h Ho) as [-> | [-> | [-> | [-> | [-> | [-> | H]]]]]];
        subst n; try discriminate; exact H. }
    pose proof (parse_value_number f h (tl ++ rest) Hh) as Hstep.
    rewrite app_comm_cons, <- Hn in Hstep.
    refine (eq_trans Hstep _). rewrite (Hparse rest Hd). reflexivity.
  - destruct fuel as [| f]; [simpl in Hfuel; lia |].
    cbn [print value_of tail_ws]. norm_app.
    rewrite parse_value_string, body_parse by exact Hv. reflexivity.
  - destruct fuel as [| f]; [simpl in Hfuel; lia |].
    cbn [wf] in Hv. apply andb_true_iff in Hv. destruct Hv as [Hv Htr].
    rewrite trailing_ok_false in Htr. cbn [cost] in Hfuel.
    rewrite print_array. cbn [tail_ws value_of]. norm_app.
    rewrite parse_value_array.
    destruct l as [| x l].
    + cbn [print_elements app]. rewrite skip_ws_pad by exact Htr. reflexivity.
    + inversion Hl as [| x' l' Hx Hl']; subst.
      assert (Hvx : wf false x = true)
        by (cbn [forallb] in Hv; apply andb_true_iff in Hv; tauto).
      destruct (print_elements_opens false x l Hvx) as (w & h & tl & Hp & Hw & Ho).
      destruct (opener_facts h Ho) as (_ & _ & Hc & _).
      assert (Hskip : skip_ws (print_elements print (x :: l) ++ tr ++ 93 :: rest)
                      = h :: tl ++ tr ++ 93 :: rest)
        by (rewrite Hp; norm_app; rewrite skip_ws_pad by exact Hw;
            apply skip_ws_opener, Ho).
      rewrite Hskip.
      unfold is_closer in Hc. apply orb_false_iff in Hc. destruct Hc as [_ Hc].
      rewrite Hc.
      rewrite (parse_print_elements l Hl' x Hx Hv tr f rest Htr) by lia.
      reflexivity.
  - destruct fuel as [| f]; [simpl in Hfuel; lia |].
    cbn [wf] in Hv. apply andb_true_iff in Hv. destruct Hv as [Hv Htr].
    rewrite trailing_ok_false in Htr. cbn [cost] in Hfuel.
    rewrite print_object. cbn [tail_ws value_of]. norm_app.
    rewrite parse_value_object.
    destruct ms as [| [k x] ms].
    + cbn [print_members app]. rewrite skip_ws_pad by exact Htr. reflexivity.
    + inversion Hms as [| kv ms' Hx Hms']; subst. simpl in Hx.
      assert (Hkb : is_pad (key_before k) = true).
      { cbn [forallb] in Hv. apply andb_true_iff in Hv. destruct Hv as [Hv _].
        apply andb_true_iff in Hv. destruct Hv as [Hk _]. unfold key_ok in Hk.
        apply andb_true_iff in Hk. destruct Hk as [Hk _].
        apply andb_true_iff in Hk. tauto. }
      destruct (print_members_opens k x ms) as (tl & Hp).
      assert (Hskip : skip_ws (print_members print ((k, x) :: ms)
                               ++ tr ++ 125 :: rest)
                      = dquote :: tl ++ tr ++ 125 :: rest)
        by (rewrite Hp; norm_app; rewrite skip_ws_pad by exact Hkb;
            reflexivity).
      rewrite Hskip. change (dquote =? 125) with false. cbv iota.
      rewrite (parse_print_members ms Hms' k x Hx Hv tr f rest Htr) by lia.
      reflexivity.
  - cbn [wf] in Hv. apply andb_true_iff in Hv. destruct Hv as [Hv H2].
    apply andb_true_iff in Hv. destruct Hv as [H1 Hv].
    cbn [cost tail_ws value_of] in *. rewrite print_pad. norm_app.
    rewrite (parse_value_skip fuel _ (print t ++ w2 ++ rest))
      by (apply skip_ws_pad; exact H1).
    rewrite <- app_assoc in Hd.
    rewrite (IH Hv fuel (w2 ++ rest) Hfuel Hd). rewrite app_assoc. reflexivity.
Qed.

Local Close Scope N_scope.

(* ================================================================== *)
(** ** Sanitization of the text of a tree *)

Local Open Scope N_scope.

Lemma cost_print_elements (l : list cst) :
  Forall cost_bounded l ->
  forall x, cost_bounded x -> forallb (wf false) (x :: l) = true ->
  (list_sum (map (fun x => S (cost x)) (x :: l))
   <= S (length (print_elements print (x :: l))))%nat.
Proof.
  induction 1 as [| y l Hy Hl IH]; intros x Hx Hv;
    cbn [forallb] in Hv; apply andb_true_iff in Hv; destruct Hv as [Hvx Hvl];
    specialize (Hx Hvx).
  - rewrite print_elements_last. simpl. lia.
  - rewrite print_elements_cons, length_app.
    specialize (IH y Hy Hvl). simpl in IH |- *. lia.
Qed.

Lemma cost_print_members (ms : list (ckey * cst)) :
  Forall (fun kv => cost_bounded (snd kv)) ms ->
  forall k x, cost_bounded x ->
  forallb (fun kv => let '(k, v) := kv in key_ok k && wf false v) ((k, x) :: ms)
  = true ->
  (list_sum (map (fun kv => let '(_, x) := kv in S (cost x)) ((k, x) :: ms))
   <= S (length (print_members print ((k, x) :: ms))))%nat.
Proof.
  induction 1 as [| [k' y] ms Hy Hl IH]; intros k x Hx Hv;
    cbn [forallb] in Hv; apply andb_true_iff in Hv; destruct Hv as [Hvx Hvl];
    apply andb_true_iff in Hvx; destruct Hvx as [Hk Hvx];
    specialize (Hx Hvx).
  - rewrite print_members_last, length_app. simpl. lia.
  - rewrite print_members_cons, length_app. simpl in Hy.
    specialize (IH k' y Hy Hvl). simpl. rewrite length_app. simpl in IH |- *.
    lia.
Qed.

Lemma cost_print (t : cst) : cost_bounded t.
Proof.
  induction t as [| b | n | b | l tr Hl | ms tr Hms | w1 t w2 IH]
    using cst_nested_ind; intros Hv.
  - simpl. lia.
  - destruct b; simpl; lia.
  - cbn [wf] in Hv. destruct (number_ok_spec n Hv) as (_ & _ & h & tl & -> & _).
    simpl. lia.
  - simpl. lia.
  - cbn [wf] in Hv. apply andb_true_iff in Hv. destruct Hv as [Hv _].
    rewrite print_array. cbn [cost length]. rewrite !length_app.
    cbn [length].
    destruct l as [| x l]; [simpl; lia |].
    inversion Hl as [| x' l' Hx Hl']; subst.
    pose proof (cost_print_elements l Hl' x Hx Hv). lia.
  - cbn [wf] in Hv. apply andb_true_iff in Hv. destruct Hv as [Hv _].
    rewrite print_object. cbn [cost length]. rewrite !length_app.
    cbn [length].
    destruct ms as [| [k x] ms]; [simpl; lia |].
    inversion Hms as [| kv ms' Hx Hms']; subst. simpl in Hx.
    pose proof (cost_print_members ms Hms' k x Hx Hv). lia.
  - cbn [wf] in Hv. apply andb_true_iff in Hv. destruct Hv as [Hv _].
    apply andb_true_iff in Hv. destruct Hv as [_ Hv].
    rewrite print_pad, !length_app. cbn [cost]. specialize (IH Hv). lia.
Qed.

Lemma delimited_is_pad (w : text) : is_pad w = true -> delimited w = true.
Proof.
  destruct w as [| c w]; [reflexivity |]. cbn [is_pad forallb delimited].
  intros H. apply andb_true_iff in H. destruct H as [Hc _].
  apply N.eqb_eq in Hc. subst c. reflexivity.
Qed.

Lemma skip_ws_is_pad (w : text) : is_pad w = true -> skip_ws w = [].
Proof.
  intros H. rewrite <- (app_nil_r w). rewrite skip_ws_pad by exact H.
  reflexivity.
Qed.

(** [JSON.parse] on the text of a tree. *)
Theorem JSON_parse_print (t : cst) :
  wf false t = true -> JSON_parse (print t) = Some (value_of t).
Proof.
  intros Hv. unfold JSON_parse.
  pose proof (tail_ws_pad false t Hv) as Htail.
  pose proof (parse_print t Hv (2 * S (length (print t)))%nat []) as H.
  rewrite !app_nil_r in H. rewrite H.
  - rewrite (skip_ws_is_pad _ Htail). reflexivity.
  - pose proof (cost_print t Hv). lia.
  - apply delimited_is_pad, Htail.
Qed.

(** *** [remove_trailing_commas] over the text of a tree *)

Lemma rtc_keep (c : char) (t : text) :
  (c =? comma) = false ->
  remove_trailing_commas (c :: t) = c :: remove_trailing_commas t.
Proof. intros H. cbn [remove_trailing_commas]. rewrite H. reflexivity. Qed.

Lemma rtc_no_comma (a t : text) :
  forallb (fun c => negb (c =? comma)) a = true ->
  remove_trailing_commas (a ++ t) = a ++ remove_trailing_commas t.
Proof.
  induction a as [| c a IH]; [reflexivity |]. cbn [forallb app].
  intros H. apply andb_true_iff in H. destruct H as [Hc Ha].
  apply negb_true_iff in Hc. rewrite rtc_keep by exact Hc.
  rewrite (IH Ha). reflexivity.
Qed.

Lemma pad_no_comma (w : text) :
  is_pad w = true -> forallb (fun c => negb (c =? comma)) w = true.
Proof.
  unfold is_pad. rewrite !forallb_forall. intros H c Hc.
  specialize (H c Hc). apply N.eqb_eq in H. subst c. reflexivity.
Qed.

Lemma num_no_comma (n : text) :
  forallb is_num_char n = true ->
  forallb (fun c => negb (c =? comma)) n = true.
Proof.
  rewrite !forallb_forall. intros H c Hc. specialize (H c Hc).
  destruct (N.eqb_spec c comma) as [-> |]; [discriminate | reflexivity].
Qed.

Lemma rtc_pad (w t : text) :
  is_pad w = true ->
  remove_trailing_commas (w ++ t) = w ++ remove_trailing_commas t.
Proof. intros H. apply rtc_no_comma, pad_no_comma, H. Qed.

Lemma ws_closer_pad (w : text) (c : char) (t : text) :
  is_pad w = true -> ws_closer (w ++ c :: t) = ws_closer (c :: t).
Proof.
  induction w as [| x w IH]; [reflexivity |]. cbn [is_pad forallb app].
  intros H. apply andb_true_iff in H. destruct H as [Hx Hw].
  apply N.eqb_eq in Hx. subst x. cbn [ws_closer]. rewrite (IH Hw).
  reflexivity.
Qed.

Lemma rtc_string (b rest : text) :
  remove_trailing_commas (dquote :: b ++ dquote :: rest)
  = dquote :: remove_trailing_commas b ++ dquote :: remove_trailing_commas rest.
Proof.
  rewrite rtc_keep by reflexivity. rewrite rtc_barrier by reflexivity.
  rewrite rtc_keep by reflexivity. reflexivity.
Qed.

(** A separating comma stays: what follows it is white space and the
    opener of a value. *)
Lemma rtc_separator (w : text) (h : char) (t : text) :
  is_pad w = true -> opener h = true ->
  remove_trailing_commas (comma :: w ++ h :: t)
  = comma :: remove_trailing_commas (w ++ h :: t).
Proof.
  intros Hw Ho. destruct (opener_facts h Ho) as (_ & Hs & Hc & _).
  cbn [remove_trailing_commas]. rewrite ws_closer_pad by exact Hw.
  cbn [ws_closer]. rewrite Hs, Hc. reflexivity.
Qed.

(** What stands before a closer loses its comma. *)
Lemma rtc_trailing (tr : text) (c : char) (rest : text) :
  trailing_ok true tr = true -> is_closer c = true ->
  remove_trailing_commas (tr ++ c :: rest)
  = drop_comma tr ++ c :: remove_trailing_commas rest.
Proof.
  intros Htr Hc.
  assert (Hkeep : (c =? comma) = false).
  { unfold is_closer in Hc. apply orb_true_iff in Hc.
    destruct Hc as [Hc | Hc]; apply N.eqb_eq in Hc; subst; reflexivity. }
  unfold trailing_ok in Htr. apply orb_true_iff in Htr.
  destruct Htr as [Hpad | Hcomma].
  - rewrite rtc_pad by exact Hpad. rewrite rtc_keep by exact Hkeep.
    destruct tr as [| x w]; [reflexivity |].
    cbn [is_pad forallb] in Hpad. apply andb_true_iff in Hpad.
    destruct Hpad as [Hx _]. apply N.eqb_eq in Hx. subst x. reflexivity.
  - cbn [andb] in Hcomma. destruct tr as [| x w]; [discriminate |].
    apply andb_true_iff in Hcomma. destruct Hcomma as [Hx Hw].
    apply N.eqb_eq in Hx. subst x. cbn [drop_comma app].
    change (comma =? comma) with true. cbv iota.
    cbn [remove_trailing_commas]. rewrite ws_closer_pad by exact Hw.
    cbn [ws_closer]. rewrite Hc. cbn [andb orb].
    change (comma =? comma) with true. cbv iota.
    rewrite rtc_pad by exact Hw. rewrite rtc_keep by exact Hkeep. reflexivity.
Qed.

Lemma rtc_print_elements (l : list cst) :
  Forall cleans l ->
  forall x, cleans x -> forallb (wf true) (x :: l) = true ->
  forall rest,
    remove_trailing_commas (print_elements print (x :: l) ++ rest)
    = print_elements print (map clean (x :: l))
      ++ remove_trailing_commas rest.
Proof.
  induction 1 as [| y l Hy Hl IH]; intros x Hx Hv rest;
    cbn [forallb] in Hv; apply andb_true_iff in Hv; destruct Hv as [Hvx Hvl].
  - rewrite print_elements_last, (Hx Hvx). reflexivity.
  - rewrite print_elements_cons, <- app_assoc, (Hx Hvx).
    assert (Hvy : wf true y = true)
      by (cbn [forallb] in Hvl; apply andb_true_iff in Hvl; tauto).
    destruct (print_elements_opens true y l Hvy) as (w & h & tl & Hp & Hw & Ho).
    rewrite <- app_comm_cons.
    assert (Hstep :
              remove_trailing_commas
                (comma :: print_elements print (y :: l) ++ rest)
              = comma :: remove_trailing_commas
                           (print_elements print (y :: l) ++ rest))
      by (rewrite Hp; norm_app; apply rtc_separator; assumption).
    rewrite Hstep, (IH y Hy Hvl).
    cbn [map]. rewrite print_elements_cons. norm_app. reflexivity.
Qed.

Lemma rtc_print_key (k : ckey) (rest : text) :
  key_ok k = true ->
  remove_trailing_commas (print_key k ++ 58 :: rest)
  = print_key (clean_key k) ++ 58 :: remove_trailing_commas rest.
Proof.
  unfold key_ok, print_key, clean_key. intros Hk. cbn [key_before key_body key_after].
  apply andb_true_iff in Hk. destruct Hk as [Hk Hka].
  apply andb_true_iff in Hk. destruct Hk as [Hkb _].
  norm_app. rewrite rtc_pad by exact Hkb. rewrite rtc_string.
  rewrite rtc_pad by exact Hka. rewrite rtc_keep by reflexivity. reflexivity.
Qed.

Lemma rtc_print_members (ms : list (ckey * cst)) :
  Forall (fun kv => cleans (snd kv)) ms ->
  forall k x, cleans x ->
  forallb (fun kv => let '(k, v) := kv in key_ok k && wf true v) ((k, x) :: ms)
  = true ->
  forall rest,
    remove_trailing_commas (print_members print ((k, x) :: ms) ++ rest)
    = print_members print
        (map (fun kv => let '(k, x) := kv in (clean_key k, clean x))
             ((k, x) :: ms))
      ++ remove_trailing_commas rest.
Proof.
  induction 1 as [| [k' y] ms Hy Hl IH]; intros k x Hx Hv rest;
    cbn [forallb] in Hv; apply andb_true_iff in Hv; destruct Hv as [Hvx Hvl];
    apply andb_true_iff in Hvx; destruct Hvx as [Hk Hvx].
  - rewrite print_members_last. norm_app.
    rewrite rtc_print_key by exact Hk. rewrite (Hx Hvx).
    cbn [map]. rewrite print_members_last. norm_app. reflexivity.
  - rewrite print_members_cons. norm_app.
    rewrite rtc_print_key by exact Hk. rewrite (Hx Hvx).
    assert (Hkb : is_pad (key_before k') = true).
    { cbn [forallb] in Hvl. apply andb_true_iff in Hvl. destruct Hvl as [Hv' _].
      apply andb_true_iff in Hv'. destruct Hv' as [Hk' _]. unfold key_ok in Hk'.
      apply andb_true_iff in Hk'. destruct Hk' as [Hk' _].
      apply andb_true_iff in Hk'. tauto. }
    destruct (print_members_opens k' y ms) as (tl & Hp).
    assert (Hstep :
              remove_trailing_commas
                (comma :: print_members print ((k', y) :: ms) ++ rest)
              = comma :: remove_trailing_commas
                           (print_members print ((k', y) :: ms) ++ rest))
      by (rewrite Hp; norm_app; apply rtc_separator; [exact Hkb | reflexivity]).
    simpl in Hy. rewrite Hstep, (IH k' y Hy Hvl).
    cbn [map]. rewrite print_members_cons. norm_app. reflexivity.
Qed.

Theorem rtc_print (t : cst) : cleans t.
Proof.
  induction t as [| b | n | b | l tr Hl | ms tr Hms | w1 t w2 IH]
    using cst_nested_ind; intros Hv rest.
  - reflexivity.
  - destruct b; reflexivity.
  - cbn [wf] in Hv. destruct (number_ok_spec n Hv) as (_ & Hn & _).
    cbn [print clean]. apply rtc_no_comma, num_no_comma, Hn.
  - cbn [print clean]. norm_app. rewrite rtc_string. norm_app. reflexivity.
  - cbn [wf] in Hv. apply andb_true_iff in Hv. destruct Hv as [Hv Htr].
    cbn [clean]. rewrite !print_array. norm_app.
    rewrite rtc_keep by reflexivity.
    destruct l as [| x l].
    + cbn [map print_elements app]. rewrite rtc_trailing by (exact Htr || reflexivity).
      reflexivity.
    + inversion Hl as [| x' l' Hx Hl']; subst.
      rewrite (rtc_print_elements l Hl' x Hx Hv).
      rewrite rtc_trailing by (exact Htr || reflexivity). reflexivity.
  - cbn [wf] in Hv. apply andb_true_iff in Hv. destruct Hv as [Hv Htr].
    cbn [clean]. rewrite !print_object. norm_app.
    rewrite rtc_keep by reflexivity.
    destruct ms as [| [k x] ms].
    + cbn [map print_members app]. rewrite rtc_trailing by (exact Htr || reflexivity).
      reflexivity.
    + inversion Hms as [| kv ms' Hx Hms']; subst. simpl in Hx.
      rewrite (rtc_print_members ms Hms' k x Hx Hv).
      rewrite rtc_trailing by (exact Htr || reflexivity). reflexivity.
  - cbn [wf] in Hv. apply andb_true_iff in Hv. destruct Hv as [Hv H2].
    apply andb_true_iff in Hv. destruct Hv as [H1 Hv].
    cbn [clean]. rewrite !print_pad. norm_app.
    rewrite rtc_pad by exact H1. rewrite (IH Hv).
    rewrite rtc_pad by exact H2. reflexivity.
Qed.

Lemma drop_comma_pad (tr : text) :
  trailing_ok true tr = true -> is_pad (drop_comma tr) = true.
Proof.
  unfold trailing_ok. intros H. apply orb_true_iff in H.
  destruct H as [Hpad | Hcomma].
  - destruct tr as [| x w]; [reflexivity |]. cbn [drop_comma].
    destruct (N.eqb_spec x comma) as [-> |]; [discriminate | exact Hpad].
  - cbn [andb] in Hcomma. destruct tr as [| x w]; [discriminate |].
    apply andb_true_iff in Hcomma. destruct Hcomma as [Hx Hw].
    cbn [drop_comma]. rewrite Hx. exact Hw.
Qed.

Lemma key_ok_clean (k : ckey) : key_ok k = true -> key_ok (clean_key k) = true.
Proof.
  unfold key_ok, clean_key. cbn [key_before key_body key_after]. intros Hk.
  apply andb_true_iff in Hk. destruct Hk as [Hk Hka].
  apply andb_true_iff in Hk. destruct Hk as [Hkb Hk].
  rewrite Hkb, Hka, (body_ok_rtc (length (key_body k)) _ (Nat.le_refl _) Hk).
  reflexivity.
Qed.

(** The cleaned tree is the tree of a JSON text. *)
Lemma wf_clean (t : cst) : wf true t = true -> wf false (clean t) = true.
Proof.
  induction t as [| b | n | b | l tr Hl | ms tr Hms | w1 t w2 IH]
    using cst_nested_ind; intros Hv; try exact Hv.
  - cbn [clean wf] in *. apply (body_ok_rtc (length b)); [lia | exact Hv].
  - cbn [clean wf] in *. apply andb_true_iff in Hv. destruct Hv as [Hv Htr].
    rewrite trailing_ok_false, (drop_comma_pad tr Htr), andb_true_r.
    rewrite forallb_forall in *.
    intros y Hy. apply in_map_iff in Hy. destruct Hy as [x [<- Hx]].
    rewrite Forall_forall in Hl. apply Hl; [exact Hx | apply Hv, Hx].
  - cbn [clean wf] in *. apply andb_true_iff in Hv. destruct Hv as [Hv Htr].
    rewrite trailing_ok_false, (drop_comma_pad tr Htr), andb_true_r.
    rewrite forallb_forall in *.
    intros y Hy. apply in_map_iff in Hy. destruct Hy as [[k x] [<- Hx]].
    rewrite Forall_forall in Hms. specialize (Hms _ Hx). specialize (Hv _ Hx).
    simpl in Hms, Hv. apply andb_true_iff in Hv. destruct Hv as [Hk Hv].
    rewrite (key_ok_clean k Hk). apply Hms, Hv.
  - cbn [clean wf] in *. apply andb_true_iff in Hv. destruct Hv as [Hv H2].
    apply andb_true_iff in Hv. destruct Hv as [H1 Hv].
    rewrite H1, H2, (IH Hv). reflexivity.
Qed.

(** A text that is, once its control characters are stripped, the text of
    a tree with or without trailing commas, parses after sanitization. *)
Theorem sanitize_print (t : cst) (c : text) :
  wf true t = true -> strip_control c = print t ->
  JSON_parse (sanitize c) = Some (value_of (clean t)).
Proof.
  intros Hv Hc. unfold sanitize. rewrite Hc.
  pose proof (rtc_print t Hv []) as H.
  rewrite app_nil_r in H. cbn [remove_trailing_commas] in H.
  rewrite app_nil_r in H. rewrite H.
  apply JSON_parse_print, wf_clean, Hv.
Qed.

(** *** The trees of [JSON.stringify] *)

Lemma cst_of_compact_root (tr : text) (v : json) : compact_root (cst_of tr v).
Proof. destruct v; exact I. Qed.

Lemma print_head_compact (commas : bool) (t : cst) :
  compact_root t -> wf commas t = true ->
  exists h tl, print t = h :: tl /\ opener h = true.
Proof.
  destruct t as [| [|] | n | b | l tr | ms tr | w1 t w2]; intros Hr Hv;
    try contradiction;
    try (eexists; eexists; split; [reflexivity | reflexivity]).
  destruct (number_ok_spec n Hv) as (_ & _ & h & tl & -> & Ho).
  exists h, tl. auto.
Qed.

Lemma num_char_plain (z : char) :
  is_num_char z = true -> is_space z = false /\ (z =? backtick) = false.
Proof.
  unfold is_num_char, is_digit. intros H.
  repeat (apply orb_true_iff in H; destruct H as [H | H]);
    try (apply N.eqb_eq in H; subst; split; reflexivity).
  apply andb_true_iff in H. destruct H as [H1 H2].
  apply N.leb_le in H1. apply N.leb_le in H2.
  unfold is_space, backtick. split; decide_tests; reflexivity.
Qed.

(** The text of a value ends with a quote, a closer, a letter or a digit. *)
Lemma print_end (commas : bool) (t : cst) :
  compact_root t -> wf commas t = true ->
  exists init z, print t = init ++ [z] /\ is_space z = false
                 /\ (z =? backtick) = false.
Proof.
  destruct t as [| [|] | n | b | l tr | ms tr | w1 t w2]; intros Hr Hv;
    try contradiction.
  - exists (lit "nul"), 108. auto.
  - exists (lit "tru"), 101. auto.
  - exists (lit "fals"), 101. auto.
  - cbn [wf] in Hv. destruct (number_ok_spec n Hv) as (_ & Hn & h & tl & Heq & _).
    cbn [print]. destruct (exists_last (l := n)) as (init & z & ->);
      [subst; discriminate |].
    exists init, z. rewrite forallb_app in Hn. apply andb_true_iff in Hn.
    destruct Hn as [_ Hz]. cbn [forallb] in Hz. rewrite andb_true_r in Hz.
    destruct (num_char_plain z Hz). auto.
  - exists (dquote :: b), dquote. auto.
  - exists (91 :: print_elements print l ++ tr), 93.
    rewrite print_array. norm_app. auto.
  - exists (123 :: print_members print ms ++ tr), 125.
    rewrite print_object. norm_app. auto.
Qed.

Lemma decode_quote_chars (s : text) : decode (quote_chars s) = s.
Proof.
  unfold decode.
  destruct (quote_chars_spec (length s) s (Nat.le_refl _)) as [_ H].
  rewrite H. reflexivity.
Qed.

Lemma body_ok_quote_chars (s : text) : body_ok (quote_chars s) = true.
Proof. apply (quote_chars_spec (length s) s (Nat.le_refl _)). Qed.

Lemma value_of_cst_of (tr : text) (v : json) : value_of (cst_of tr v) = v.
Proof.
  induction v as [| b | n | s | l Hl | ms Hms] using json_nested_ind;
    try reflexivity.
  - cbn [cst_of value_of]. rewrite decode_quote_chars. reflexivity.
  - cbn [cst_of value_of]. f_equal. rewrite map_map.
    induction Hl as [| x l Hx Hl IH]; [reflexivity |].
    cbn [map]. rewrite Hx, IH. reflexivity.
  - cbn [cst_of value_of]. f_equal. rewrite map_map.
    induction Hms as [| [k x] ms Hx Hms IH]; [reflexivity |].
    cbn [map key_body]. simpl in Hx. rewrite Hx, IH, decode_quote_chars.
    reflexivity.
Qed.

Lemma wf_cst_of (v : json) :
  serializable v = true -> wf false (cst_of [] v) = true.
Proof.
  induction v as [| b | n | s | l Hl | ms Hms] using json_nested_ind;
    intros Hv; try exact Hv.
  - apply body_ok_quote_chars.
  - cbn [cst_of wf serializable] in *.
    replace (trailing_ok false (trailing_for [] l)) with true
      by (destruct l; reflexivity).
    rewrite andb_true_r. rewrite forallb_forall in *.
    intros y Hy. apply in_map_iff in Hy. destruct Hy as [x [<- Hx]].
    rewrite Forall_forall in Hl. apply Hl; [exact Hx | apply Hv, Hx].
  - cbn [cst_of wf serializable] in *.
    replace (trailing_ok false (trailing_for [] ms)) with true
      by (destruct ms; reflexivity).
    rewrite andb_true_r. rewrite forallb_forall in *.
    intros y Hy. apply in_map_iff in Hy. destruct Hy as [[k x] [<- Hx]].
    rewrite Forall_forall in Hms. specialize (Hms _ Hx). specialize (Hv _ Hx).
    simpl in Hms, Hv. unfold key_ok. cbn [key_before key_body key_after is_pad forallb].
    rewrite body_ok_quote_chars. apply Hms, Hv.
Qed.

(** [JSON.parse(JSON.stringify(v))] is [v]. *)
Theorem JSON_parse_stringify (v : json) :
  serializable v = true -> JSON_parse (JSON_stringify v) = Some v.
Proof.
  intros Hv. unfold JSON_stringify.
  rewrite JSON_parse_print by (apply wf_cst_of, Hv).
  rewrite value_of_cst_of. reflexivity.
Qed.

Local Close Scope N_scope.

(* ================================================================== *)
(** ** What [JSON.parse] accepts

    The converse of [JSON_parse_print]: a text without control characters
    that [JSON_parse] accepts is the text of a tree without trailing
    commas, and the value is the value of that tree. *)

Local Open Scope N_scope.

(** *** The sanitized text holds no control character *)

Lemma remove_trailing_commas_no_control (t : text) :
  existsb is_control t = false ->
  existsb is_control (remove_trailing_commas t) = false.
Proof.
  induction t as [| c t IH]; [reflexivity |]. cbn [existsb].
  intros H. apply orb_false_iff in H. destruct H as [Hc Ht].
  cbn [remove_trailing_commas].
  destruct ((c =? comma) && ws_closer t); [exact (IH Ht) |].
  cbn [existsb]. rewrite Hc. exact (IH Ht).
Qed.

Lemma strip_control_no_control (t : text) :
  existsb is_control (strip_control t) = false.
Proof.
  induction t as [| c t IH]; [reflexivity |]. unfold strip_control.
  cbn [filter]. destruct (is_control c) eqn:E; cbn [negb]; [exact IH |].
  cbn [existsb]. rewrite E. exact IH.
Qed.

Lemma sanitize_no_control_text (jsonString : text) :
  existsb is_control (sanitize jsonString) = false.
Proof.
  unfold sanitize. apply remove_trailing_commas_no_control,
    strip_control_no_control.
Qed.

(** *** Number literals, cut from what follows them *)

Lemma span_cut (t : text) :
  forall a b, span is_digit t = (a, b) ->
  forall x, (forall h tl, x = h :: tl -> is_digit h = false) ->
            span is_digit (a ++ x) = (a, x).
Proof.
  induction t as [| c t IH]; intros a b H x Hx.
  - inversion H; subst. cbn [app]. destruct x as [| h tl]; [reflexivity |].
    cbn [span]. rewrite (Hx h tl eq_refl). reflexivity.
  - cbn [span] in H. destruct (is_digit c) eqn:Ec.
    + destruct (span is_digit t) as [a' b'] eqn:E. inversion H; subst.
      cbn [app span]. rewrite Ec, (IH a' b eq_refl x Hx). reflexivity.
    + inversion H; subst. cbn [app]. destruct x as [| h tl]; [reflexivity |].
      cbn [span]. rewrite (Hx h tl eq_refl). reflexivity.
Qed.

Lemma span_head (t a b : text) (h : char) (tl : text) :
  span is_digit t = (a, b) -> a = h :: tl ->
  is_digit h = true /\ exists t', t = h :: t'.
Proof.
  destruct t as [| c t]; intros H Ha; [inversion H; subst; discriminate |].
  cbn [span] in H. destruct (is_digit c) eqn:Ec.
  - destruct (span is_digit t) as [a' b']. inversion H; subst.
    inversion H1; subst. split; [exact Ec | exists t; reflexivity].
  - inversion H; subst. discriminate.
Qed.

Lemma digits1_cut (t d r : text) :
  digits1 t = Some (d, r) ->
  (exists h tl, d = h :: tl /\ is_digit h = true /\ exists t', t = h :: t')
  /\ forall x, (forall h tl, x = h :: tl -> is_digit h = false) ->
               digits1 (d ++ x) = Some (d, x).
Proof.
  unfold digits1. intros H. destruct (span is_digit t) as [a b] eqn:E.
  destruct a as [| h tl]; [discriminate |]. inversion H; subst. split.
  - destruct (span_head _ _ _ h tl E eq_refl) as [Hh Ht].
    exists h, tl. auto.
  - intros x Hx. rewrite (span_cut t _ _ E x Hx). reflexivity.
Qed.

Lemma int_part_cut (t i r : text) :
  int_part t = Some (i, r) ->
  (exists h tl t', i = h :: tl /\ t = h :: t' /\ is_digit h = true)
  /\ forall x, (forall h tl, x = h :: tl -> is_digit h = false) ->
               int_part (i ++ x) = Some (i, x).
Proof.
  unfold int_part. intros H. destruct t as [| c t]; [discriminate |].
  destruct (c =? 48) eqn:E0.
  - inversion H; subst. apply N.eqb_eq in E0. subst c. split.
    + exists 48, [], r. auto.
    + intros x _. reflexivity.
  - destruct (is_digit c) eqn:Ec; [| discriminate].
    destruct (span is_digit t) as [a b] eqn:E. inversion H; subst. split.
    + exists c, a, t. auto.
    + intros x Hx. cbn [app]. rewrite E0, Ec, (span_cut t _ _ E x Hx).
      reflexivity.
Qed.

Lemma frac_part_cut (t f r : text) :
  frac_part t = Some (f, r) ->
  (f = [] \/ exists tl, f = 46 :: tl)
  /\ forall x, (forall h tl, x = h :: tl ->
                             is_digit h = false /\ (h =? 46) = false) ->
               frac_part (f ++ x) = Some (f, x).
Proof.
  unfold frac_part. intros H.
  assert (Hnil : forall x,
             (forall h tl, x = h :: tl ->
                           is_digit h = false /\ (h =? 46) = false) ->
             match x with
             | c :: r0 =>
                 if c =? 46
                 then match digits1 r0 with
                      | Some (d, r') => Some (c :: d, r')
                      | None => None
                      end
                 else Some ([], x)
             | [] => Some ([], x)
             end = Some ([], x)).
  { intros x Hx. destruct x as [| h tl]; [reflexivity |].
    destruct (Hx h tl eq_refl) as [_ ->]. reflexivity. }
  destruct t as [| c t].
  - inversion H; subst. split; [left; reflexivity |]. exact Hnil.
  - destruct (c =? 46) eqn:E.
    + destruct (digits1 t) as [[d r'] |] eqn:Ed; [| discriminate].
      inversion H; subst. apply N.eqb_eq in E. subst c. split.
      * right. exists d. reflexivity.
      * intros x Hx. cbn [app]. change (46 =? 46) with true. cbv iota.
        destruct (digits1_cut _ _ _ Ed) as [_ Hcut].
        rewrite (Hcut x (fun h tl Hh => proj1 (Hx h tl Hh))). reflexivity.
    + inversion H; subst. split; [left; reflexivity |]. exact Hnil.
Qed.

Lemma exp_part_cut (t e r : text) :
  exp_part t = Some (e, r) ->
  (e = [] \/ exists c tl, e = c :: tl /\ ((c =? 101) || (c =? 69)) = true)
  /\ exp_part e = Some (e, []).
Proof.
  unfold exp_part. intros H. destruct t as [| c t].
  - inversion H; subst. split; [left; reflexivity | reflexivity].
  - destruct ((c =? 101) || (c =? 69)) eqn:E.
    + destruct t as [| x t'].
      * discriminate.
      * destruct ((x =? 43) || (x =? 45)) eqn:Ex.
        -- destruct (digits1 t') as [[d r2] |] eqn:Ed; [| discriminate].
           inversion H; subst. split.
           ++ right. exists c, ([x] ++ d). auto.
           ++ cbn [app]. rewrite E, Ex.
              destruct (digits1_cut _ _ _ Ed) as [_ Hcut].
              pose proof (Hcut [] ltac:(intros; discriminate)) as Hd.
              rewrite app_nil_r in Hd. rewrite Hd. reflexivity.
        -- destruct (digits1 (x :: t')) as [[d r2] |] eqn:Ed; [| discriminate].
           inversion H; subst. split.
           ++ right. exists c, ([] ++ d). auto.
           ++ cbn [app]. rewrite E.
              destruct (digits1_cut _ _ _ Ed)
                as [(h & tl & -> & _ & t'' & Ht) Hcut].
              inversion Ht; subst h. rewrite Ex.
              pose proof (Hcut [] ltac:(intros; discriminate)) as Hd.
              rewrite app_nil_r in Hd. rewrite Hd. reflexivity.
    + inversion H; subst. split; [left; reflexivity | reflexivity].
Qed.

(** What [parse_number] takes is a number literal. *)
Lemma parse_number_cut (t n r : text) :
  parse_number t = Some (n, r) -> number_ok n = true.
Proof.
  unfold number_ok, parse_number. intros H.
  destruct (opt_sign t) as [s t1] eqn:Es.
  destruct (int_part t1) as [[i t2] |] eqn:Ei; [| discriminate].
  destruct (frac_part t2) as [[f t3] |] eqn:Ef; [| discriminate].
  destruct (exp_part t3) as [[e t4] |] eqn:Ee; [| discriminate].
  inversion H; subst. clear H.
  destruct (int_part_cut _ _ _ Ei) as [(h & tl & t' & -> & -> & Hh) Hint].
  destruct (frac_part_cut _ _ _ Ef) as [Hf Hfrac].
  destruct (exp_part_cut _ _ _ Ee) as [He Hexp].
  assert (Hsign : opt_sign (s ++ (h :: tl) ++ f ++ e)
                  = (s, (h :: tl) ++ f ++ e)).
  { unfold opt_sign in Es |- *. destruct t as [| c t0].
    - inversion Es.
    - destruct (c =? 45) eqn:E45.
      + inversion Es; subst. cbn [app]. rewrite E45. reflexivity.
      + inversion Es; subst. cbn [app]. rewrite E45. reflexivity. }
  rewrite Hsign.
  assert (He_head : forall h0 tl0, e = h0 :: tl0 ->
                      is_digit h0 = false /\ (h0 =? 46) = false).
  { intros h0 tl0 Heq. destruct He as [-> | (c & tl1 & -> & Hc)];
      [discriminate |]. inversion Heq; subst.
    apply orb_true_iff in Hc. destruct Hc as [Hc | Hc];
      apply N.eqb_eq in Hc; subst; split; reflexivity. }
  assert (Hfe_head : forall h0 tl0, f ++ e = h0 :: tl0 -> is_digit h0 = false).
  { intros h0 tl0 Heq. destruct Hf as [-> | [tl1 ->]].
    - exact (proj1 (He_head h0 tl0 Heq)).
    - inversion Heq; subst. reflexivity. }
  rewrite (Hint (f ++ e) Hfe_head), (Hfrac e He_head), Hexp.
  reflexivity.
Qed.

(** *** String literals *)

Lemma parse_string_body_sound (n : nat) :
  forall t s r, (length t <= n)%nat -> parse_string_body t = Some (s, r) ->
                exists b, t = b ++ dquote :: r /\ body_ok b = true.
Proof.
  induction n as [| n IH]; intros t s r Hlen H.
  - destruct t; [discriminate | simpl in Hlen; lia].
  - destruct t as [| c t']; [discriminate |]. cbn [parse_string_body] in H.
    simpl in Hlen.
    destruct (c =? dquote) eqn:Eq.
    + inversion H; subst. apply N.eqb_eq in Eq. subst c. exists [].
      split; reflexivity.
    + destruct (c =? backslash) eqn:Eb.
      * destruct t' as [| e t'']; [discriminate |]. simpl in Hlen.
        destruct (e =? 117) eqn:Eu.
        -- destruct t'' as [| h1 [| h2 [| h3 [| h4 t3]]]]; try discriminate.
           simpl in Hlen.
           destruct (hex4 h1 h2 h3 h4) as [u |] eqn:Eh; [| discriminate].
           destruct (parse_string_body t3) as [[s' r'] |] eqn:Ep;
             [| discriminate].
           inversion H; subst.
           destruct (IH t3 s' r ltac:(lia) Ep) as (b & -> & Hb).
           exists (c :: e :: h1 :: h2 :: h3 :: h4 :: b).
           split; [reflexivity |]. cbn [body_ok].
           rewrite Eq, Eb, Eu, Eh, Hb. reflexivity.
        -- destruct (unescape e) as [u |] eqn:Ee; [| discriminate].
           destruct (parse_string_body t'') as [[s' r'] |] eqn:Ep;
             [| discriminate].
           inversion H; subst.
           destruct (IH t'' s' r ltac:(lia) Ep) as (b & -> & Hb).
           exists (c :: e :: b). split; [reflexivity |]. cbn [body_ok].
           rewrite Eq, Eb, Eu, Ee, Hb. reflexivity.
      * destruct (c <? 32) eqn:Ec; [discriminate |].
        destruct (parse_string_body t') as [[s' r'] |] eqn:Ep;
          [| discriminate].
        inversion H; subst.
        destruct (IH t' s' r ltac:(lia) Ep) as (b & -> & Hb).
        exists (c :: b). split; [reflexivity |]. cbn [body_ok].
        rewrite Eq, Eb, Hb. apply N.ltb_ge in Ec.
        apply N.leb_le in Ec. rewrite Ec. reflexivity.
Qed.

Lemma parse_string_body_literal (t s r : text) :
  parse_string_body t = Some (s, r) ->
  exists b, t = b ++ dquote :: r /\ body_ok b = true /\ decode b = s.
Proof.
  intros H.
  destruct (parse_string_body_sound (length t) t s r (Nat.le_refl _) H)
    as (b & Ht & Hb).
  exists b. split; [exact Ht |]. split; [exact Hb |].
  pose proof (body_parse b r Hb) as Hp. rewrite <- Ht, H in Hp.
  inversion Hp. reflexivity.
Qed.

(** *** White space in a text without control characters *)

Lemma skip_ws_split (t : text) :
  existsb is_control t = false ->
  exists w, t = w ++ skip_ws t /\ is_pad w = true.
Proof.
  induction t as [| c t IH]; intros H; [exists []; split; reflexivity |].
  cbn [existsb] in H. apply orb_false_iff in H. destruct H as [Hc Ht].
  unfold skip_ws. cbn [drop_while]. destruct (is_json_ws c) eqn:Ew.
  - destruct (IH Ht) as (w & Hw & Hp). exists (c :: w).
    split; [cbn [app]; f_equal; exact Hw |].
    cbn [is_pad forallb]. fold (is_pad w). rewrite Hp, andb_true_r.
    unfold is_json_ws in Ew. unfold is_control in Hc.
    destruct (N.eqb_spec c 32) as [-> | Hne]; [reflexivity |].
    destruct (N.eqb_spec c 9) as [-> | _]; [discriminate Hc |].
    destruct (N.eqb_spec c 10) as [-> | _]; [discriminate Hc |].
    destruct (N.eqb_spec c 13) as [-> | _]; [discriminate Hc |].
    discriminate Ew.
  - exists []. split; reflexivity.
Qed.

Lemma no_control_after (a b : text) :
  existsb is_control (a ++ b) = false -> existsb is_control b = false.
Proof.
  rewrite existsb_app. intros H. apply orb_false_iff in H. tauto.
Qed.

Lemma skip_ws_found (t : text) (c : char) (r : text) :
  existsb is_control t = false -> skip_ws t = c :: r ->
  exists w, t = w ++ c :: r /\ is_pad w = true
            /\ existsb is_control r = false.
Proof.
  intros Hctl Hs. destruct (skip_ws_split t Hctl) as (w & Ht & Hw).
  rewrite Hs in Ht. exists w. split; [exact Ht |]. split; [exact Hw |].
  rewrite Ht in Hctl. apply no_control_after in Hctl.
  change (c :: r) with ([c] ++ r) in Hctl.
  exact (no_control_after _ _ Hctl).
Qed.

Lemma starts_with_prefix (pat t r : text) :
  starts_with pat t = Some r -> t = pat ++ r.
Proof.
  revert t. induction pat as [| p pat IH]; intros t H.
  - inversion H. reflexivity.
  - destruct t as [| c t]; [discriminate |]. cbn [starts_with] in H.
    destruct (N.eqb_spec c p) as [-> |]; [| discriminate].
    cbn [app]. f_equal. exact (IH t H).
Qed.

(** *** The recursive descent *)

Lemma parse_value_unfold (f : nat) (t : text) :
  parse_value (S f) t
  = match skip_ws t with
    | [] => None
    | c :: r =>
        if c =? dquote then
          match parse_string_body r with
          | Some (s, r') => Some (JStr s, r')
          | None => None
          end
        else if c =? 91 then
          match skip_ws r with
          | d :: r' =>
              if d =? 93 then Some (JArr [], r')
              else
                match parse_elements f r with
                | Some (vs, r'') => Some (JArr vs, r'')
                | None => None
                end
          | [] => None
          end
        else if c =? 123 then
          match skip_ws r with
          | d :: r' =>
              if d =? 125 then Some (JObj [], r')
              else
                match parse_members f r with
                | Some (ms, r'') => Some (JObj ms, r'')
                | None => None
                end
          | [] => None
          end
        else
          match starts_with (lit "true") (c :: r) with
          | Some r' => Some (JBool true, r')
          | None =>
              match starts_with (lit "false") (c :: r) with
              | Some r' => Some (JBool false, r')
              | None =>
                  match starts_with (lit "null") (c :: r) with
                  | Some r' => Some (JNull, r')
                  | None =>
                      match parse_number (c :: r) with
                      | Some (n, r') => Some (JNum n, r')
                      | None => None
                      end
                  end
              end
          end
    end.
Proof. reflexivity. Qed.

Lemma parse_members_unfold (f : nat) (t : text) :
  parse_members (S f) t
  = match skip_ws t with
    | q :: r =>
        if q =? dquote then
          match parse_string_body r with
          | Some (k, r1) =>
              match skip_ws r1 with
              | col :: r2 =>
                  if col =? 58 then
                    match parse_value f r2 with
                    | Some (v, r3) =>
                        match skip_ws r3 with
                        | d :: r4 =>
                            if d =? comma then
                              match parse_members f r4 with
                              | Some (ms, r5) => Some ((k, v) :: ms, r5)
                              | None => None
                              end
                            else if d =? 125 then Some ([(k, v)], r4)
                            else None
                        | [] => None
                        end
                    | None => None
                    end
                  else None
              | [] => None
              end
          | None => None
          end
        else None
    | [] => None
    end.
Proof. reflexivity. Qed.

Lemma trailing_ok_pad (commas : bool) (w : text) :
  is_pad w = true -> trailing_ok commas w = true.
Proof. unfold trailing_ok. intros ->. reflexivity. Qed.

(** What the three functions of the descent accept is the text of a
    tree, of its elements, of its members. *)
Lemma parse_sound (fuel : nat) :
  (forall t v r,
      existsb is_control t = false -> parse_value fuel t = Some (v, r) ->
      exists x, wf false x = true /\ t = print x ++ r /\ value_of x = v)
  /\ (forall t vs r,
         existsb is_control t = false ->
         parse_elements fuel t = Some (vs, r) ->
         exists x l,
           forallb (wf false) (x :: l) = true
           /\ t = print_elements print (x :: l) ++ 93 :: r
           /\ map value_of (x :: l) = vs)
  /\ (forall t ms r,
         existsb is_control t = false ->
         parse_members fuel t = Some (ms, r) ->
         exists k x l,
           forallb (fun kv => let '(k, v) := kv in key_ok k && wf false v)
             ((k, x) :: l) = true
           /\ t = print_members print ((k, x) :: l) ++ 125 :: r
           /\ map (fun kv => let '(k, x) := kv in
                             (decode (key_body k), value_of x))
                ((k, x) :: l) = ms).
Proof.
  induction fuel as [| f (IHv & IHe & IHm)];
    [split; [| split]; intros; discriminate |].
  split; [| split].
  - (* a value *)
    intros t v r Hctl H. rewrite parse_value_unfold in H.
    destruct (skip_ws t) as [| c r0] eqn:Esk; [discriminate |].
    destruct (skip_ws_found t c r0 Hctl Esk) as (w & Ht & Hw & Hctl0).
    destruct (N.eqb_spec c dquote) as [-> | _].
    { destruct (parse_string_body r0) as [[s r'] |] eqn:Eb; [| discriminate].
      inversion H; subst v r'.
      destruct (parse_string_body_literal _ _ _ Eb) as (b & Hr0 & Hb & Hs).
      exists (CPad w (CStr b) []). split; [| split].
      - cbn [wf is_pad forallb]. fold (is_pad w). rewrite Hw, Hb. reflexivity.
      - rewrite Ht, Hr0. cbn [print]. norm_app. reflexivity.
      - cbn [value_of]. rewrite Hs. reflexivity. }
    destruct (N.eqb_spec c 91) as [-> | _].
    { destruct (skip_ws r0) as [| d r'] eqn:Esk2; [discriminate |].
      destruct (skip_ws_found r0 d r' Hctl0 Esk2) as (w2 & Hr0 & Hw2 & _).
      destruct (N.eqb_spec d 93) as [-> | _].
      - inversion H; subst v r'. exists (CPad w (CArr [] w2) []).
        split; [| split].
        + cbn [wf is_pad forallb]. fold (is_pad w).
          rewrite Hw, (trailing_ok_pad false w2 Hw2). reflexivity.
        + rewrite Ht, Hr0. rewrite print_pad, print_array.
          cbn [print_elements]. norm_app. reflexivity.
        + reflexivity.
      - destruct (parse_elements f r0) as [[vs r''] |] eqn:Ee; [| discriminate].
        inversion H; subst v r''.
        destruct (IHe r0 vs r Hctl0 Ee) as (x & l & Hwf & Hr0' & Hval).
        exists (CPad w (CArr (x :: l) []) []). split; [| split].
        + cbn [wf is_pad]. cbn [forallb] in Hwf |- *. fold (is_pad w).
          rewrite Hw, Hwf. reflexivity.
        + rewrite Ht, Hr0'. rewrite print_pad, print_array.
          norm_app. reflexivity.
        + cbn [value_of]. rewrite Hval. reflexivity. }
    destruct (N.eqb_spec c 123) as [-> | _].
    { destruct (skip_ws r0) as [| d r'] eqn:Esk2; [discriminate |].
      destruct (skip_ws_found r0 d r' Hctl0 Esk2) as (w2 & Hr0 & Hw2 & _).
      destruct (N.eqb_spec d 125) as [-> | _].
      - inversion H; subst v r'. exists (CPad w (CObj [] w2) []).
        split; [| split].
        + cbn [wf is_pad forallb]. fold (is_pad w).
          rewrite Hw, (trailing_ok_pad false w2 Hw2). reflexivity.
        + rewrite Ht, Hr0. rewrite print_pad, print_object.
          cbn [print_members]. norm_app. reflexivity.
        + reflexivity.
      - destruct (parse_members f r0) as [[ms r''] |] eqn:Ee; [| discriminate].
        inversion H; subst v r''.
        destruct (IHm r0 ms r Hctl0 Ee) as (k & x & l & Hwf & Hr0' & Hval).
        exists (CPad w (CObj ((k, x) :: l) []) []). split; [| split].
        + cbn [wf is_pad]. cbn [forallb] in Hwf |- *. fold (is_pad w).
          rewrite Hw, Hwf. reflexivity.
        + rewrite Ht, Hr0'. rewrite print_pad, print_object.
          norm_app. reflexivity.
        + cbn [value_of]. rewrite Hval. reflexivity. }
    destruct (starts_with (lit "true") (c :: r0)) as [r' |] eqn:Et.
    { inversion H; subst v r'. apply starts_with_prefix in Et.
      exists (CPad w (CBool true) []). split; [| split].
      - cbn [wf is_pad forallb]. fold (is_pad w). rewrite Hw. reflexivity.
      - rewrite Ht, Et. rewrite print_pad. cbn [print]. norm_app.
        reflexivity.
      - reflexivity. }
    destruct (starts_with (lit "false") (c :: r0)) as [r' |] eqn:Ef.
    { inversion H; subst v r'. apply starts_with_prefix in Ef.
      exists (CPad w (CBool false) []). split; [| split].
      - cbn [wf is_pad forallb]. fold (is_pad w). rewrite Hw. reflexivity.
      - rewrite Ht, Ef. rewrite print_pad. cbn [print]. norm_app.
        reflexivity.
      - reflexivity. }
    destruct (starts_with (lit "null") (c :: r0)) as [r' |] eqn:En.
    { inversion H; subst v r'. apply starts_with_prefix in En.
      exists (CPad w CNull []). split; [| split].
      - cbn [wf is_pad forallb]. fold (is_pad w). rewrite Hw. reflexivity.
      - rewrite Ht, En. rewrite print_pad. cbn [print]. norm_app.
        reflexivity.
      - reflexivity. }
    destruct (parse_number (c :: r0)) as [[n r'] |] eqn:Enum; [| discriminate].
    inversion H; subst v r'.
    pose proof (parse_number_cut _ _ _ Enum) as Hn.
    destruct (parse_number_shape _ _ _ Enum) as (Hcr & _).
    exists (CPad w (CNum n) []). split; [| split].
    + cbn [wf is_pad forallb]. fold (is_pad w). rewrite Hw, Hn. reflexivity.
    + rewrite Ht, Hcr. rewrite print_pad. cbn [print]. norm_app. reflexivity.
    + reflexivity.
  - (* the elements of an array *)
    intros t vs r Hctl H. rewrite parse_elements_step in H.
    destruct (parse_value f t) as [[v r1] |] eqn:Ev; [| discriminate].
    destruct (IHv t v r1 Hctl Ev) as (x & Hx & Ht & Hvx).
    assert (Hctl1 : existsb is_control r1 = false)
      by (rewrite Ht in Hctl; exact (no_control_after _ _ Hctl)).
    destruct (skip_ws r1) as [| d r'] eqn:Esk; [discriminate |].
    destruct (skip_ws_found r1 d r' Hctl1 Esk) as (w1 & Hr1 & Hw1 & Hctl').
    destruct (N.eqb_spec d comma) as [-> | _].
    + destruct (parse_elements f r') as [[vs' r''] |] eqn:Ee; [| discriminate].
      inversion H; subst vs r''.
      destruct (IHe r' vs' r Hctl' Ee) as (y & l & Hwf & Hr' & Hval).
      exists (CPad [] x w1), (y :: l). split; [| split].
      * cbn [forallb] in Hwf |- *. cbn [wf is_pad forallb]. fold (is_pad w1).
        rewrite Hx, Hw1, Hwf. reflexivity.
      * rewrite Ht, Hr1, Hr'. rewrite print_elements_cons, print_pad.
        norm_app. reflexivity.
      * cbn [map] in Hval |- *. cbn [value_of]. rewrite Hvx, Hval.
        reflexivity.
    + destruct (N.eqb_spec d 93) as [-> | _]; [| discriminate].
      inversion H; subst vs r'.
      exists (CPad [] x w1), []. split; [| split].
      * cbn [forallb wf is_pad]. fold (is_pad w1). rewrite Hx, Hw1.
        reflexivity.
      * rewrite Ht, Hr1. rewrite print_elements_last, print_pad.
        norm_app. reflexivity.
      * cbn [map value_of]. rewrite Hvx. reflexivity.
  - (* the members of an object *)
    intros t ms r Hctl H. rewrite parse_members_unfold in H.
    destruct (skip_ws t) as [| q r0] eqn:Esk; [discriminate |].
    destruct (skip_ws_found t q r0 Hctl Esk) as (w & Ht & Hw & Hctl0).
    destruct (N.eqb_spec q dquote) as [-> | _]; [| discriminate].
    destruct (parse_string_body r0) as [[ks r1] |] eqn:Eb; [| discriminate].
    destruct (parse_string_body_literal _ _ _ Eb) as (b & Hr0 & Hb & Hks).
    assert (Hctl1 : existsb is_control r1 = false).
    { rewrite Hr0 in Hctl0. apply no_control_after in Hctl0.
      change (dquote :: r1) with ([dquote] ++ r1) in Hctl0.
      exact (no_control_after _ _ Hctl0). }
    destruct (skip_ws r1) as [| col r2] eqn:Esk1; [discriminate |].
    destruct (skip_ws_found r1 col r2 Hctl1 Esk1) as (w1 & Hr1 & Hw1 & Hctl2).
    destruct (N.eqb_spec col 58) as [-> | _]; [| discriminate].
    destruct (parse_value f r2) as [[v r3] |] eqn:Ev; [| discriminate].
    destruct (IHv r2 v r3 Hctl2 Ev) as (x & Hx & Hr2 & Hvx).
    assert (Hctl3 : existsb is_control r3 = false)
      by (rewrite Hr2 in Hctl2; exact (no_control_after _ _ Hctl2)).
    destruct (skip_ws r3) as [| d r4] eqn:Esk3; [discriminate |].
    destruct (skip_ws_found r3 d r4 Hctl3 Esk3) as (w3 & Hr3 & Hw3 & Hctl4).
    assert (Hkey : key_ok (mkKey w b w1) = true).
    { unfold key_ok. cbn [key_before key_body key_after].
      rewrite Hw, Hb, Hw1. reflexivity. }
    destruct (N.eqb_spec d comma) as [-> | _].
    + destruct (parse_members f r4) as [[ms' r5] |] eqn:Em; [| discriminate].
      inversion H; subst ms r5.
      destruct (IHm r4 ms' r Hctl4 Em) as (k' & y & l & Hwf & Hr4 & Hval).
      exists (mkKey w b w1), (CPad [] x w3), ((k', y) :: l).
      split; [| split].
      * cbn [forallb] in Hwf |- *. cbn [wf is_pad forallb]. fold (is_pad w3).
        rewrite Hkey, Hx, Hw3, Hwf. reflexivity.
      * rewrite Ht, Hr0, Hr1, Hr2, Hr3, Hr4.
        rewrite print_members_cons, print_pad. unfold print_key.
        cbn [key_before key_body key_after]. norm_app. reflexivity.
      * cbn [map] in Hval |- *. cbn [value_of key_body].
        rewrite Hks, Hvx, Hval. reflexivity.
    + destruct (N.eqb_spec d 125) as [-> | _]; [| discriminate].
      inversion H; subst ms r4.
      exists (mkKey w b w1), (CPad [] x w3), []. split; [| split].
      * cbn [forallb wf is_pad]. fold (is_pad w3).
        rewrite Hkey, Hx, Hw3. reflexivity.
      * rewrite Ht, Hr0, Hr1, Hr2, Hr3.
        rewrite print_members_last, print_pad. unfold print_key.
        cbn [key_before key_body key_after]. norm_app. reflexivity.
      * cbn [map value_of key_body]. rewrite Hks, Hvx. reflexivity.
Qed.

(** What [JSON_parse] accepts, of a text without control characters, is
    the text of a tree without trailing commas. *)
Lemma JSON_parse_sound (s : text) (v : json) :
  existsb is_control s = false -> JSON_parse s = Some v ->
  exists t, wf false t = true /\ print t = s /\ value_of t = v.
Proof.
  unfold JSON_parse. intros Hctl H.
  destruct (parse_value _ s) as [[v' r] |] eqn:Ev; [| discriminate].
  destruct (proj1 (parse_sound _) s v' r Hctl Ev) as (x & Hx & Hs & Hvx).
  assert (Hctl' : existsb is_control r = false)
    by (rewrite Hs in Hctl; exact (no_control_after _ _ Hctl)).
  destruct (skip_ws_split r Hctl') as (w & Hr & Hw).
  destruct (skip_ws r) as [| c r']; [| discriminate].
  inversion H as [Hv]. rewrite app_nil_r in Hr. subst w.
  exists (CPad [] x r). split; [| split].
  - cbn [wf is_pad forallb]. fold (is_pad r). rewrite Hx, Hw. reflexivity.
  - rewrite print_pad. cbn [app]. symmetry. exact Hs.
  - rewrite <- Hv. exact Hvx.
Qed.

Local Close Scope N_scope.

(* ================================================================== *)
(** ** StructuredExtractor *)

(** C3.  [safeGenerate] asks the model for one completion, whatever the
    outcome, and the candidate it locates in that completion decides:
    (a) a candidate that is a JSON text, except that it may have a comma
    (and white space) before closing braces and brackets and control
    characters (code points below 32, and 127) embedded anywhere, parses
    after sanitization, to the value of the tree [t] of the text that is
    left when the control characters are stripped, and the call fulfils
    with what the schema validates of it, or rejects with the error that
    carries the candidate when the schema fails;
    (b) a candidate whose sanitized text is the text of no JSON tree is
    rejected with the error that carries the candidate;
    (c) the call fulfils only with what the schema validates of the value
    of a JSON tree whose text is the sanitized candidate, and once the
    model has answered it rejects only with the error that carries the
    candidate. *)
Theorem safeGenerate_sanitizes_or_rejects
    {T : Type} (schema : json -> option T)
    (answers : nat -> text -> text -> option Z -> option (option text))
    (system prompt : text) (abortSignal : option Z) (calls : nat)
    (response_text : option text) (candidate : text)
    (Hgen : answers calls system prompt abortSignal = Some response_text)
    (Hcandidate : candidate
                  = extract_json_string
                      match response_text with Some r => r | None => [] end) :
  snd (safeGenerate_counted answers schema system prompt abortSignal calls)
  = S calls
  /\ (forall t, wf true t = true -> strip_control candidate = print t ->
        JSON_parse (sanitize candidate) = Some (value_of (clean t))
        /\ fst (safeGenerate_counted answers schema system prompt abortSignal
                  calls)
           = match schema (value_of (clean t)) with
             | Some v => Fulfilled v
             | None => Rejected (MalformedModelOutput candidate)
             end)
  /\ ((forall t, wf false t = true -> print t <> sanitize candidate) ->
      fst (safeGenerate_counted answers schema system prompt abortSignal
             calls)
      = Rejected (MalformedModelOutput candidate))
  /\ (forall v,
        fst (safeGenerate_counted answers schema system prompt abortSignal
               calls) = Fulfilled v ->
        exists t, wf false t = true /\ print t = sanitize candidate
                  /\ schema (value_of t) = Some v)
  /\ (forall e,
        fst (safeGenerate_counted answers schema system prompt abortSignal
               calls) = Rejected e ->
        e = MalformedModelOutput candidate).
Proof.
  unfold safeGenerate_counted, safeGenerate. cbn [fst snd].
  rewrite Hgen. unfold safeGenerate_on. cbv zeta. rewrite <- Hcandidate.
  split; [reflexivity |]. split; [| split; [| split]].
  - intros t Hv Hc. rewrite (sanitize_print t candidate Hv Hc).
    split; reflexivity.
  - intros Hnone.
    destruct (JSON_parse (sanitize candidate)) as [parsed |] eqn:Ep;
      [| reflexivity].
    destruct (JSON_parse_sound _ _ (sanitize_no_control_text candidate) Ep)
      as (t & Ht & Hp & _).
    contradiction (Hnone t Ht Hp).
  - intros v.
    destruct (JSON_parse (sanitize candidate)) as [parsed |] eqn:Ep;
      [| discriminate].
    destruct (schema parsed) as [v' |] eqn:Es; [| discriminate].
    intros H. inversion H; subst v'.
    destruct (JSON_parse_sound _ _ (sanitize_no_control_text candidate) Ep)
      as (t & Ht & Hp & Hval).
    exists t. rewrite Hval. auto.
  - intros e.
    destruct (JSON_parse (sanitize candidate)) as [parsed |];
      [destruct (schema parsed) |]; intros H; inversion H; reflexivity.
Qed.

Lemma safeGenerate_sanitizes_or_rejects_witness :
  safeGenerate_counted demo_answers schema_queries [] [] None 0
  = (Rejected (MalformedModelOutput (lit "sorry, no json today")), 1%nat)
  /\ safeGenerate_counted demo_answers schema_queries [] [] None 1
     = (Fulfilled
          [mkSerpQuery (lit "solar") (lit "cost of solar");
           mkSerpQuery (lit "wind") (lit "cost of wind");
           mkSerpQuery (lit "hydro") (lit "cost of hydro")], 2%nat).
Proof.
  split.
  - destruct (safeGenerate_sanitizes_or_rejects schema_queries demo_answers
                [] [] None 0 (Some (lit "sorry, no json today"))
                (lit "sorry, no json today") eq_refl eq_refl)
      as (Hcount & _ & Hrej & _).
    rewrite (surjective_pairing (safeGenerate_counted _ _ _ _ _ _)).
    rewrite Hcount, Hrej; [reflexivity |].
    intros t Ht Hp.
    destruct (print_opens t false Ht) as (w & h & tl & Heq & Hw & Ho).
    rewrite Heq in Hp. destruct w as [| c w].
    + inversion Hp. subst h. discriminate Ho.
    + inversion Hp. subst c. discriminate Hw.
  - destruct (safeGenerate_sanitizes_or_rejects schema_queries demo_answers
                [] [] None 1 (Some demo_planner_response)
                (stringify_trailing_commas demo_queries_json)
                eq_refl eq_refl)
      as (Hcount & Hacc & _).
    destruct (Hacc (cst_of [comma] demo_queries_json) eq_refl eq_refl)
      as [_ Hfst].
    rewrite (surjective_pairing (safeGenerate_counted _ _ _ _ _ _)).
    rewrite Hcount, Hfst. reflexivity.
Defined.

(* ================================================================== *)
(** ** Locating the fenced block *)

Local Open Scope N_scope.

Lemma starts_with_ci_fence_json (X : text) :
  starts_with_ci fence_json (fence_json ++ X) = Some X.
Proof. reflexivity. Qed.

(** An opening fence does not start in the text before the block and end
    in the fence of the block. *)
Lemma no_straddle (b X : text) :
  b <> [] ->
  starts_with_ci fence_json b = None ->
  starts_with_ci fence_json (b ++ fence_json ++ X) = None.
Proof.
  intros Hb H.
  destruct b as [| c1 [| c2 [| c3 [| c4 [| c5 [| c6 [| c7 b]]]]]]];
    [contradiction | | | | | | | ];
    cbn in H |- *;
    repeat match goal with
           | |- context [if ci_eqb ?p ?c then _ else _] => destruct (ci_eqb p c)
           end;
    try reflexivity; discriminate.
Qed.

Lemma json_fence_match_step (t : text) :
  json_fence_match t
  = match match_here t with
    | Some g => Some g
    | None =>
        match t with
        | [] => None
        | _ :: t' => json_fence_match t'
        end
    end.
Proof. destruct t; reflexivity. Qed.

Lemma fence_after_prefix (before X : text) (g : text) :
  contains_ci fence_json before = false ->
  after_open X = Some g ->
  json_fence_match (before ++ fence_json ++ X) = Some g.
Proof.
  intros Hno Hopen. induction before as [| c before IH].
  - assert (Hm : match_here (fence_json ++ X) = Some g)
      by (unfold match_here; rewrite starts_with_ci_fence_json; exact Hopen).
    rewrite json_fence_match_step. cbn [app]. rewrite Hm. reflexivity.
  - cbn [contains_ci] in Hno.
    destruct (starts_with_ci fence_json (c :: before)) eqn:Hs; [discriminate |].
    rewrite json_fence_match_step. unfold match_here.
    rewrite (no_straddle (c :: before) X) by (discriminate || exact Hs).
    cbn [app]. apply IH, Hno.
Qed.

Lemma after_open_ws (ws X g : text) :
  forallb is_space ws = true ->
  after_open X = Some g ->
  after_open (ws ++ X) = Some g.
Proof.
  intros Hws HX. induction ws as [| c ws IH]; [exact HX |].
  cbn [forallb] in Hws. apply andb_true_iff in Hws. destruct Hws as [Hc Hws].
  cbn [app after_open]. rewrite Hc, (IH Hws). reflexivity.
Qed.

Lemma closes_ws (ws after : text) :
  forallb is_space ws = true -> closes (ws ++ fence ++ after) = true.
Proof.
  intros Hws. induction ws as [| c ws IH]; [reflexivity |].
  cbn [forallb] in Hws. apply andb_true_iff in Hws. destruct Hws as [Hc Hws].
  cbn [app closes]. rewrite Hc, (IH Hws).
  destruct (starts_with fence (c :: ws ++ fence ++ after)); reflexivity.
Qed.

Lemma sealed_tail (c : char) (b : text) :
  b <> [] -> sealed (c :: b) -> sealed b.
Proof.
  intros Hb [Hno (init & z & Heq & Hz)]. split.
  - cbn [contains] in Hno.
    destruct (starts_with fence (c :: b)); [discriminate | exact Hno].
  - destruct init as [| c' init].
    + inversion Heq. subst. contradiction.
    + inversion Heq. subst. exists init, z. auto.
Qed.

Lemma closes_step (c : char) (t : text) :
  closes (c :: t)
  = match starts_with fence (c :: t) with
    | Some _ => true
    | None => is_space c && closes t
    end.
Proof. reflexivity. Qed.

Lemma closes_sealed (b R : text) : sealed b -> closes (b ++ R) = false.
Proof.
  induction b as [| c b IH]; intros Hs.
  - destruct Hs as [_ (init & z & Heq & _)]. destruct init; discriminate.
  - assert (Hstart : starts_with fence ((c :: b) ++ R) = None).
    { destruct Hs as [Hno (init & z & Heq & Hz1 & Hz2)].
      cbn [contains] in Hno.
      destruct (starts_with fence (c :: b)) eqn:Hsb; [discriminate |].
      destruct b as [| c2 [| c3 b3]].
      - apply (app_inj_tail [] init c z) in Heq. destruct Heq as [_ ->].
        cbn. change (z =? 96) with (z =? backtick). rewrite Hz2. reflexivity.
      - apply (app_inj_tail [c] init c2 z) in Heq. destruct Heq as [_ ->].
        cbn. change (z =? 96) with (z =? backtick). rewrite Hz2.
        destruct (c =? backtick); reflexivity.
      - cbn in Hsb |- *.
        destruct (c =? backtick); [| reflexivity].
        destruct (c2 =? backtick); [| reflexivity].
        destruct (c3 =? backtick); [discriminate | reflexivity]. }
    rewrite <- app_comm_cons in Hstart |- *. rewrite closes_step, Hstart.
    destruct b as [| c2 b'].
    + destruct Hs as [_ (init & z & Heq & Hz1 & _)].
      apply (app_inj_tail [] init c z) in Heq. destruct Heq as [_ ->].
      rewrite Hz1. reflexivity.
    + rewrite (IH (sealed_tail c (c2 :: b') ltac:(discriminate) Hs)).
      apply andb_false_r.
Qed.

Lemma lazy_group_sealed (s R : text) :
  sealed s -> closes R = true -> lazy_group (s ++ R) = Some s.
Proof.
  intros Hs HR. induction s as [| c s IH].
  - destruct Hs as [_ (init & z & Heq & _)]. destruct init; discriminate.
  - cbn [app lazy_group].
    pose proof (closes_sealed (c :: s) R Hs) as Hc. cbn [app] in Hc.
    rewrite Hc. destruct s as [| c2 s'].
    + cbn [app]. destruct R as [| r R'].
      * discriminate.
      * cbn [lazy_group]. rewrite HR. reflexivity.
    + rewrite (IH (sealed_tail c (c2 :: s') ltac:(discriminate) Hs)).
      reflexivity.
Qed.

Lemma trim_id (h : char) (tl init : text) (z : char) :
  is_space h = false -> is_space z = false -> h :: tl = init ++ [z] ->
  trim (h :: tl) = h :: tl.
Proof.
  intros Hh Hz Heq. unfold trim. cbn [drop_while]. rewrite Hh.
  rewrite Heq, rev_app_distr. cbn [rev app drop_while]. rewrite Hz.
  change (z :: rev init) with (rev [z] ++ rev init).
  rewrite <- rev_app_distr, rev_involutive. reflexivity.
Qed.

Lemma strip_control_id (s : text) :
  existsb is_control s = false -> strip_control s = s.
Proof.
  induction s as [| c s IH]; [reflexivity |]. cbn [existsb strip_control filter].
  intros H. apply orb_false_iff in H. destruct H as [Hc Hs].
  rewrite Hc. cbn [negb]. f_equal. apply IH, Hs.
Qed.

Lemma remove_trailing_commas_id (s : text) :
  has_trailing_comma s = false -> remove_trailing_commas s = s.
Proof.
  induction s as [| c s IH]; [reflexivity |].
  cbn [has_trailing_comma remove_trailing_commas].
  intros H. apply orb_false_iff in H. destruct H as [Hc Hs].
  rewrite Hc. f_equal. apply IH, Hs.
Qed.

(** Locating the block: the candidate is the text between the fences. *)
Lemma extract_fenced (before ws1 s ws2 after : text) (h : char) (tl : text) :
  contains_ci fence_json before = false ->
  forallb is_space ws1 = true -> forallb is_space ws2 = true ->
  s = h :: tl -> is_space h = false -> sealed s ->
  extract_json_string (fenced before ws1 s ws2 after) = s.
Proof.
  intros Hbefore Hws1 Hws2 Hs Hh Hsealed. unfold extract_json_string, fenced.
  assert (Hgroup : lazy_group (s ++ ws2 ++ fence ++ after) = Some s)
    by (apply lazy_group_sealed; [exact Hsealed | apply closes_ws, Hws2]).
  assert (Hopen : after_open (ws1 ++ s ++ ws2 ++ fence ++ after) = Some s).
  { apply after_open_ws; [exact Hws1 |]. rewrite Hs in Hgroup |- *.
    cbn [app after_open]. rewrite Hh. exact Hgroup. }
  rewrite (fence_after_prefix before _ s Hbefore Hopen). rewrite Hs.
  destruct Hsealed as [_ (init & z & Heq & Hz & _)]. rewrite Hs in Heq.
  apply (trim_id h tl init z Hh Hz Heq).
Qed.

(** *** The text of a tree has no character below 32 *)

Lemma hex_value_printable (h : char) :
  is_some (hex_value h) = true -> (32 <=? h) = true.
Proof.
  unfold hex_value, is_digit. intros H. apply N.leb_le.
  destruct (N.leb_spec 48 h); [lia |].
  destruct (N.leb_spec 65 h); [lia |].
  destruct (N.leb_spec 97 h); [lia |].
  cbn in H. discriminate.
Qed.

Lemma hex4_printable (a b c d : char) :
  is_some (hex4 a b c d) = true ->
  (32 <=? a) = true /\ (32 <=? b) = true /\ (32 <=? c) = true
  /\ (32 <=? d) = true.
Proof.
  unfold hex4. intros H.
  destruct (hex_value a) eqn:Ea; [| discriminate].
  destruct (hex_value b) eqn:Eb; [| discriminate].
  destruct (hex_value c) eqn:Ec; [| discriminate].
  destruct (hex_value d) eqn:Ed; [| discriminate].
  repeat split; apply hex_value_printable;
    [rewrite Ea | rewrite Eb | rewrite Ec | rewrite Ed]; reflexivity.
Qed.

Lemma unescape_printable (e : char) :
  is_some (unescape e) = true -> (32 <=? e) = true.
Proof.
  unfold unescape. intros H.
  repeat match type of H with
         | context [if ?x =? ?k then _ else _] =>
             destruct (N.eqb_spec x k); [subst; reflexivity |]
         end.
  discriminate.
Qed.

Lemma body_ok_printable (n : nat) :
  forall b, (length b <= n)%nat -> body_ok b = true -> printable b = true.
Proof.
  unfold printable.
  induction n as [| n IH]; intros b Hlen Hok.
  - destruct b; [reflexivity | simpl in Hlen; lia].
  - destruct b as [| c b']; [reflexivity |].
    cbn [body_ok] in Hok. cbn [forallb].
    destruct (c =? dquote) eqn:Eq; [discriminate |].
    destruct (N.eqb_spec c backslash) as [-> | Nb].
    + destruct b' as [| e b'']; [discriminate |].
      destruct (N.eqb_spec e 117) as [-> | Nu].
      * destruct b'' as [| h1 [| h2 [| h3 [| h4 b3]]]]; try discriminate.
        apply andb_true_iff in Hok. destruct Hok as [Hhex Hok].
        destruct (hex4_printable _ _ _ _ Hhex) as (E1 & E2 & E3 & E4).
        cbn [forallb]. rewrite E1, E2, E3, E4.
        rewrite (IH b3) by (simpl in Hlen; lia || exact Hok). reflexivity.
      * apply andb_true_iff in Hok. destruct Hok as [Hesc Hok].
        cbn [forallb]. rewrite (unescape_printable e Hesc).
        rewrite (IH b'') by (simpl in Hlen; lia || exact Hok). reflexivity.
    + apply andb_true_iff in Hok. destruct Hok as [Hc Hok].
      rewrite Hc. apply IH; [simpl in Hlen; lia | exact Hok].
Qed.

Lemma printable_app (a b : text) :
  printable (a ++ b) = printable a && printable b.
Proof. apply forallb_app. Qed.

Lemma pad_printable (w : text) : is_pad w = true -> printable w = true.
Proof.
  unfold is_pad, printable. rewrite !forallb_forall. intros H c Hc.
  specialize (H c Hc). apply N.eqb_eq in H. subst c. reflexivity.
Qed.

Lemma num_printable (n : text) :
  forallb is_num_char n = true -> printable n = true.
Proof.
  unfold printable. rewrite !forallb_forall. intros H c Hc.
  specialize (H c Hc). unfold is_num_char, is_digit in H.
  repeat (apply orb_true_iff in H; destruct H as [H | H]);
    try (apply N.eqb_eq in H; subst; reflexivity).
  apply andb_true_iff in H. destruct H as [H1 _].
  apply N.leb_le in H1. apply N.leb_le. lia.
Qed.

Lemma key_printable (k : ckey) :
  key_ok k = true -> printable (print_key k) = true.
Proof.
  unfold key_ok, print_key. intros Hk.
  apply andb_true_iff in Hk. destruct Hk as [Hk Hka].
  apply andb_true_iff in Hk. destruct Hk as [Hkb Hk].
  change (key_before k ++ dquote :: key_body k ++ dquote :: key_after k)
    with (key_before k ++ [dquote] ++ key_body k ++ [dquote] ++ key_after k).
  rewrite !printable_app, (pad_printable _ Hkb), (pad_printable _ Hka),
    (body_ok_printable (length (key_body k)) _ (Nat.le_refl _) Hk).
  reflexivity.
Qed.

Lemma printable_elements (l : list cst) :
  Forall prints_printable l ->
  forall x, prints_printable x -> forallb (wf false) (x :: l) = true ->
  printable (print_elements print (x :: l)) = true.
Proof.
  induction 1 as [| y l Hy Hl IH]; intros x Hx Hv;
    cbn [forallb] in Hv; apply andb_true_iff in Hv; destruct Hv as [Hvx Hvl].
  - rewrite print_elements_last. exact (Hx Hvx).
  - rewrite print_elements_cons, printable_app, (Hx Hvx).
    change (comma :: ?t) with ([comma] ++ t).
    rewrite printable_app, (IH y Hy Hvl). reflexivity.
Qed.

Lemma printable_members (ms : list (ckey * cst)) :
  Forall (fun kv => prints_printable (snd kv)) ms ->
  forall k x, prints_printable x ->
  forallb (fun kv => let '(k, v) := kv in key_ok k && wf false v) ((k, x) :: ms)
  = true ->
  printable (print_members print ((k, x) :: ms)) = true.
Proof.
  induction 1 as [| [k' y] ms Hy Hl IH]; intros k x Hx Hv;
    cbn [forallb] in Hv; apply andb_true_iff in Hv; destruct Hv as [Hvx Hvl];
    apply andb_true_iff in Hvx; destruct Hvx as [Hk Hvx].
  - rewrite print_members_last.
    change (print_key k ++ 58 :: print x) with (print_key k ++ [58] ++ print x).
    rewrite !printable_app, (key_printable k Hk), (Hx Hvx). reflexivity.
  - rewrite print_members_cons.
    change (print_key k ++ 58 :: print x
            ++ comma :: print_members print ((k', y) :: ms))
      with (print_key k ++ [58] ++ print x
            ++ [comma] ++ print_members print ((k', y) :: ms)).
    simpl in Hy.
    rewrite !printable_app, (key_printable k Hk), (Hx Hvx), (IH k' y Hy Hvl).
    reflexivity.
Qed.

Lemma print_printable (t : cst) : prints_printable t.
Proof.
  induction t as [| b | n | b | l tr Hl | ms tr Hms | w1 t w2 IH]
    using cst_nested_ind; intros Hv.
  - reflexivity.
  - destruct b; reflexivity.
  - cbn [wf] in Hv. destruct (number_ok_spec n Hv) as (_ & Hn & _).
    apply num_printable, Hn.
  - cbn [print]. change (dquote :: b ++ [dquote]) with ([dquote] ++ b ++ [dquote]).
    rewrite !printable_app, (body_ok_printable (length b) b (Nat.le_refl _) Hv).
    reflexivity.
  - cbn [wf] in Hv. apply andb_true_iff in Hv. destruct Hv as [Hv Htr].
    rewrite trailing_ok_false in Htr. rewrite print_array.
    change (91 :: ?t) with ([91] ++ t).
    rewrite !printable_app, (pad_printable tr Htr).
    destruct l as [| x l]; [reflexivity |].
    inversion Hl as [| x' l' Hx Hl']; subst.
    rewrite (printable_elements l Hl' x Hx Hv). reflexivity.
  - cbn [wf] in Hv. apply andb_true_iff in Hv. destruct Hv as [Hv Htr].
    rewrite trailing_ok_false in Htr. rewrite print_object.
    change (123 :: ?t) with ([123] ++ t).
    rewrite !printable_app, (pad_printable tr Htr).
    destruct ms as [| [k x] ms]; [reflexivity |].
    inversion Hms as [| kv ms' Hx Hms']; subst. simpl in Hx.
    rewrite (printable_members ms Hms' k x Hx Hv). reflexivity.
  - cbn [wf] in Hv. apply andb_true_iff in Hv. destruct Hv as [Hv H2].
    apply andb_true_iff in Hv. destruct Hv as [H1 Hv].
    rewrite print_pad, !printable_app, (pad_printable w1 H1),
      (pad_printable w2 H2), (IH Hv). reflexivity.
Qed.

Lemma no_control (s : text) :
  printable s = true -> existsb (N.eqb 127) s = false ->
  existsb is_control s = false.
Proof.
  unfold printable. induction s as [| c s IH]; [reflexivity |].
  cbn [forallb existsb]. intros Hp Hd.
  apply andb_true_iff in Hp. destruct Hp as [Hc Hp].
  apply orb_false_iff in Hd. destruct Hd as [Hd1 Hd].
  rewrite (IH Hp Hd). unfold is_control.
  apply N.leb_le in Hc. apply N.eqb_neq in Hd1.
  destruct (N.leb_spec c 31); [lia |].
  destruct (N.eqb_spec c 127); [congruence | reflexivity].
Qed.

Local Close Scope N_scope.

(* ================================================================== *)
(** ** Extraction round trip *)

(** C9, as the code has it.  Let [v] conform to the schema, serialized as
    [JSON.stringify] does (compact; the numbers of the value are number
    literals), inside a block tagged json, with white space around it
    inside the fences and any text outside.  The extraction recovers [v]
    provided that no opening fence [```json] (in either case) occurs in
    the text before the block, and that the serialized text has no three
    backticks in a row, no delete character, and no comma that is
    followed, after optional white space, by a closing brace or bracket. *)
Theorem extraction_round_trip
    {T : Type} (schema : json -> option T) (j : json) (v : T)
    (before ws1 ws2 after : text)
    (Hserial : serializable j = true)
    (Hschema : schema j = Some v)
    (Hbefore : contains_ci fence_json before = false)
    (Hws1 : forallb is_space ws1 = true)
    (Hws2 : forallb is_space ws2 = true)
    (Hfence : contains fence (JSON_stringify j) = false)
    (Hdel : existsb (N.eqb 127) (JSON_stringify j) = false)
    (Hcomma : has_trailing_comma (JSON_stringify j) = false) :
  safeGenerate_on schema
    (Some (fenced before ws1 (JSON_stringify j) ws2 after))
  = Fulfilled v.
Proof.
  pose proof (wf_cst_of j Hserial) as Hvalid.
  pose proof (cst_of_compact_root [] j) as Hroot.
  destruct (print_head_compact false (cst_of [] j) Hroot Hvalid)
    as (h & tl & Hhead & Hopener).
  destruct (opener_facts h Hopener) as (_ & Hspace & _).
  assert (Hsealed : sealed (JSON_stringify j))
    by (split; [exact Hfence | apply (print_end false); assumption]).
  unfold safeGenerate_on.
  rewrite (extract_fenced before ws1 (JSON_stringify j) ws2 after h tl
             Hbefore Hws1 Hws2 Hhead Hspace Hsealed).
  unfold sanitize.
  rewrite strip_control_id
    by (apply no_control; [apply print_printable, Hvalid | exact Hdel]).
  rewrite remove_trailing_commas_id by exact Hcomma.
  rewrite (JSON_parse_stringify j Hserial), Hschema. reflexivity.
Qed.

Lemma extraction_round_trip_witness :
  safeGenerate_on schema_learnings
    (Some (fenced (lit "here is what i found:" ++ nl) nl
             (JSON_stringify (demo_learnings_json (lit "solar, wind [2024]")))
             nl (nl ++ lit "i hope this helps")))
  = Fulfilled (mkSerpLearnings [lit "solar, wind [2024]"] [lit "why?"]).
Proof.
  apply (extraction_round_trip schema_learnings
           (demo_learnings_json (lit "solar, wind [2024]"))
           (mkSerpLearnings [lit "solar, wind [2024]"] [lit "why?"])
           (lit "here is what i found:" ++ nl) nl nl
           (nl ++ lit "i hope this helps")
           eq_refl eq_refl eq_refl eq_refl eq_refl eq_refl eq_refl eq_refl).
Defined.

(** C9 as stated fails.  A learning with a comma before a bracket comes
    back without the comma: the expression that removes trailing commas
    also works inside string literals.  And when the text before the block
    holds a fence of its own, the first fence is the one that is matched:
    its group is empty, the whole response is taken as the candidate, and
    the extraction rejects. *)
Lemma extraction_round_trip_fails :
  (schema_learnings (demo_learnings_json (lit "a,]"))
   = Some (mkSerpLearnings [lit "a,]"] [lit "why?"])
   /\ safeGenerate_on schema_learnings
        (Some (fenced (lit "result:" ++ nl) nl
                 (JSON_stringify (demo_learnings_json (lit "a,]"))) nl []))
      = Fulfilled (mkSerpLearnings [lit "a]"] [lit "why?"]))
  /\ (schema_learnings (demo_learnings_json (lit "plain"))
      = Some (mkSerpLearnings [lit "plain"] [lit "why?"])
      /\ safeGenerate_on schema_learnings
           (Some (fenced (lit "i answer in a ```json ``` block:" ++ nl) nl
                    (JSON_stringify (demo_learnings_json (lit "plain"))) nl []))
         <> Fulfilled (mkSerpLearnings [lit "plain"] [lit "why?"])).
Proof.
  split; split; try (vm_compute; reflexivity).
  vm_compute. discriminate.
Qed.

(* ================================================================== *)
(** ** The limiters *)

Lemma steps_first (s1 s2 s3 : call_state) :
  step s1 s2 -> steps s2 s3 -> steps s1 s3.
Proof.
  intros H12 H23. induction H23 as [s | s2 s3 s4 H23 IH H34].
  - eapply steps_step; [apply steps_refl | exact H12].
  - eapply steps_step; [apply IH, H12 | exact H34].
Qed.

Lemma within_limit_Running b d q active :
  within_limit (Running b d q active)
  = (length active <=? ConcurrencyLimit)%nat
    && forallb (fun b => match b with
                         | Awaiting => true
                         | Recursing child => within_limit child
                         end) active.
Proof. reflexivity. Qed.

Lemma step_within_limit (s s' : call_state) :
  step s s' -> within_limit s = true -> within_limit s' = true.
Proof.
  induction 1 as [b d qs | b d q active Hlt | b d q a1 a2 | b d q a1 a2 Hd
                 | b d q a1 a2 child child' Hstep IH | b d q a1 a2 b' d'];
    rewrite ?within_limit_Running; intros H;
    try (apply andb_true_iff in H; destruct H as [Hlen Hall];
         apply Nat.leb_le in Hlen; rewrite forallb_app in Hall;
         apply andb_true_iff in Hall; destruct Hall as [H1 H2];
         cbn [forallb] in H2; apply andb_true_iff in H2;
         destruct H2 as [Hx H2]; rewrite length_app in Hlen; simpl in Hlen).
  - reflexivity.
  - apply andb_true_iff in H. destruct H as [Hlen Hall].
    apply andb_true_iff. split.
    + apply Nat.leb_le. rewrite length_app. simpl. lia.
    + rewrite forallb_app, Hall. reflexivity.
  - apply andb_true_iff. split.
    + apply Nat.leb_le. rewrite length_app. lia.
    + rewrite forallb_app, H1, H2. reflexivity.
  - apply andb_true_iff. split.
    + apply Nat.leb_le. rewrite length_app. simpl. lia.
    + rewrite forallb_app, H1. cbn [forallb within_limit]. exact H2.
  - apply andb_true_iff. split.
    + apply Nat.leb_le. rewrite length_app. simpl. lia.
    + rewrite forallb_app, H1. cbn [forallb]. rewrite (IH Hx), H2. reflexivity.
  - apply andb_true_iff. split.
    + apply Nat.leb_le. rewrite length_app. lia.
    + rewrite forallb_app, H1, H2. reflexivity.
Qed.

Lemma steps_within_limit (s s' : call_state) :
  steps s s' -> within_limit s = true -> within_limit s' = true.
Proof.
  induction 1 as [s | s1 s2 s3 H12 IH H23]; intros H; [exact H |].
  eapply step_within_limit; [exact H23 | apply IH, H].
Qed.

Lemma rejects_within_limit (s : call_state) (rest : list call_state) :
  rejects s rest -> within_limit s = true ->
  Forall (fun s' => within_limit s' = true) rest.
Proof.
  induction 1 as [b d | b d q a1 a2 child rest Hrej IH]; intros H;
    [constructor |].
  rewrite within_limit_Running in H.
  apply andb_true_iff in H. destruct H as [Hlen Hall].
  apply Nat.leb_le in Hlen. rewrite forallb_app in Hall.
  apply andb_true_iff in Hall. destruct Hall as [H1 H2].
  cbn [forallb] in H2. apply andb_true_iff in H2. destruct H2 as [Hx H2].
  rewrite length_app in Hlen. simpl in Hlen.
  constructor; [| exact (IH Hx)].
  rewrite within_limit_Running. apply andb_true_iff. split.
  - apply Nat.leb_le. rewrite length_app. lia.
  - rewrite forallb_app, H1, H2. reflexivity.
Qed.

Lemma session_step_within_limit (f f' : list call_state) :
  session_step f f' ->
  Forall (fun s => within_limit s = true) f ->
  Forall (fun s => within_limit s = true) f'.
Proof.
  intros [f1 f2 s s' Hstep | f1 f2 s rest Hrej] H;
    apply Forall_app in H; destruct H as [H1 H2];
    inversion H2 as [| ? ? Hs H2']; subst; apply Forall_app; split;
    try exact H1.
  - constructor; [exact (step_within_limit _ _ Hstep Hs) | exact H2'].
  - apply Forall_app. split; [exact (rejects_within_limit _ _ Hrej Hs) |].
    exact H2'.
Qed.

Lemma session_steps_within_limit (f f' : list call_state) :
  session_steps f f' ->
  Forall (fun s => within_limit s = true) f ->
  Forall (fun s => within_limit s = true) f'.
Proof.
  induction 1 as [f | f1 f2 f3 H12 IH H23]; intros H; [exact H |].
  eapply session_step_within_limit; [exact H23 | apply IH, H].
Qed.

Lemma session_of_steps (s s' : call_state) :
  steps s s' -> session_steps [s] [s'].
Proof.
  induction 1 as [s | s1 s2 s3 H12 IH H23]; [apply session_refl |].
  eapply session_next; [exact IH |].
  exact (session_inside [] [] s2 s3 H23).
Qed.

Lemma demo_four_awaiting_reached : steps (Planning 4 2) demo_four_awaiting.
Proof.
  pose (q := mkSerpQuery [] []).
  eapply steps_first; [apply (step_plan 4 2 [q; q; q; q]) |].
  eapply steps_first; [apply step_admit; simpl; unfold ConcurrencyLimit; lia |].
  eapply steps_first; [apply step_admit; simpl; unfold ConcurrencyLimit; lia |].
  eapply steps_first; [apply (step_recurse 4 2 2 [] [Awaiting]); reflexivity |].
  eapply steps_first;
    [apply (step_recurse 4 2 2 [Recursing (Planning 2 1)] []); reflexivity |].
  eapply steps_first;
    [apply (step_inside 4 2 2 [] [Recursing (Planning 2 1)]);
     apply (step_plan 2 1 [q; q]) |].
  eapply steps_first;
    [apply (step_inside 4 2 2 [] [Recursing (Planning 2 1)]);
     apply step_admit; simpl; unfold ConcurrencyLimit; lia |].
  eapply steps_first;
    [apply (step_inside 4 2 2 [] [Recursing (Planning 2 1)]);
     apply step_admit; simpl; unfold ConcurrencyLimit; lia |].
  eapply steps_first;
    [apply (step_inside 4 2 2 [Recursing (Running 2 1 0 [Awaiting; Awaiting])] []);
     apply (step_plan 2 1 [q; q]) |].
  eapply steps_first;
    [apply (step_inside 4 2 2 [Recursing (Running 2 1 0 [Awaiting; Awaiting])] []);
     apply step_admit; simpl; unfold ConcurrencyLimit; lia |].
  eapply steps_first;
    [apply (step_inside 4 2 2 [Recursing (Running 2 1 0 [Awaiting; Awaiting])] []);
     apply step_admit; simpl; unfold ConcurrencyLimit; lia |].
  apply steps_refl.
Qed.

Lemma demo_after_rejection_reached :
  session_steps [Planning 4 2] demo_after_rejection.
Proof.
  pose (q := mkSerpQuery [] []).
  eapply session_next.
  - apply session_of_steps.
    eapply steps_first; [apply (step_plan 4 2 [q; q; q; q]) |].
    eapply steps_first;
      [apply step_admit; simpl; unfold ConcurrencyLimit; lia |].
    eapply steps_first;
      [apply step_admit; simpl; unfold ConcurrencyLimit; lia |].
    eapply steps_first;
      [apply (step_recurse 4 2 2 [] [Awaiting]); reflexivity |].
    eapply steps_first;
      [apply (step_recurse 4 2 2 [Recursing (Planning 2 1)] []); reflexivity |].
    eapply steps_first;
      [apply (step_inside 4 2 2 [Recursing (Planning 2 1)] []);
       apply (step_plan 2 1 [q; q]) |].
    eapply steps_first;
      [apply (step_inside 4 2 2 [Recursing (Planning 2 1)] []);
       apply step_admit; simpl; unfold ConcurrencyLimit; lia |].
    eapply steps_first;
      [apply (step_inside 4 2 2 [Recursing (Planning 2 1)] []);
       apply step_admit; simpl; unfold ConcurrencyLimit; lia |].
    apply steps_refl.
  - exact (session_reject [] [] _ _
             (rejects_branch 4 2 2 []
                [Recursing (Running 2 1 0 [Awaiting; Awaiting])]
                (Planning 2 1) [] (rejects_planner 2 1))).
Qed.

(** C5, as the code has it.  The ceiling is per call of [deepResearch],
    not global: in every state a research session reaches, every limiter
    holds at most [ConcurrencyLimit] active branches, the limiters of the
    calls that go on after they have rejected included. *)
Theorem concurrency_ceiling_per_call
    (breadth depth : Z) (session : list call_state)
    (Hreach : session_steps [Planning breadth depth] session) :
  Forall (fun s => within_limit s = true) session.
Proof.
  apply (session_steps_within_limit _ _ Hreach).
  constructor; [reflexivity | constructor].
Qed.

Lemma concurrency_ceiling_per_call_witness :
  Forall (fun s => within_limit s = true) demo_after_rejection.
Proof.
  exact (concurrency_ceiling_per_call 4 2 demo_after_rejection
           demo_after_rejection_reached).
Defined.

(** C5 as stated fails: a session of breadth 4 and depth 2 reaches a state
    in which four branches await a collaborator, two at each limiter of the
    second level. *)
Lemma concurrency_ceiling_exceeded :
  session_steps [Planning 4 2] [demo_four_awaiting]
  /\ session_awaiting [demo_four_awaiting] = 4%nat
  /\ (ConcurrencyLimit < session_awaiting [demo_four_awaiting])%nat.
Proof.
  split; [exact (session_of_steps _ _ demo_four_awaiting_reached) |].
  split; [reflexivity | vm_compute; lia].
Qed.

(* ================================================================== *)
(** * Further properties of the code *)

(** ** [trimPrompt] only shortens *)

Lemma slice0_no_longer {A} (n : Z) (t : list A) :
  (length (slice0 n t) <= length t)%nat.
Proof. unfold slice0. rewrite length_firstn. apply Nat.le_min_r. Qed.

Lemma slice0_same_length {A} (n : Z) (t : list A) :
  length (slice0 n t) = length t -> slice0 n t = t.
Proof.
  unfold slice0. rewrite length_firstn. intros H.
  apply firstn_all2. lia.
Qed.

(** A result of [trimPrompt] is the prompt itself or a strictly shorter
    text. *)
Lemma trimPrompt_fuel_shortens
    (encode : text -> list N) (splitText : Z -> text -> list text)
    (Hsplit : splitter_shrinks splitText) (fuel : nat) :
  forall t b r,
    trimPrompt_fuel encode splitText fuel t b = Some r ->
    r = t \/ (length r < length t)%nat.
Proof.
  induction fuel as [| fuel IH]; intros t b r H; simpl in H; [discriminate |].
  destruct t as [| c t']; [inversion H; left; reflexivity |].
  destruct (Z.leb_spec (js_length (encode (c :: t'))) b) as [Hfit | Hover];
    [inversion H; left; reflexivity |].
  set (chunkSize := js_length (c :: t')
                    - (js_length (encode (c :: t')) - b) * 3) in *.
  destruct (Z.ltb_spec chunkSize MinChunkSize) as [Hsmall | Hbig].
  - inversion H; subst r.
    pose proof (slice0_no_longer MinChunkSize (c :: t')) as Hle.
    destruct (Nat.eq_dec (length (slice0 MinChunkSize (c :: t')))
                (length (c :: t'))) as [Heq | Hne].
    + left. apply slice0_same_length. exact Heq.
    + right. lia.
  - assert (Hchunk : chunkSize < js_length (c :: t')) by (unfold chunkSize; lia).
    assert (H0 : 0 <= chunkSize) by (unfold MinChunkSize in Hbig; lia).
    right.
    destruct (Z.eqb_spec
                (js_length (hd [] (splitText chunkSize (c :: t'))))
                (js_length (c :: t'))) as [Heq | Hne].
    + pose proof (slice0_length_le chunkSize (c :: t') H0) as Hs.
      unfold js_length in Hchunk.
      destruct (IH _ _ _ H) as [-> | Hlt]; lia.
    + pose proof (Hsplit chunkSize (c :: t')) as Hs.
      unfold js_length in Hne.
      destruct (IH _ _ _ H) as [-> | Hlt]; lia.
Qed.

(** X1. With a splitter whose first chunk is no longer than its input,
    [trimPrompt] returns the prompt itself or a strictly shorter text: it
    never lengthens a prompt, and a result of the same length is the
    prompt unchanged. *)
Theorem trimPrompt_only_shortens
    (encode : text -> list N) (splitText : Z -> text -> list text)
    (Hsplit : splitter_shrinks splitText) (t : text) (b : Z) :
  exists r, trimPrompt encode splitText t b = Some r
            /\ (r = t \/ js_length r < js_length t).
Proof.
  destruct (trimPrompt_total encode splitText Hsplit t b) as [r Hr].
  exists r. split; [exact Hr |].
  destruct (trimPrompt_fuel_shortens encode splitText Hsplit _ _ _ _ Hr)
    as [-> | Hlt]; [left; reflexivity | right; unfold js_length; lia].
Qed.

Lemma trimPrompt_only_shortens_witness :
  exists r, trimPrompt unit_encode cut_splitText (repeat 97%N 500) 400 = Some r
            /\ (r = repeat 97%N 500 \/ js_length r < js_length (repeat 97%N 500)).
Proof.
  exact (trimPrompt_only_shortens unit_encode cut_splitText
           cut_splitText_shrinks (repeat 97%N 500) 400).
Defined.

(* ================================================================== *)
(** ** The candidate text that [safeGenerate] and [generateFeedback] extract *)

Local Open Scope N_scope.

Lemma drop_while_head {A} (p : A -> bool) (l : list A) (h : A) (tl : list A) :
  drop_while p l = h :: tl -> p h = false.
Proof.
  induction l as [| x l IH]; simpl; [discriminate |].
  destruct (p x) eqn:E; [exact IH |].
  intros H. inversion H; subst. exact E.
Qed.

Lemma drop_while_suffix {A} (p : A -> bool) (l : list A) :
  exists pre, l = pre ++ drop_while p l.
Proof.
  induction l as [| x l [pre IH]]; simpl; [exists []; reflexivity |].
  destruct (p x).
  - exists (x :: pre). simpl. f_equal. exact IH.
  - exists []. reflexivity.
Qed.

Lemma drop_while_app_stop {A} (p : A -> bool) (l : list A) (h : A) (m : list A) :
  p h = false -> drop_while p (l ++ h :: m) = drop_while p l ++ h :: m.
Proof.
  intros Hh. induction l as [| x l IH]; simpl.
  - rewrite Hh. reflexivity.
  - destruct (p x); [exact IH | reflexivity].
Qed.

(** [trim] leaves nothing, or a text between two characters that are not
    white space. *)
Lemma trim_head (t : text) (c : char) :
  hd_error (trim t) = Some c -> is_space c = false.
Proof.
  unfold trim. destruct (drop_while is_space t) as [| x a] eqn:E;
    [discriminate |].
  pose proof (drop_while_head _ _ _ _ E) as Hx.
  simpl rev at 2.
  rewrite (drop_while_app_stop is_space (rev a) x [] Hx).
  rewrite rev_app_distr. simpl. intros H. inversion H; subst. exact Hx.
Qed.

Lemma trim_last (t : text) (c : char) :
  hd_error (rev (trim t)) = Some c -> is_space c = false.
Proof.
  unfold trim. rewrite rev_involutive.
  destruct (drop_while is_space (rev (drop_while is_space t))) as [| x a] eqn:E;
    [discriminate |].
  simpl. intros H. inversion H; subst.
  exact (drop_while_head _ _ _ _ E).
Qed.

Lemma trim_substring (t : text) : exists a b, t = a ++ trim t ++ b.
Proof.
  unfold trim.
  destruct (drop_while_suffix is_space t) as [pre Hpre].
  destruct (drop_while_suffix is_space (rev (drop_while is_space t)))
    as [pre' Hpre'].
  exists pre, (rev pre').
  rewrite <- rev_app_distr, <- Hpre', rev_involutive. exact Hpre.
Qed.

Lemma lazy_group_step (t : text) :
  lazy_group t
  = if closes t then Some []
    else match t with
         | [] => None
         | c :: t' => option_map (cons c) (lazy_group t')
         end.
Proof. destruct t; reflexivity. Qed.

Lemma lazy_group_prefix (t g : text) :
  lazy_group t = Some g -> exists rest, t = g ++ rest.
Proof.
  revert g. induction t as [| c t IH]; intros g; rewrite lazy_group_step;
    destruct (closes _);
    try (intros H; inversion H; eexists; reflexivity); try discriminate.
  destruct (lazy_group t) as [g' |]; [| discriminate].
  intros H; inversion H. destruct (IH g' eq_refl) as [rest ->].
  exists rest. reflexivity.
Qed.

Lemma after_open_substring (t g : text) :
  after_open t = Some g -> exists a b, t = a ++ g ++ b.
Proof.
  revert g. induction t as [| c t IH]; intros g H.
  - apply lazy_group_prefix in H. destruct H as [rest H].
    exists [], rest. exact H.
  - cbn [after_open] in H. destruct (is_space c).
    + destruct (after_open t) as [g' |] eqn:E.
      * inversion H; subst g'. destruct (IH g eq_refl) as (a & b & ->).
        exists (c :: a), b. reflexivity.
      * apply lazy_group_prefix in H. destruct H as [rest H].
        exists [], rest. exact H.
    + apply lazy_group_prefix in H. destruct H as [rest H].
      exists [], rest. exact H.
Qed.

Lemma starts_with_ci_suffix (pat t rest : text) :
  starts_with_ci pat t = Some rest -> exists x, t = x ++ rest.
Proof.
  revert t. induction pat as [| p pat IH]; intros t; simpl.
  - intros H; inversion H. exists []. reflexivity.
  - destruct t as [| c t]; [discriminate |].
    destruct (ci_eqb p c); [| discriminate].
    intros H. destruct (IH t H) as [x ->]. exists (c :: x). reflexivity.
Qed.

Lemma json_fence_match_substring (t g : text) :
  json_fence_match t = Some g -> exists a b, t = a ++ g ++ b.
Proof.
  induction t as [| c t IH]; rewrite json_fence_match_step;
    unfold match_here.
  - destruct (starts_with_ci fence_json []) as [rest |] eqn:E;
      [discriminate E | discriminate].
  - destruct (starts_with_ci fence_json (c :: t)) as [rest |] eqn:E.
    + destruct (after_open rest) as [g' |] eqn:Ea.
      * intros H; inversion H; subst g'.
        destruct (starts_with_ci_suffix _ _ _ E) as [x Hx].
        destruct (after_open_substring _ _ Ea) as (a & b & Hab).
        exists (x ++ a), b. rewrite Hx, Hab, <- app_assoc. reflexivity.
      * intros H. destruct (IH H) as (a & b & ->).
        exists (c :: a), b. reflexivity.
    + intros H. destruct (IH H) as (a & b & ->).
      exists (c :: a), b. reflexivity.
Qed.

Lemma extract_json_string_head (responseText : text) (c : char) :
  hd_error (extract_json_string responseText) = Some c -> is_space c = false.
Proof.
  unfold extract_json_string.
  destruct (json_fence_match responseText) as [[| x g] |]; apply trim_head.
Qed.

Lemma extract_json_string_last (responseText : text) (c : char) :
  hd_error (rev (extract_json_string responseText)) = Some c ->
  is_space c = false.
Proof.
  unfold extract_json_string.
  destruct (json_fence_match responseText) as [[| x g] |]; apply trim_last.
Qed.

(** X2. The candidate that the extraction locates in the response (the
    [jsonString] that [generateFeedback] parses, and that [safeGenerate]
    sanitizes and names in its error) never starts and never ends with a
    white space character, whatever the model answered. *)
Theorem extract_json_string_trimmed (responseText : text) :
  (forall c, hd_error (extract_json_string responseText) = Some c ->
             is_space c = false)
  /\ (forall c, hd_error (rev (extract_json_string responseText)) = Some c ->
                is_space c = false).
Proof.
  split; intros c.
  - apply extract_json_string_head.
  - apply extract_json_string_last.
Qed.

Lemma extract_json_string_trimmed_witness :
  extract_json_string (lit "  [1] ") = lit "[1]"
  /\ is_space 91 = false /\ is_space 93 = false.
Proof.
  split; [reflexivity |].
  destruct (extract_json_string_trimmed (lit "  [1] ")) as [Hhead Hlast].
  split; [exact (Hhead 91 eq_refl) | exact (Hlast 93 eq_refl)].
Defined.

(** X3. The candidate is a contiguous part of the response of the model:
    the extraction never adds or alters a character. *)
Theorem extract_json_string_substring (responseText : text) :
  exists a b, responseText = a ++ extract_json_string responseText ++ b.
Proof.
  unfold extract_json_string.
  destruct (json_fence_match responseText) as [[| c g] |] eqn:E;
    try apply trim_substring.
  destruct (json_fence_match_substring _ _ E) as (a & b & Hab).
  destruct (trim_substring (c :: g)) as (a' & b' & Hg).
  exists (a ++ a'), (b' ++ b).
  rewrite Hab at 1. rewrite Hg at 1.
  repeat rewrite <- app_assoc. reflexivity.
Qed.

Lemma json_fence_match_none (t : text) :
  contains_ci fence_json t = false -> json_fence_match t = None.
Proof.
  induction t as [| c t IH]; intros H; rewrite json_fence_match_step;
    unfold match_here.
  - reflexivity.
  - cbn [contains_ci] in H.
    destruct (starts_with_ci fence_json (c :: t)); [discriminate |].
    apply IH. exact H.
Qed.

(** X4. When the response holds no opening fence (three backticks and
    [json], in either case), the candidate is the whole response,
    trimmed. *)
Theorem extract_json_string_unfenced (responseText : text)
    (Hnone : contains_ci fence_json responseText = false) :
  extract_json_string responseText = trim responseText.
Proof.
  unfold extract_json_string. rewrite (json_fence_match_none _ Hnone).
  reflexivity.
Qed.

Lemma extract_json_string_unfenced_witness :
  extract_json_string (lit "  {} ") = lit "{}".
Proof.
  exact (extract_json_string_unfenced (lit "  {} ") eq_refl).
Defined.

Lemma after_open_empty_block (ws after : text) :
  forallb is_space ws = true -> after_open (ws ++ fence ++ after) = Some [].
Proof.
  intros Hws. apply after_open_ws; [exact Hws |]. reflexivity.
Qed.

(** X5. A block that is empty between its fences counts as no block: when
    the first opening fence of the response is followed by white space
    only and the closing fence, the candidate is the whole response,
    trimmed, fences included. *)
Theorem extract_json_string_empty_block (before ws after : text)
    (Hbefore : contains_ci fence_json before = false)
    (Hws : forallb is_space ws = true) :
  extract_json_string (before ++ fence_json ++ ws ++ fence ++ after)
  = trim (before ++ fence_json ++ ws ++ fence ++ after).
Proof.
  unfold extract_json_string.
  rewrite (fence_after_prefix before (ws ++ fence ++ after) []
             Hbefore (after_open_empty_block ws after Hws)).
  reflexivity.
Qed.

Lemma extract_json_string_empty_block_witness :
  extract_json_string
    (lit "see: " ++ fence_json ++ nl ++ fence ++ lit " {} ")
  = lit "see: " ++ fence_json ++ nl ++ fence ++ lit " {}".
Proof.
  exact (extract_json_string_empty_block (lit "see: ") nl (lit " {} ")
           eq_refl eq_refl).
Defined.

Local Close Scope N_scope.

(* ================================================================== *)
(** ** What the sanitization removes *)

Local Open Scope N_scope.

(** X6. The text handed to [JSON.parse] holds no control character (none
    of U+0000 to U+001F, nor U+007F), whatever the candidate was. *)
Theorem sanitize_no_control (jsonString : text) :
  existsb is_control (sanitize jsonString) = false.
Proof.
  unfold sanitize. apply remove_trailing_commas_no_control,
    strip_control_no_control.
Qed.

Lemma deletes_trans (p : char -> bool) (a b c : text) :
  deletes p a b -> deletes p b c -> deletes p a c.
Proof.
  intros Hab. revert c.
  induction Hab as [| x t s Hts IH | x t s Hx Hts IH]; intros c Hbc.
  - exact Hbc.
  - inversion Hbc as [| ? ? c' Hsc | ? ? ? Hpx Hsc]; subst.
    + apply deletes_keep, IH, Hsc.
    + apply deletes_drop; [exact Hpx | apply IH, Hsc].
  - apply deletes_drop; [exact Hx | apply IH, Hbc].
Qed.

Lemma deletes_strip_control (p : char -> bool) (t : text) :
  (forall c, is_control c = true -> p c = true) ->
  deletes p t (strip_control t).
Proof.
  intros Hp. induction t as [| c t IH]; [constructor |].
  unfold strip_control. cbn [filter]. fold (strip_control t).
  destruct (is_control c) eqn:E; cbn [negb].
  - apply deletes_drop; [apply Hp, E | exact IH].
  - apply deletes_keep, IH.
Qed.

Lemma deletes_remove_trailing_commas (p : char -> bool) (t : text) :
  p comma = true -> deletes p t (remove_trailing_commas t).
Proof.
  intros Hp. induction t as [| c t IH]; [constructor |].
  cbn [remove_trailing_commas].
  destruct (N.eqb_spec c comma) as [-> | _]; cbn [andb].
  - destruct (ws_closer t).
    + apply deletes_drop; [exact Hp | exact IH].
    + apply deletes_keep, IH.
  - apply deletes_keep, IH.
Qed.

(** X7. The sanitization only deletes, and only control characters and
    commas: the sanitized text is the candidate with some of its control
    characters and commas taken out, every other character kept, in the
    same order; nothing is added or altered. *)
Theorem sanitize_only_deletes (jsonString : text) :
  deletes (fun c => is_control c || (c =? comma))
    jsonString (sanitize jsonString).
Proof.
  unfold sanitize.
  apply (deletes_trans _ _ (strip_control jsonString)).
  - apply deletes_strip_control. intros c ->. reflexivity.
  - apply deletes_remove_trailing_commas. reflexivity.
Qed.

Lemma strip_control_commas (k : nat) (t : text) :
  strip_control (repeat comma k ++ t) = repeat comma k ++ strip_control t.
Proof.
  induction k as [| k IH]; [reflexivity |].
  cbn [repeat app]. unfold strip_control in *. cbn [filter].
  change (negb (is_control comma)) with true. cbv iota. f_equal. exact IH.
Qed.

Lemma closer_cases (c : char) : is_closer c = true -> c = 125 \/ c = 93.
Proof.
  unfold is_closer. intros H. apply orb_true_iff in H.
  destruct H as [H | H]; apply N.eqb_eq in H; auto.
Qed.

Lemma strip_control_app (a b : text) :
  strip_control (a ++ b) = strip_control a ++ strip_control b.
Proof. unfold strip_control. apply filter_app. Qed.

Lemma strip_control_spaces (ws : text) :
  forallb is_space ws = true -> forallb is_space (strip_control ws) = true.
Proof.
  induction ws as [| c ws IH]; [reflexivity |]. cbn [forallb].
  intros H. apply andb_true_iff in H. destruct H as [Hc Hws].
  unfold strip_control. cbn [filter]. fold (strip_control ws).
  destruct (negb (is_control c)); [cbn [forallb]; rewrite Hc |]; exact (IH Hws).
Qed.

Lemma space_not_comma (c : char) : is_space c = true -> (c =? comma) = false.
Proof.
  intros Hs. destruct (N.eqb_spec c comma) as [-> | _]; [| reflexivity].
  discriminate Hs.
Qed.

Lemma ws_closer_spaces (ws : text) (c : char) (t : text) :
  forallb is_space ws = true -> is_closer c = true ->
  ws_closer (ws ++ c :: t) = true.
Proof.
  intros Hws Hc. induction ws as [| x ws IH].
  - cbn [app ws_closer]. rewrite Hc. reflexivity.
  - cbn [forallb] in Hws. apply andb_true_iff in Hws. destruct Hws as [Hx Hws].
    cbn [app ws_closer]. rewrite Hx, (IH Hws). apply orb_true_r.
Qed.

Lemma remove_trailing_commas_spaces (ws : text) (t : text) :
  forallb is_space ws = true ->
  remove_trailing_commas (ws ++ t) = ws ++ remove_trailing_commas t.
Proof.
  intros Hws. apply rtc_no_comma.
  induction ws as [| x ws IH]; [reflexivity |].
  cbn [forallb] in Hws |- *. apply andb_true_iff in Hws.
  destruct Hws as [Hx Hws]. rewrite (space_not_comma x Hx), (IH Hws).
  reflexivity.
Qed.

Lemma remove_trailing_commas_run (n : nat) (ws : text) (c : char) (t : text) :
  forallb is_space ws = true -> is_closer c = true ->
  remove_trailing_commas (repeat comma (S n) ++ ws ++ c :: t)
  = repeat comma n ++ ws ++ c :: remove_trailing_commas t.
Proof.
  intros Hws Hc. induction n as [| n IH].
  - cbn [repeat app remove_trailing_commas]. rewrite N.eqb_refl.
    rewrite (ws_closer_spaces ws c t Hws Hc). cbn [andb].
    rewrite (remove_trailing_commas_spaces ws _ Hws).
    destruct (closer_cases c Hc) as [-> | ->]; reflexivity.
  - change (repeat comma (S (S n)) ++ ws ++ c :: t)
      with (comma :: comma :: repeat comma n ++ ws ++ c :: t).
    cbn [remove_trailing_commas]. rewrite N.eqb_refl.
    change (ws_closer (comma :: repeat comma n ++ ws ++ c :: t)) with false.
    cbn [andb repeat app]. f_equal. exact IH.
Qed.

(** X8. Of a run of commas that stands, anywhere in the candidate, before
    a closing brace or bracket (white space may stand between them), the
    sanitization removes one, the last: the others stay, so that a text
    such as [[1,,]] is still not JSON after it.  What stands before the
    run and what stands after the closer are sanitized on their own. *)
Theorem sanitize_removes_one_comma
    (before : text) (n : nat) (ws : text) (c : char) (rest : text)
    (Hws : forallb is_space ws = true) (Hc : is_closer c = true) :
  sanitize (before ++ repeat comma (S n) ++ ws ++ c :: rest)
  = sanitize before ++ repeat comma n ++ strip_control ws
    ++ c :: sanitize rest.
Proof.
  unfold sanitize. rewrite strip_control_app, strip_control_commas.
  rewrite strip_control_app.
  assert (Hs : strip_control (c :: rest) = c :: strip_control rest)
    by (destruct (closer_cases c Hc) as [-> | ->]; reflexivity).
  rewrite Hs.
  change (repeat comma (S n)) with (comma :: repeat comma n).
  cbn [app]. rewrite rtc_barrier by reflexivity. f_equal.
  exact (remove_trailing_commas_run n (strip_control ws) c
           (strip_control rest) (strip_control_spaces ws Hws) Hc).
Qed.

Lemma sanitize_removes_one_comma_witness :
  sanitize (lit "[1,,]") = lit "[1,]"
  /\ sanitize (lit "{,,, }") = lit "{,, }"
  /\ JSON_parse (sanitize (lit "[1,,]")) = None.
Proof.
  split; [| split; [| reflexivity]].
  - exact (sanitize_removes_one_comma (lit "[1") 1 [] 93 [] eq_refl eq_refl).
  - exact (sanitize_removes_one_comma (lit "{") 2 [32] 125 [] eq_refl eq_refl).
Defined.

Local Close Scope N_scope.

(* ================================================================== *)
(** ** Candidates that cannot be JSON *)

Local Open Scope N_scope.

Lemma parse_value_non_opener (fuel : nat) (h : char) (r : text) :
  opener h = false -> is_json_ws h = false ->
  parse_value fuel (h :: r) = None.
Proof.
  intros Ho Hw. destruct fuel as [| f]; [reflexivity |].
  cbn [parse_value]. unfold skip_ws. cbn [drop_while]. rewrite Hw.
  unfold opener in Ho.
  apply orb_false_iff in Ho. destruct Ho as [Ho Hdigit].
  apply orb_false_iff in Ho. destruct Ho as [Ho Hminus].
  apply orb_false_iff in Ho. destruct Ho as [Ho Hf].
  apply orb_false_iff in Ho. destruct Ho as [Ho Ht].
  apply orb_false_iff in Ho. destruct Ho as [Ho Hn].
  apply orb_false_iff in Ho. destruct Ho as [Ho Hbrace].
  apply orb_false_iff in Ho. destruct Ho as [Hquote Hbracket].
  unfold dquote. rewrite Hquote, Hbracket, Hbrace.
  change (lit "true") with [116; 114; 117; 101].
  change (lit "false") with [102; 97; 108; 115; 101].
  change (lit "null") with [110; 117; 108; 108].
  cbn [starts_with]. rewrite Ht, Hf, Hn.
  unfold parse_number, opt_sign. rewrite Hminus. unfold int_part.
  rewrite Hdigit.
  destruct (N.eqb_spec h 48) as [-> | _]; [discriminate Hdigit | reflexivity].
Qed.

Lemma space_not_opener (c : char) : is_space c = true -> opener c = false.
Proof.
  intros Hs. destruct (opener c) eqn:E; [| reflexivity].
  destruct (opener_facts c E) as (_ & H & _). congruence.
Qed.

Lemma closer_not_opener (c : char) :
  is_closer c = true -> opener c = false /\ is_json_ws c = false.
Proof.
  intros H. destruct (closer_cases c H) as [-> | ->]; split; reflexivity.
Qed.

Lemma ws_closer_no_value (fuel : nat) (t : text) :
  ws_closer t = true -> parse_value fuel t = None.
Proof.
  induction t as [| c t IH]; [discriminate |]. cbn [ws_closer].
  intros H. apply orb_true_iff in H. destruct H as [Hc | H].
  - destruct (closer_not_opener c Hc) as [Ho Hw].
    apply parse_value_non_opener; assumption.
  - apply andb_true_iff in H. destruct H as [Hs Ht].
    destruct (is_json_ws c) eqn:Hw.
    + rewrite (parse_value_skip fuel (c :: t) t).
      * exact (IH Ht).
      * unfold skip_ws. cbn [drop_while]. rewrite Hw. reflexivity.
    + apply parse_value_non_opener; [apply space_not_opener, Hs | exact Hw].
Qed.

Lemma ws_closer_not_comma (c : char) (t : text) :
  ws_closer (c :: t) = true -> (c =? comma) = false.
Proof.
  cbn [ws_closer]. intros H. destruct (N.eqb_spec c comma) as [-> | _];
    [| reflexivity].
  change (is_closer comma) with false in H.
  change (is_space comma) with false in H. discriminate H.
Qed.

Lemma ws_closer_remove_trailing_commas (t : text) :
  ws_closer t = true -> ws_closer (remove_trailing_commas t) = true.
Proof.
  induction t as [| c t IH]; [discriminate |]. intros H.
  cbn [remove_trailing_commas]. rewrite (ws_closer_not_comma c t H).
  cbn [andb ws_closer] in H |- *.
  apply orb_true_iff in H. destruct H as [Hc | H]; [rewrite Hc; reflexivity |].
  apply andb_true_iff in H. destruct H as [Hs Ht].
  rewrite Hs, (IH Ht). apply orb_true_r.
Qed.

Lemma JSON_parse_no_value (t : text) :
  (forall fuel, parse_value fuel t = None) -> JSON_parse t = None.
Proof. intros H. unfold JSON_parse. rewrite H. reflexivity. Qed.

(** A candidate that is empty, or whose first character is neither a
    control character nor a character a JSON value starts with, does not
    parse after sanitization. *)
Lemma sanitize_no_value (h : char) (tl : text) :
  is_space h = false -> is_control h = false -> opener h = false ->
  JSON_parse (sanitize (h :: tl)) = None.
Proof.
  intros Hs Hctl Ho. apply JSON_parse_no_value. intros fuel.
  assert (Hw : is_json_ws h = false).
  { unfold is_json_ws. unfold is_control in Hctl. unfold is_space in Hs.
    destruct (N.eqb_spec h 32) as [-> | _]; [discriminate Hs |].
    destruct (N.eqb_spec h 9) as [-> | _]; [discriminate Hctl |].
    destruct (N.eqb_spec h 10) as [-> | _]; [discriminate Hctl |].
    destruct (N.eqb_spec h 13) as [-> | _]; [discriminate Hctl |].
    reflexivity. }
  unfold sanitize, strip_control. cbn [filter]. rewrite Hctl. cbn [negb].
  fold (strip_control tl). cbn [remove_trailing_commas].
  destruct ((h =? comma) && ws_closer (strip_control tl)) eqn:E.
  - apply andb_true_iff in E. destruct E as [_ E].
    apply ws_closer_no_value, ws_closer_remove_trailing_commas, E.
  - apply parse_value_non_opener; assumption.
Qed.

(** X9. When the candidate is empty, or starts with a character that is
    neither a control character nor one a JSON value can start with (a
    quote, a bracket, a brace, a minus sign, a digit, or the first letter
    of true, false, null), [safeGenerate] rejects with the error that
    carries the candidate, whatever the schema. *)
Theorem safeGenerate_rejects_non_json
    {T : Type} (schema : json -> option T) (response_text : option text)
    (Hstart : match extract_json_string
                      match response_text with Some t => t | None => [] end
              with
              | [] => true
              | h :: _ => negb (is_control h) && negb (opener h)
              end = true) :
  safeGenerate_on schema response_text
  = Rejected
      (MalformedModelOutput
         (extract_json_string
            match response_text with Some t => t | None => [] end)).
Proof.
  unfold safeGenerate_on.
  pose proof (extract_json_string_head
                match response_text with Some t => t | None => [] end)
    as Hhead.
  destruct (extract_json_string _) as [| h tl]; [reflexivity |].
  apply andb_true_iff in Hstart. destruct Hstart as [Hctl Ho].
  apply negb_true_iff in Hctl. apply negb_true_iff in Ho.
  rewrite (sanitize_no_value h tl (Hhead h eq_refl) Hctl Ho). reflexivity.
Qed.

Lemma safeGenerate_rejects_non_json_witness :
  safeGenerate_on schema_queries (Some (lit "  sure! here are the queries:  "))
  = Rejected (MalformedModelOutput (lit "sure! here are the queries:")).
Proof.
  exact (safeGenerate_rejects_non_json schema_queries
           (Some (lit "  sure! here are the queries:  ")) eq_refl).
Defined.

Local Close Scope N_scope.

(* ================================================================== *)
(** ** The planner and the distiller *)

Lemma slice0_at_most {A} (n : Z) (l : list A) :
  0 <= n -> js_length (slice0 n l) <= n /\ slice0 n l = firstn (Z.to_nat n) l.
Proof.
  intros Hn. unfold slice0, js_length.
  destruct (Z.ltb_spec n 0) as [Hneg | _]; [lia |].
  rewrite length_firstn. split; [lia | reflexivity].
Qed.

(** X10. With a breadth that is not negative, [generateSerpQueries]
    returns at most [numQueries] queries: the first ones of the list that
    the schema validated, in their order. *)
Theorem generateSerpQueries_at_most
    (generateText : text -> text -> option Z -> option (option text))
    (systemPrompt : text) (q : text) (numQueries : Z)
    (ls : option (list text)) (qs : list SerpQuery)
    (Hn : 0 <= numQueries)
    (Hqs : generateSerpQueries generateText systemPrompt q numQueries ls
           = Fulfilled qs) :
  js_length qs <= numQueries
  /\ exists queries,
       safeGenerate generateText schema_queries systemPrompt
         (serpQueries_prompt q ls) None = Fulfilled queries
       /\ qs = firstn (Z.to_nat numQueries) queries.
Proof.
  unfold generateSerpQueries in Hqs.
  destruct (safeGenerate _ _ _ _ _) as [queries | e |]; try discriminate.
  inversion Hqs; subst qs.
  destruct (slice0_at_most numQueries queries Hn) as [Hlen Hfirst].
  split; [exact Hlen |]. exists queries. split; [reflexivity | exact Hfirst].
Qed.

Lemma generateSerpQueries_at_most_witness :
  exists qs,
    generateSerpQueries demo_generateText (lit "you are a researcher")
      (lit "renewable energy trends") 2 None = Fulfilled qs
    /\ map query qs = [lit "solar"; lit "wind"]
    /\ js_length qs <= 2.
Proof.
  eexists. split; [vm_compute; reflexivity |]. split; [reflexivity |].
  exact (proj1 (generateSerpQueries_at_most demo_generateText
                  (lit "you are a researcher") (lit "renewable energy trends")
                  2 None _ ltac:(lia) ltac:(vm_compute; reflexivity))).
Defined.

Lemma all_some_map_Forall2 {A B} (f : A -> option B) (l : list A) :
  forall ys, all_some (map f l) = Some ys ->
             Forall2 (fun x y => f x = Some y) l ys.
Proof.
  induction l as [| x l IH]; simpl; intros ys H.
  - inversion H. constructor.
  - destruct (f x) as [y |] eqn:E; [| discriminate].
    destruct (all_some (map f l)) as [ys' |]; [| discriminate].
    inversion H; subst ys. constructor; [exact E | apply IH; reflexivity].
Qed.

Lemma compact_In (l : list (option text)) (u : text) :
  In u (compact l) -> In (Some u) l /\ u <> [].
Proof.
  induction l as [| [[| c s] |] l IH]; simpl; try (intros H; tauto).
  intros [<- | H]; [split; [left; reflexivity | discriminate] | tauto].
Qed.

Lemma Forall2_impl_In {A B} (R S : A -> B -> Prop) (l : list A) (l' : list B) :
  (forall x y, In x l -> R x y -> S x y) -> Forall2 R l l' -> Forall2 S l l'.
Proof.
  intros H HR. induction HR as [| x y l l' Hxy _ IH]; constructor.
  - apply H; [left; reflexivity | exact Hxy].
  - apply IH. intros x' y' Hin. apply H. right. exact Hin.
Qed.

(** X11. [processSerpResult] shows the model one content per search item
    that has a description which is not empty, in the order of the
    items; each content is that description as [trimPrompt] leaves it with
    a budget of 25000 tokens, so that it fits the budget or is at most 140
    characters long.  The completion is asked once, for the prompt built
    of these contents. *)
Theorem processSerpResult_contents_trimmed
    (encode : text -> list N) (splitText : Z -> text -> list text)
    (generateText : text -> text -> option Z -> option (option text))
    (systemPrompt : text)
    (Hsplit : splitter_shrinks splitText)
    (q : text) (result : SearchResponse)
    (numLearnings numFollowUpQuestions : Z) :
  exists contents,
    processSerpResult encode splitText generateText systemPrompt q result
      numLearnings numFollowUpQuestions
    = safeGenerate generateText schema_learnings systemPrompt
        (serpResult_prompt q contents) (Some 60000)
    /\ Forall2
         (fun d c =>
            d <> [] /\ In (Some d) (map description (data result))
            /\ trimPrompt encode splitText d 25000 = Some c
            /\ (js_length (encode c) <= 25000 \/ js_length c <= 140))
         (compact (map description (data result))) contents.
Proof.
  unfold processSerpResult.
  destruct (all_some_map_total
              (fun content => trimPrompt encode splitText content 25000)
              (compact (map description (data result)))) as [ys Hys].
  - intros x _. apply trimPrompt_total. exact Hsplit.
  - rewrite Hys. exists ys. split; [reflexivity |].
    apply all_some_map_Forall2 in Hys.
    eapply Forall2_impl_In; [| exact Hys].
    intros d c Hd_in Hd. simpl in Hd.
    destruct (compact_In _ _ Hd_in) as [Hsome Hne].
    split; [exact Hne |]. split; [exact Hsome |]. split; [exact Hd |].
    exact (trimPrompt_fuel_trimmed encode splitText _ _ _ _ Hd).
Qed.

Lemma processSerpResult_contents_trimmed_witness :
  exists contents,
    processSerpResult unit_encode cut_splitText demo_generateText []
      (lit "solar")
      (mkSearchResponse
         [mkSearchItem None (Some (repeat 97%N 300));
          mkSearchItem None (Some []);
          mkSearchItem None None]) 3 3
    = safeGenerate demo_generateText schema_learnings []
        (serpResult_prompt (lit "solar") contents) (Some 60000)
    /\ Forall2
         (fun d c =>
            d <> [] /\ In (Some d) [Some (repeat 97%N 300); Some []; None]
            /\ trimPrompt unit_encode cut_splitText d 25000 = Some c
            /\ (js_length (unit_encode c) <= 25000 \/ js_length c <= 140))
         [repeat 97%N 300] contents.
Proof.
  exact (processSerpResult_contents_trimmed unit_encode cut_splitText
           demo_generateText [] cut_splitText_shrinks (lit "solar")
           (mkSearchResponse
              [mkSearchItem None (Some (repeat 97%N 300));
               mkSearchItem None (Some []);
               mkSearchItem None None]) 3 3).
Defined.

(* ================================================================== *)
(** ** Where rejections, findings and calls of [deepResearch] come from *)

Lemma max_calls_nonneg (levels : nat) :
  forall b, 0 <= b -> 0 <= max_calls levels b.
Proof.
  induction levels as [| l IH]; intros b Hb; cbn [max_calls]; [lia |].
  pose proof (ceil_half_spec b) as Hc.
  pose proof (IH (ceil_half b) ltac:(lia)) as Hm.
  apply Z.mul_nonneg_nonneg; lia.
Qed.

Lemma concat_length_bound {A} (k : Z) (ls : list (list A)) :
  0 <= k ->
  Forall (fun l => js_length l <= k) ls ->
  js_length (concat ls) <= js_length ls * k.
Proof.
  intros Hk H. unfold js_length in *.
  induction H as [| l ls Hl _ IH]; cbn [concat length]; [lia |].
  rewrite length_app, Nat2Z.inj_add, Nat2Z.inj_succ. lia.
Qed.

Lemma Forall_new_Set (P : text -> Prop) (l : list text) :
  Forall P l -> Forall P (new_Set l).
Proof.
  rewrite !Forall_forall. intros H x Hx. apply H, new_Set_In, Hx.
Qed.

Lemma Forall_flat_map_each {A B} (P : B -> Prop) (f : A -> list B) (l : list A) :
  (forall x, In x l -> Forall P (f x)) -> Forall P (flat_map f l).
Proof.
  intros H. induction l as [| x l IH]; simpl; [constructor |].
  apply Forall_app. split; [apply H; left; reflexivity |].
  apply IH. intros y Hy. apply H. right. exact Hy.
Qed.

Section OrchestratorOrigins.

Variable encode : text -> list N.
Variable splitText : Z -> text -> list text.
Variable generateText : text -> text -> option Z -> option (option text).
Variable search : text -> option SearchResponse.
Variable systemPrompt : text.

Let branch := research_branch encode splitText generateText search systemPrompt.
Let run := deepResearch_fuel encode splitText generateText search systemPrompt.
Let planner (inv : Invocation) : outcome (list SerpQuery) :=
  generateSerpQueries generateText systemPrompt (inv_query inv)
    (inv_breadth inv) (Some (inv_learnings inv)).

(** A branch rejects as the recursive call that it logs first. *)
Lemma branch_rejects_call recurse this q e :
  fst (branch recurse this q) = Rejected e ->
  exists c, snd (branch recurse this q) = c :: snd (recurse (callee c))
            /\ fst (recurse (callee c)) = Rejected e.
Proof.
  unfold branch, research_branch.
  destruct (query q) as [| qc qt]; [discriminate |].
  destruct (search _) as [result |]; [| discriminate].
  destruct (processSerpResult _ _ _ _ _ _ _ _) as [found | e' |];
    try discriminate.
  destruct (Z.ltb_spec 0 (number_sub (inv_depth this) 1)) as [Hpos | Hle];
    [| discriminate].
  match goal with
  | |- context [recurse ?n] =>
      intros H;
      exists (mkRecursiveCall this (sl_learnings found)
                (compact (map url (data result))) n);
      cbn [callee]; destruct (recurse n) as [settled calls]
  end.
  simpl in H |- *. subst settled. split; reflexivity.
Qed.

Lemma run_rejects (fuel : nat) :
  forall this e,
    fst (run fuel this) = Rejected e ->
    exists inv,
      (inv = this \/ In inv (map callee (snd (run fuel this))))
      /\ planner inv = Rejected e.
Proof.
  induction fuel as [| fuel IH]; intros this e; [discriminate |].
  simpl. fold (planner this).
  destruct (planner this) as [qs | e0 |] eqn:Hplan; [| | discriminate].
  - simpl. destruct (promise_all _) as [results | e1 |] eqn:Hall;
      try discriminate.
    intros H. inversion H; subst e1.
    apply promise_all_Rejected in Hall. rewrite map_map in Hall.
    apply in_map_iff in Hall. destruct Hall as [q [Hq Hin]].
    destruct (branch_rejects_call (run fuel) this q e Hq) as [c [Hcalls Hrej]].
    destruct (IH _ _ Hrej) as [inv [Hwhere Hinv]].
    exists inv. split; [right | exact Hinv].
    assert (Hc' : exists c', callee c' = inv
                             /\ In c' (snd (branch (run fuel) this q))).
    { rewrite Hcalls. destruct Hwhere as [-> | Hdeep].
      - exists c. split; [reflexivity | left; reflexivity].
      - apply in_map_iff in Hdeep. destruct Hdeep as [c' [Heq Hc']].
        exists c'. split; [exact Heq | right; exact Hc']. }
    destruct Hc' as [c' [Heq Hc']].
    apply in_map_iff. exists c'. split; [exact Heq |].
    apply in_concat. exists (snd (branch (run fuel) this q)).
    split; [| exact Hc'].
    rewrite map_map. apply in_map_iff. exists q. split; [reflexivity | exact Hin].
  - simpl. intros H. inversion H; subst e0. exists this. auto.
Qed.

(** What holds of the accumulator of a call holds of what the call
    returns, when it holds of all that a search and a distillation can
    add. *)
Lemma branch_findings (PL PU : text -> Prop) recurse this q r :
  (forall q' result n m res,
      search q' = Some result ->
      processSerpResult encode splitText generateText systemPrompt q' result
        n m = Fulfilled res ->
      Forall PL (sl_learnings res)) ->
  (forall q' result, search q' = Some result ->
                     Forall PU (compact (map url (data result)))) ->
  (forall next r', Forall PL (inv_learnings next) ->
                   Forall PU (inv_visitedUrls next) ->
                   fst (recurse next) = Fulfilled r' ->
                   Forall PL (learnings r') /\ Forall PU (visitedUrls r')) ->
  Forall PL (inv_learnings this) -> Forall PU (inv_visitedUrls this) ->
  fst (branch recurse this q) = Fulfilled r ->
  Forall PL (learnings r) /\ Forall PU (visitedUrls r).
Proof.
  intros HL HU Hrec Hl Hu. unfold branch, research_branch.
  destruct (query q) as [| qc qt];
    [intros H; inversion H; split; constructor |].
  destruct (search _) as [result |] eqn:Hsearch;
    [| intros H; inversion H; split; constructor].
  destruct (processSerpResult _ _ _ _ _ _ _ _) as [found | e |] eqn:Hfound;
    [| intros H; inversion H; split; constructor | discriminate].
  assert (Hl' : Forall PL (inv_learnings this ++ sl_learnings found))
    by (apply Forall_app; split; [exact Hl | exact (HL _ _ _ _ _ Hsearch Hfound)]).
  assert (Hu' : Forall PU (inv_visitedUrls this ++ compact (map url (data result))))
    by (apply Forall_app; split; [exact Hu | exact (HU _ _ Hsearch)]).
  destruct (Z.ltb_spec 0 (number_sub (inv_depth this) 1)) as [Hpos | Hle].
  - match goal with
    | |- context [recurse ?n] =>
        specialize (Hrec n); destruct (recurse n) as [settled calls]
    end.
    simpl. intros ->. apply Hrec; [exact Hl' | exact Hu' | reflexivity].
  - simpl. intros H. inversion H. simpl. split; assumption.
Qed.

Lemma run_findings (PL PU : text -> Prop) :
  (forall q' result n m res,
      search q' = Some result ->
      processSerpResult encode splitText generateText systemPrompt q' result
        n m = Fulfilled res ->
      Forall PL (sl_learnings res)) ->
  (forall q' result, search q' = Some result ->
                     Forall PU (compact (map url (data result)))) ->
  forall fuel this r,
    Forall PL (inv_learnings this) -> Forall PU (inv_visitedUrls this) ->
    fst (run fuel this) = Fulfilled r ->
    Forall PL (learnings r) /\ Forall PU (visitedUrls r).
Proof.
  intros HL HU. induction fuel as [| fuel IH]; intros this r Hl Hu Hr;
    [discriminate |].
  apply run_Fulfilled in Hr. destruct Hr as (qs & results & _ & Hmap & ->).
  assert (Hall : forall b, In b results ->
                           Forall PL (learnings b) /\ Forall PU (visitedUrls b)).
  { intros b Hb. destruct (map_eq_In _ _ _ _ _ Hmap Hb) as [q [_ Hq]].
    exact (branch_findings PL PU (run fuel) this q b HL HU (IH) Hl Hu Hq). }
  unfold merge_results. simpl.
  split; apply Forall_new_Set, Forall_flat_map_each; intros b Hb; apply Hall, Hb.
Qed.

(** The calls logged below a call all start from an accumulator that
    extends the given lists. *)
Lemma branch_calls_extend (ls us : list text) recurse this q :
  (forall next, (exists l, inv_learnings next = ls ++ l) ->
                (exists u, inv_visitedUrls next = us ++ u) ->
                Forall (fun c => (exists l, inv_learnings (callee c) = ls ++ l)
                                 /\ (exists u, inv_visitedUrls (callee c) = us ++ u))
                  (snd (recurse next))) ->
  (exists l, inv_learnings this = ls ++ l) ->
  (exists u, inv_visitedUrls this = us ++ u) ->
  Forall (fun c => (exists l, inv_learnings (callee c) = ls ++ l)
                   /\ (exists u, inv_visitedUrls (callee c) = us ++ u))
    (snd (branch recurse this q)).
Proof.
  intros Hrec [l Hl] [u Hu]. unfold branch, research_branch.
  destruct (query q) as [| qc qt]; [constructor |].
  destruct (search _) as [result |]; [| constructor].
  destruct (processSerpResult _ _ _ _ _ _ _ _) as [found | e |];
    try constructor.
  destruct (Z.ltb_spec 0 (number_sub (inv_depth this) 1)) as [Hpos | Hle];
    [| constructor].
  assert (Hl' : exists l', inv_learnings this ++ sl_learnings found = ls ++ l')
    by (exists (l ++ sl_learnings found); rewrite Hl, app_assoc; reflexivity).
  assert (Hu' : exists u', inv_visitedUrls this ++ compact (map url (data result))
                           = us ++ u')
    by (exists (u ++ compact (map url (data result)));
        rewrite Hu, app_assoc; reflexivity).
  match goal with
  | |- context [recurse ?n] =>
      specialize (Hrec n Hl' Hu'); destruct (recurse n) as [settled calls]
  end.
  simpl in *. constructor; [| exact Hrec]. simpl. split; assumption.
Qed.

Lemma run_calls_extend (ls us : list text) (fuel : nat) :
  forall this,
    (exists l, inv_learnings this = ls ++ l) ->
    (exists u, inv_visitedUrls this = us ++ u) ->
    Forall (fun c => (exists l, inv_learnings (callee c) = ls ++ l)
                     /\ (exists u, inv_visitedUrls (callee c) = us ++ u))
      (snd (run fuel this)).
Proof.
  induction fuel as [| fuel IH]; intros this Hl Hu; simpl; [constructor |].
  destruct (generateSerpQueries _ _ _ _ _) as [qs | e |]; try constructor.
  simpl. apply Forall_concat. rewrite map_map.
  apply Forall_map, Forall_forall. intros q _.
  apply branch_calls_extend; [exact IH | exact Hl | exact Hu].
Qed.

(** The number of calls below a call. *)
Lemma branch_call_count recurse this q :
  (forall next, inv_breadth next = ceil_half (inv_breadth this) ->
                inv_depth next = inv_depth this - 1 ->
                js_length (snd (recurse next))
                <= max_calls (Z.to_nat (inv_depth next - 1)) (inv_breadth next)) ->
  0 <= inv_breadth this ->
  inv_depth this <= 2 ^ 53 ->
  js_length (snd (branch recurse this q))
  <= match Z.to_nat (inv_depth this - 1) with
     | O => 0
     | S levels => 1 + max_calls levels (ceil_half (inv_breadth this))
     end.
Proof.
  intros Hrec Hb Hsafe.
  assert (Hzero : 0 <= match Z.to_nat (inv_depth this - 1) with
                       | O => 0
                       | S levels =>
                           1 + max_calls levels (ceil_half (inv_breadth this))
                       end).
  { destruct (Z.to_nat (inv_depth this - 1)); [lia |].
    pose proof (ceil_half_spec (inv_breadth this)) as Hc.
    pose proof (max_calls_nonneg n (ceil_half (inv_breadth this)) ltac:(lia)).
    lia. }
  unfold branch, research_branch.
  destruct (query q) as [| qc qt]; [exact Hzero |].
  destruct (search _) as [result |]; [| exact Hzero].
  destruct (processSerpResult _ _ _ _ _ _ _ _) as [found | e |];
    try exact Hzero.
  destruct (Z.ltb_spec 0 (number_sub (inv_depth this) 1)) as [Hpos | Hle];
    [| exact Hzero].
  destruct (number_sub_one_safe _ Hsafe Hpos) as [Heq Hpos']. rewrite Heq.
  match goal with
  | |- context [recurse ?n] =>
      specialize (Hrec n eq_refl eq_refl);
      destruct (recurse n) as [settled calls]
  end.
  cbn [snd inv_depth inv_breadth] in Hrec |- *.
  replace (Z.to_nat (inv_depth this - 1))
    with (S (Z.to_nat (inv_depth this - 1 - 1))) by lia.
  unfold js_length in *. cbn [length]. rewrite Nat2Z.inj_succ. lia.
Qed.

Lemma run_call_count (fuel : nat) :
  forall this,
    0 <= inv_breadth this ->
    inv_depth this <= 2 ^ 53 ->
    js_length (snd (run fuel this))
    <= max_calls (Z.to_nat (inv_depth this - 1)) (inv_breadth this).
Proof.
  induction fuel as [| fuel IH]; intros this Hb Hsafe.
  - simpl. apply max_calls_nonneg. exact Hb.
  - simpl. unfold generateSerpQueries.
    destruct (safeGenerate _ _ _ _ _) as [queries | e |];
      try (apply max_calls_nonneg; exact Hb).
    simpl. rewrite map_map.
    destruct (slice0_at_most (inv_breadth this) queries Hb) as [Hlen _].
    set (qs := slice0 (inv_breadth this) queries) in *.
    set (k := match Z.to_nat (inv_depth this - 1) with
              | O => 0
              | S levels =>
                  1 + max_calls levels (ceil_half (inv_breadth this))
              end).
    assert (Hk : 0 <= k).
    { unfold k. destruct (Z.to_nat (inv_depth this - 1)); [lia |].
      pose proof (ceil_half_spec (inv_breadth this)) as Hc.
      pose proof (max_calls_nonneg n (ceil_half (inv_breadth this)) ltac:(lia)).
      lia. }
    assert (Hall : Forall (fun l : list RecursiveCall => js_length l <= k)
                     (map (fun q => snd (branch (run fuel) this q)) qs)).
    { apply Forall_map, Forall_forall. intros q _.
      apply branch_call_count; [| exact Hb | exact Hsafe].
      intros next Hnb Hnd. apply IH; [| lia]. rewrite Hnb.
      pose proof (ceil_half_spec (inv_breadth this)). lia. }
    pose proof (concat_length_bound k _ Hk Hall) as Hsum.
    unfold js_length in Hsum, Hlen |- *. rewrite length_map in Hsum.
    assert (Hgoal : Z.of_nat (length qs) * k
                    <= max_calls (Z.to_nat (inv_depth this - 1))
                         (inv_breadth this)).
    { unfold k. destruct (Z.to_nat (inv_depth this - 1)) as [| levels];
        cbn [max_calls]; [lia |].
      pose proof (ceil_half_spec (inv_breadth this)) as Hc.
      pose proof (max_calls_nonneg levels (ceil_half (inv_breadth this))
                    ltac:(lia)).
      apply Z.mul_le_mono_nonneg_r; lia. }
    fold branch. lia.
Qed.

End OrchestratorOrigins.

(** X12. When [deepResearch] rejects, the error is the one that
    [generateSerpQueries] rejected with, in the call itself or in one of
    the recursive calls below it: a failure of the search or of the
    distiller never rejects the call. *)
Theorem deepResearch_rejects_as_planner
    (encode : text -> list N) (splitText : Z -> text -> list text)
    (generateText : text -> text -> option Z -> option (option text))
    (search : text -> option SearchResponse) (systemPrompt : text)
    (this : Invocation) (e : error)
    (He : fst (deepResearch encode splitText generateText search systemPrompt
                 this) = Rejected e) :
  exists inv,
    (inv = this
     \/ In inv (map callee
                  (snd (deepResearch encode splitText generateText search
                          systemPrompt this))))
    /\ generateSerpQueries generateText systemPrompt (inv_query inv)
         (inv_breadth inv) (Some (inv_learnings inv)) = Rejected e.
Proof.
  exact (run_rejects encode splitText generateText search systemPrompt
           _ this e He).
Qed.

Lemma deepResearch_rejects_as_planner_witness :
  exists inv,
    In inv (map callee (snd (demo_deepResearch (demo_invocation 3 2))))
    /\ inv_depth inv = 1
    /\ generateSerpQueries demo_generateText (lit "you are a researcher")
         (inv_query inv) (inv_breadth inv) (Some (inv_learnings inv))
       = Rejected (MalformedModelOutput (lit "sorry, no json today")).
Proof.
  destruct (deepResearch_rejects_as_planner unit_encode cut_splitText
              demo_generateText demo_search (lit "you are a researcher")
              (demo_invocation 3 2)
              (MalformedModelOutput (lit "sorry, no json today"))
              ltac:(vm_compute; reflexivity)) as [inv [[-> | Hin] Hinv]].
  - exfalso. vm_compute in Hinv. discriminate Hinv.
  - exists inv. split; [exact Hin |]. split; [| exact Hinv].
    vm_compute in Hin. destruct Hin as [<- | [<- | []]]; reflexivity.
Defined.

(** A call of depth 1 or less makes no recursive call and fulfils when
    its planner has answered. *)
Lemma single_level_settles
    (encode : text -> list N) (splitText : Z -> text -> list text)
    (generateText : text -> text -> option Z -> option (option text))
    (search : text -> option SearchResponse) (systemPrompt : text)
    (this : Invocation) (qs : list SerpQuery) :
  splitter_shrinks splitText ->
  inv_depth this <= 1 ->
  generateSerpQueries generateText systemPrompt (inv_query this)
    (inv_breadth this) (Some (inv_learnings this)) = Fulfilled qs ->
  exists r,
    deepResearch encode splitText generateText search systemPrompt this
    = (Fulfilled r, []).
Proof.
  intros Hsplit Hdepth Hplan. unfold deepResearch.
  set (fuel := S (Z.to_nat (inv_depth this))).
  assert (Hsafe : inv_depth this <= 2 ^ 53) by (rewrite two_53; lia).
  pose proof (run_calls encode splitText generateText search systemPrompt
                fuel this Hsafe) as Hcalls.
  pose proof (run_settles encode splitText generateText search systemPrompt
                Hsplit fuel this Hsafe ltac:(unfold fuel; lia)) as Hsettles.
  pose proof (run_rejects encode splitText generateText search systemPrompt
                fuel this) as Hrej.
  destruct (deepResearch_fuel encode splitText generateText search
              systemPrompt fuel this) as [settled calls].
  simpl in Hcalls, Hsettles, Hrej.
  assert (Hnone : calls = []).
  { destruct calls as [| c calls']; [reflexivity |].
    inversion Hcalls as [| ? ? ((_ & _ & Hpos) & _ & Hbound) _]; subst. lia. }
  subst calls. destruct settled as [r | e |].
  - exists r. reflexivity.
  - destruct (Hrej e eq_refl) as [inv [[-> | []] Hinv]]. congruence.
  - congruence.
Qed.

(** X13. With a depth of 1 or less, [deepResearch] makes no recursive
    call, and it fulfils as soon as its planner has answered with queries:
    no failure of a search or of a distillation rejects it. *)
Theorem deepResearch_single_level_fulfils
    (encode : text -> list N) (splitText : Z -> text -> list text)
    (generateText : text -> text -> option Z -> option (option text))
    (search : text -> option SearchResponse) (systemPrompt : text)
    (Hsplit : splitter_shrinks splitText)
    (this : Invocation) (qs : list SerpQuery)
    (Hdepth : inv_depth this <= 1)
    (Hplan : generateSerpQueries generateText systemPrompt (inv_query this)
               (inv_breadth this) (Some (inv_learnings this)) = Fulfilled qs) :
  exists r,
    deepResearch encode splitText generateText search systemPrompt this
    = (Fulfilled r, []).
Proof.
  exact (single_level_settles encode splitText generateText search
           systemPrompt this qs Hsplit Hdepth Hplan).
Qed.

Lemma deepResearch_single_level_fulfils_witness :
  exists r,
    deepResearch unit_encode cut_splitText demo_generateText demo_search_down
      (lit "you are a researcher") (demo_invocation 3 0)
    = (Fulfilled r, []).
Proof.
  exact (deepResearch_single_level_fulfils unit_encode cut_splitText
           demo_generateText demo_search_down (lit "you are a researcher")
           cut_splitText_shrinks (demo_invocation 3 0) _ ltac:(simpl; lia)
           ltac:(vm_compute; reflexivity)).
Defined.

(** X14. Every address in the visited URLs that [deepResearch] returns
    was in the visited URLs it was called with, or is the address, not
    empty, of an item of a response of the search. *)
Theorem deepResearch_urls_provenance
    (encode : text -> list N) (splitText : Z -> text -> list text)
    (generateText : text -> text -> option Z -> option (option text))
    (search : text -> option SearchResponse) (systemPrompt : text)
    (this : Invocation) (r : ResearchResult) (u : text)
    (Hr : fst (deepResearch encode splitText generateText search systemPrompt
                 this) = Fulfilled r)
    (Hu : In u (visitedUrls r)) :
  In u (inv_visitedUrls this)
  \/ exists q result item,
       search q = Some result /\ In item (data result)
       /\ url item = Some u /\ u <> [].
Proof.
  pose proof (run_findings encode splitText generateText search systemPrompt
                (fun _ => True)
                (fun u => In u (inv_visitedUrls this)
                          \/ exists q result item,
                               search q = Some result /\ In item (data result)
                               /\ url item = Some u /\ u <> [])) as H.
  destruct (H ltac:(intros; apply Forall_forall; auto)) with
    (fuel := S (Z.to_nat (inv_depth this))) (this := this) (r := r)
    as [_ Hurls].
  - intros q result Hsearch. apply Forall_forall. intros x Hx. right.
    destruct (compact_In _ _ Hx) as [Hin Hne].
    apply in_map_iff in Hin. destruct Hin as [item [Hitem Hin]].
    exists q, result, item. auto.
  - apply Forall_forall. auto.
  - apply Forall_forall. intros x Hx. left. exact Hx.
  - exact Hr.
  - rewrite Forall_forall in Hurls. exact (Hurls u Hu).
Qed.

Lemma deepResearch_urls_provenance_witness :
  In (lit "https://example.org/solar") (inv_visitedUrls (demo_invocation 3 1))
  \/ exists q result item,
       demo_search q = Some result /\ In item (data result)
       /\ url item = Some (lit "https://example.org/solar")
       /\ lit "https://example.org/solar" <> [].
Proof.
  eapply (deepResearch_urls_provenance unit_encode cut_splitText
            demo_generateText demo_search (lit "you are a researcher")
            (demo_invocation 3 1)).
  - vm_compute. reflexivity.
  - simpl. right. left. reflexivity.
Defined.

(** X15. Every learning that [deepResearch] returns was in the learnings
    it was called with, or is one of the learnings that
    [processSerpResult] returned for a response of the search. *)
Theorem deepResearch_learnings_provenance
    (encode : text -> list N) (splitText : Z -> text -> list text)
    (generateText : text -> text -> option Z -> option (option text))
    (search : text -> option SearchResponse) (systemPrompt : text)
    (this : Invocation) (r : ResearchResult) (x : text)
    (Hr : fst (deepResearch encode splitText generateText search systemPrompt
                 this) = Fulfilled r)
    (Hx : In x (learnings r)) :
  In x (inv_learnings this)
  \/ exists q result n m res,
       search q = Some result
       /\ processSerpResult encode splitText generateText systemPrompt
            q result n m = Fulfilled res
       /\ In x (sl_learnings res).
Proof.
  pose proof (run_findings encode splitText generateText search systemPrompt
                (fun x => In x (inv_learnings this)
                          \/ exists q result n m res,
                               search q = Some result
                               /\ processSerpResult encode splitText
                                    generateText systemPrompt q result n m
                                  = Fulfilled res
                               /\ In x (sl_learnings res))
                (fun _ => True)) as H.
  destruct H with
    (fuel := S (Z.to_nat (inv_depth this))) (this := this) (r := r)
    as [Hlearnings _].
  - intros q result n m res Hsearch Hres. apply Forall_forall. intros y Hy.
    right. exists q, result, n, m, res. auto.
  - intros. apply Forall_forall. auto.
  - apply Forall_forall. intros y Hy. left. exact Hy.
  - apply Forall_forall. auto.
  - exact Hr.
  - rewrite Forall_forall in Hlearnings. exact (Hlearnings x Hx).
Qed.

Lemma deepResearch_learnings_provenance_witness :
  In (lit "L4") (inv_learnings (demo_invocation 3 1))
  \/ exists q result n m res,
       demo_search q = Some result
       /\ processSerpResult unit_encode cut_splitText demo_generateText
            (lit "you are a researcher") q result n m = Fulfilled res
       /\ In (lit "L4") (sl_learnings res).
Proof.
  eapply (deepResearch_learnings_provenance unit_encode cut_splitText
            demo_generateText demo_search (lit "you are a researcher")
            (demo_invocation 3 1)).
  - vm_compute. reflexivity.
  - simpl. do 4 right. left. reflexivity.
Defined.

(** X16. With a breadth that is not negative and a depth of at most
    2^53 (where the double [depth - 1] is exact), the number of recursive
    calls made below a call of [deepResearch] is at most [max_calls]: each
    of at most [breadth] branches makes at most one call, with half the
    breadth (rounded up) and one level less; a call of depth 1 or less
    makes none. *)
Theorem deepResearch_call_count
    (encode : text -> list N) (splitText : Z -> text -> list text)
    (generateText : text -> text -> option Z -> option (option text))
    (search : text -> option SearchResponse) (systemPrompt : text)
    (this : Invocation) (Hb : 0 <= inv_breadth this)
    (Hdepth : inv_depth this <= 2 ^ 53) :
  js_length (snd (deepResearch encode splitText generateText search
                    systemPrompt this))
  <= max_calls (Z.to_nat (inv_depth this - 1)) (inv_breadth this).
Proof.
  exact (run_call_count encode splitText generateText search systemPrompt
           _ this Hb Hdepth).
Qed.

Lemma deepResearch_call_count_witness :
  js_length (snd (demo_deepResearch (demo_invocation 3 2))) <= 3
  /\ max_calls 2 4 = 12.
Proof.
  split; [| reflexivity].
  exact (deepResearch_call_count unit_encode cut_splitText demo_generateText
           demo_search (lit "you are a researcher") (demo_invocation 3 2)
           ltac:(simpl; lia) ltac:(vm_compute; discriminate)).
Defined.

(** X17. Every recursive call below a call of [deepResearch], at any
    level, starts from an accumulator that extends that of the call: its
    learnings and its visited URLs are those the call was given, in their
    order, followed by more. *)
Theorem deepResearch_calls_extend_accumulator
    (encode : text -> list N) (splitText : Z -> text -> list text)
    (generateText : text -> text -> option Z -> option (option text))
    (search : text -> option SearchResponse) (systemPrompt : text)
    (this : Invocation) :
  Forall (fun c =>
            (exists l, inv_learnings (callee c) = inv_learnings this ++ l)
            /\ (exists u, inv_visitedUrls (callee c)
                          = inv_visitedUrls this ++ u))
    (snd (deepResearch encode splitText generateText search systemPrompt
            this)).
Proof.
  apply run_calls_extend.
  - exists []. rewrite app_nil_r. reflexivity.
  - exists []. rewrite app_nil_r. reflexivity.
Qed.

(* ================================================================== *)
(** ** [generateFeedback] *)

Lemma get_property_single (k : text) (v : json) :
  get_property k [(k, v)] = Some v.
Proof.
  cbn [get_property].
  assert (H : text_eqb k k = true) by (apply text_eqb_eq; reflexivity).
  rewrite H. reflexivity.
Qed.

Lemma z_array_strings (l : list text) :
  z_array z_string (Some (JArr (map JStr l))) = Some l.
Proof.
  unfold z_array. rewrite map_map. cbn [z_string].
  induction l as [| x l IH]; [reflexivity |].
  cbn [map all_some]. rewrite IH. reflexivity.
Qed.

Lemma serializable_strings (l : list text) :
  forallb serializable (map JStr l) = true.
Proof. induction l as [| x l IH]; [reflexivity | exact IH]. Qed.

Lemma schema_questions_json (questions : list text) :
  schema_questions (questions_json questions) = Some questions
  /\ serializable (questions_json questions) = true.
Proof.
  unfold schema_questions, questions_json. rewrite get_property_single.
  split; [apply z_array_strings |].
  cbn [serializable forallb]. rewrite serializable_strings. reflexivity.
Qed.

(** A serialized value inside a block tagged json is what the extraction
    returns, when no opening fence stands before the block and the
    serialized text has no three backticks in a row. *)
Lemma extract_fenced_stringify (j : json) (before ws1 ws2 after : text) :
  serializable j = true ->
  contains_ci fence_json before = false ->
  forallb is_space ws1 = true -> forallb is_space ws2 = true ->
  contains fence (JSON_stringify j) = false ->
  extract_json_string (fenced before ws1 (JSON_stringify j) ws2 after)
  = JSON_stringify j.
Proof.
  intros Hserial Hbefore Hws1 Hws2 Hfence.
  pose proof (wf_cst_of j Hserial) as Hvalid.
  pose proof (cst_of_compact_root [] j) as Hroot.
  destruct (print_head_compact false (cst_of [] j) Hroot Hvalid)
    as (h & tl & Hhead & Hopener).
  destruct (opener_facts h Hopener) as (_ & Hspace & _).
  assert (Hsealed : sealed (JSON_stringify j))
    by (split; [exact Hfence | apply (print_end false); assumption]).
  exact (extract_fenced before ws1 (JSON_stringify j) ws2 after h tl
           Hbefore Hws1 Hws2 Hhead Hspace Hsealed).
Qed.

(** X18. [generateFeedback] never rejects, and with a count that is not
    negative it returns at most [numQuestions] questions.  When the
    completion answers, the candidate (parsed as it was extracted) is JSON
    and fits the schema, they are the first [numQuestions] of the
    questions that the schema validated, in their order; the list is
    empty only then with nothing to return, or when the completion
    rejects, when the candidate is not JSON, or when it does not fit the
    schema. *)
Theorem generateFeedback_at_most
    (generateText : text -> text -> option Z -> option (option text))
    (systemPrompt : text) (query : text) (numQuestions : Z)
    (Hn : 0 <= numQuestions) :
  exists questions,
    generateFeedback generateText systemPrompt query numQuestions
    = Fulfilled questions
    /\ js_length questions <= numQuestions
    /\ (forall response_text parsed validated,
          generateText systemPrompt (feedback_prompt query) None
          = Some response_text ->
          JSON_parse
            (extract_json_string
               match response_text with Some t => t | None => [] end)
          = Some parsed ->
          schema_questions parsed = Some validated ->
          questions = firstn (Z.to_nat numQuestions) validated)
    /\ (questions <> [] ->
        exists response_text parsed validated,
          generateText systemPrompt (feedback_prompt query) None
          = Some response_text
          /\ JSON_parse
               (extract_json_string
                  match response_text with Some t => t | None => [] end)
             = Some parsed
          /\ schema_questions parsed = Some validated
          /\ questions = firstn (Z.to_nat numQuestions) validated).
Proof.
  unfold generateFeedback, generateFeedback_try.
  destruct (generateText _ _ _) as [response_text |] eqn:Hgen;
    [| exists []; split; [reflexivity |]; split;
       [unfold js_length; simpl; lia |];
       split; [intros ? ? ? H; discriminate H | intros H; contradiction H;
                                                 reflexivity]].
  destruct (JSON_parse _) as [parsed |] eqn:Hparse;
    [| exists []; split; [reflexivity |]; split;
       [unfold js_length; simpl; lia |];
       split; [intros ? ? ? H1 H2; inversion H1; subst;
               rewrite Hparse in H2; discriminate H2
              | intros H; contradiction H; reflexivity]].
  destruct (schema_questions parsed) as [validated |] eqn:Hschema;
    [| exists []; split; [reflexivity |]; split;
       [unfold js_length; simpl; lia |];
       split; [intros ? ? ? H1 H2 H3; inversion H1; subst;
               rewrite Hparse in H2; inversion H2; subst;
               rewrite Hschema in H3; discriminate H3
              | intros H; contradiction H; reflexivity]].
  destruct (slice0_at_most numQuestions validated Hn) as [Hlen Hfirst].
  exists (slice0 numQuestions validated). split; [reflexivity |].
  split; [exact Hlen |]. split.
  - intros rt' parsed' validated' H1 H2 H3. inversion H1; subst rt'.
    rewrite Hparse in H2. inversion H2; subst parsed'.
    rewrite Hschema in H3. inversion H3; subst validated'. exact Hfirst.
  - intros _. exists response_text, parsed, validated. auto.
Qed.

Lemma generateFeedback_at_most_witness :
  generateFeedback
    (fun _ _ _ =>
       Some (Some (JSON_stringify
                     (questions_json [lit "why?"; lit "when?"; lit "who?"]))))
    [] (lit "solar") 2
  = Fulfilled [lit "why?"; lit "when?"].
Proof.
  destruct (generateFeedback_at_most
              (fun _ _ _ =>
                 Some (Some (JSON_stringify
                               (questions_json
                                  [lit "why?"; lit "when?"; lit "who?"]))))
              [] (lit "solar") 2 ltac:(lia)) as (questions & H1 & _ & H3 & _).
  rewrite H1. f_equal.
  exact (H3 _ _ _ eq_refl eq_refl eq_refl).
Defined.

(** X19. Round trip of [generateFeedback].  When the model answers with
    the object [{"questions": [...]}] serialized as [JSON.stringify] does,
    inside a block tagged json with white space around it inside the
    fences and any text outside, [generateFeedback] returns the first
    [numQuestions] of these questions, provided that no opening fence
    stands before the block and that the serialized text has no three
    backticks in a row. *)
Theorem generateFeedback_round_trip
    (generateText : text -> text -> option Z -> option (option text))
    (systemPrompt : text) (query : text) (numQuestions : Z)
    (questions : list text) (before ws1 ws2 after : text)
    (Hgen : generateText systemPrompt (feedback_prompt query) None
            = Some (Some (fenced before ws1
                            (JSON_stringify (questions_json questions))
                            ws2 after)))
    (Hbefore : contains_ci fence_json before = false)
    (Hws1 : forallb is_space ws1 = true)
    (Hws2 : forallb is_space ws2 = true)
    (Hfence : contains fence (JSON_stringify (questions_json questions))
              = false) :
  generateFeedback generateText systemPrompt query numQuestions
  = Fulfilled (slice0 numQuestions questions).
Proof.
  destruct (schema_questions_json questions) as [Hschema Hserial].
  unfold generateFeedback, generateFeedback_try. rewrite Hgen.
  cbv zeta.
  rewrite (extract_fenced_stringify _ before ws1 ws2 after
             Hserial Hbefore Hws1 Hws2 Hfence).
  rewrite (JSON_parse_stringify _ Hserial), Hschema. reflexivity.
Qed.

Lemma generateFeedback_round_trip_witness :
  generateFeedback
    (fun _ _ _ =>
       Some (Some (fenced (lit "sure:" ++ nl) nl
                     (JSON_stringify
                        (questions_json
                           [lit "which region, and why?"; lit "since when?";
                            lit "at what cost?"]))
                     nl (nl ++ lit "good luck"))))
    [] (lit "solar") 2
  = Fulfilled [lit "which region, and why?"; lit "since when?"].
Proof.
  exact (generateFeedback_round_trip
           (fun _ _ _ =>
              Some (Some (fenced (lit "sure:" ++ nl) nl
                            (JSON_stringify
                               (questions_json
                                  [lit "which region, and why?";
                                   lit "since when?"; lit "at what cost?"]))
                            nl (nl ++ lit "good luck"))))
           [] (lit "solar") 2
           [lit "which region, and why?"; lit "since when?"; lit "at what cost?"]
           (lit "sure:" ++ nl) nl nl (nl ++ lit "good luck")
           eq_refl eq_refl eq_refl eq_refl eq_refl).
Defined.

(* ================================================================== *)
(** ** [writeFinalReportPdf] *)













(** X21. Round trip of [writeFinalReportPdf].  When the model answers the
    report prompt (built of the user prompt and of the trimmed learnings)
    with the object [{"reportMarkdown": md}] serialized as
    [JSON.stringify] does, inside a block tagged json, the document that is
    rendered is [md] followed by the sources section, and its bytes are
    written to [./final-report.pdf]; provided that no opening fence stands
    before the block and that the serialized text has no three backticks
    in a row, no delete character and no comma followed, after optional
    white space, by a closing brace or bracket. *)
Theorem writeFinalReportPdf_round_trip
    (encode : text -> list N) (splitText : Z -> text -> list text)
    (generateText : text -> text -> option Z -> option (option text))
    (systemPrompt : text) (mdToPdf : text -> text -> option (list N))
    (prompt : text) (learnings visitedUrls : list text) (fs : files)
    (learningsString md before ws1 ws2 after : text) (content : list N)
    (Htrim : trimPrompt encode splitText (learnings_block learnings) 150000
             = Some learningsString)
    (Hgen : generateText systemPrompt (report_prompt prompt learningsString)
              None
            = Some (Some (fenced before ws1 (JSON_stringify (report_json md))
                            ws2 after)))
    (Hbefore : contains_ci fence_json before = false)
    (Hws1 : forallb is_space ws1 = true)
    (Hws2 : forallb is_space ws2 = true)
    (Hfence : contains fence (JSON_stringify (report_json md)) = false)
    (Hdel : existsb (N.eqb 127) (JSON_stringify (report_json md)) = false)
    (Hcomma : has_trailing_comma (JSON_stringify (report_json md)) = false)
    (Hpdf : mdToPdf (md ++ urlsSection visitedUrls) report_css = Some content) :
  writeFinalReportPdf encode splitText generateText systemPrompt mdToPdf
    prompt learnings visitedUrls fs
  = (Fulfilled outputPath, writeFileSync fs outputPath content).
Proof.
  assert (Hserial : serializable (report_json md) = true) by reflexivity.
  assert (Hschema : schema_report (report_json md) = Some md)
    by (unfold schema_report, report_json; rewrite get_property_single;
        reflexivity).
  unfold writeFinalReportPdf. rewrite Htrim.
  unfold safeGenerate. rewrite Hgen. unfold safeGenerate_on.
  rewrite (extract_fenced_stringify _ before ws1 ws2 after
             Hserial Hbefore Hws1 Hws2 Hfence).
  unfold sanitize.
  rewrite strip_control_id
    by (apply no_control;
        [apply print_printable, wf_cst_of, Hserial | exact Hdel]).
  rewrite remove_trailing_commas_id by exact Hcomma.
  rewrite (JSON_parse_stringify _ Hserial), Hschema.
  cbv zeta. rewrite Hpdf. reflexivity.
Qed.

Lemma writeFinalReportPdf_round_trip_witness :
  writeFinalReportPdf unit_encode cut_splitText
    (fun _ _ _ =>
       Some (Some (fenced [] nl
                     (JSON_stringify (report_json (lit "# solar, briefly")))
                     nl [])))
    [] demo_mdToPdf (lit "solar") [lit "L1"] [lit "https://example.org/solar"]
    no_files
  = (Fulfilled outputPath,
     writeFileSync no_files outputPath
       (lit "# solar, briefly" ++ nl ++ nl ++ lit "## sources" ++ nl ++ nl
        ++ lit "- https://example.org/solar")).
Proof.
  exact (writeFinalReportPdf_round_trip unit_encode cut_splitText
           (fun _ _ _ =>
              Some (Some (fenced [] nl
                            (JSON_stringify
                               (report_json (lit "# solar, briefly")))
                            nl [])))
           [] demo_mdToPdf (lit "solar") [lit "L1"]
           [lit "https://example.org/solar"] no_files
           (learnings_block [lit "L1"]) (lit "# solar, briefly")
           [] nl nl []
           (lit "# solar, briefly" ++ nl ++ nl ++ lit "## sources" ++ nl ++ nl
            ++ lit "- https://example.org/solar")
           eq_refl eq_refl eq_refl eq_refl eq_refl eq_refl eq_refl eq_refl
           eq_refl).
Defined.

(* ================================================================== *)
(** ** Edge cases of [deepResearch]: no search, no depth, the order *)

Lemma fold_set_add_extends (l : list text) :
  forall s, exists tail, fold_left set_add l s = s ++ tail.
Proof.
  induction l as [| x l IH]; intros s; simpl.
  - exists []. rewrite app_nil_r. reflexivity.
  - unfold set_add at 2. destruct (existsb (text_eqb x) s); [apply IH |].
    destruct (IH (s ++ [x])) as [tail ->].
    exists ([x] ++ tail). rewrite app_assoc. reflexivity.
Qed.

Lemma new_Set_app (a b : list text) :
  exists tail, new_Set (a ++ b) = new_Set a ++ tail.
Proof.
  unfold new_Set. rewrite fold_left_app. apply fold_set_add_extends.
Qed.

Lemma fold_set_add_fresh (l : list text) :
  forall s, NoDup (s ++ l) -> fold_left set_add l s = s ++ l.
Proof.
  induction l as [| x l IH]; intros s Hnd; simpl.
  - rewrite app_nil_r. reflexivity.
  - unfold set_add at 2.
    destruct (existsb (text_eqb x) s) eqn:E.
    + apply existsb_text_eqb in E. apply NoDup_remove_2 in Hnd.
      exfalso. apply Hnd, in_or_app. left. exact E.
    + rewrite IH; rewrite <- app_assoc; [reflexivity | exact Hnd].
Qed.

Lemma new_Set_fixed (l : list text) : NoDup l -> new_Set l = l.
Proof. intros H. exact (fold_set_add_fresh l [] H). Qed.

(** A list is empty, or without its duplicates it starts with the given
    list without its duplicates. *)
Lemma merge_heads (acc : list text) (ls : list (list text)) :
  Forall (fun l => l = [] \/ exists tail, new_Set l = new_Set acc ++ tail) ls ->
  new_Set (concat ls) = []
  \/ exists tail, new_Set (concat ls) = new_Set acc ++ tail.
Proof.
  induction 1 as [| l ls Hl _ IH]; [left; reflexivity |].
  cbn [concat]. destruct Hl as [-> | [tail Hl]]; [exact IH |].
  right. destruct (new_Set_app l (concat ls)) as [tail' ->].
  rewrite Hl. exists (tail ++ tail'). rewrite app_assoc. reflexivity.
Qed.

Lemma promise_all_const {A T} (v : T) (l : list A) :
  promise_all (map (fun _ => Fulfilled v) l) = Fulfilled (map (fun _ => v) l).
Proof.
  induction l as [| x l IH]; [reflexivity |].
  cbn [map promise_all]. rewrite IH. reflexivity.
Qed.

Lemma concat_map_nil {A B} (l : list A) :
  concat (map (fun _ => @nil B) l) = [].
Proof. induction l as [| x l IH]; [reflexivity | exact IH]. Qed.

Lemma flat_map_const_nil {A B C} (f : B -> list C) (v : B) (l : list A) :
  f v = [] -> flat_map f (map (fun _ => v) l) = [].
Proof.
  intros H. induction l as [| x l IH]; [reflexivity |].
  cbn [map flat_map]. rewrite H. exact IH.
Qed.

Lemma merge_results_empty {A} (l : list A) :
  merge_results (map (fun _ => empty_result) l) = empty_result.
Proof.
  unfold merge_results.
  rewrite !flat_map_const_nil by reflexivity. reflexivity.
Qed.

Section OrchestratorEdges.

Variable encode : text -> list N.
Variable splitText : Z -> text -> list text.
Variable generateText : text -> text -> option Z -> option (option text).
Variable search : text -> option SearchResponse.
Variable systemPrompt : text.

Let branch := research_branch encode splitText generateText search systemPrompt.
Let run := deepResearch_fuel encode splitText generateText search systemPrompt.

Lemma branch_heads recurse this q r :
  (forall next r',
      fst (recurse next) = Fulfilled r' ->
      (learnings r' = []
       \/ exists tail, learnings r' = new_Set (inv_learnings next) ++ tail)
      /\ (visitedUrls r' = []
          \/ exists tail,
               visitedUrls r' = new_Set (inv_visitedUrls next) ++ tail)) ->
  (forall next r', fst (recurse next) = Fulfilled r' ->
                   NoDup (learnings r') /\ NoDup (visitedUrls r')) ->
  fst (branch recurse this q) = Fulfilled r ->
  (learnings r = []
   \/ exists tail,
        new_Set (learnings r) = new_Set (inv_learnings this) ++ tail)
  /\ (visitedUrls r = []
      \/ exists tail,
           new_Set (visitedUrls r) = new_Set (inv_visitedUrls this) ++ tail).
Proof.
  intros Hrec Hnd. unfold branch, research_branch.
  destruct (query q) as [| qc qt];
    [intros H; inversion H; split; left; reflexivity |].
  destruct (search _) as [result |];
    [| intros H; inversion H; split; left; reflexivity].
  destruct (processSerpResult _ _ _ _ _ _ _ _) as [found | e |];
    [| intros H; inversion H; split; left; reflexivity | discriminate].
  destruct (Z.ltb_spec 0 (number_sub (inv_depth this) 1)) as [Hpos | Hle].
  - match goal with
    | |- context [recurse ?n] =>
        specialize (Hrec n); specialize (Hnd n);
        destruct (recurse n) as [settled calls]
    end.
    simpl. intros ->.
    destruct (Hrec r eq_refl) as [Hl Hu].
    destruct (Hnd r eq_refl) as [Hndl Hndu]. cbn [inv_learnings inv_visitedUrls] in *.
    split.
    + destruct Hl as [Hl | [tail Hl]]; [left; exact Hl | right].
      rewrite (new_Set_fixed _ Hndl), Hl.
      destruct (new_Set_app (inv_learnings this) (sl_learnings found))
        as [tail' ->].
      exists (tail' ++ tail). rewrite app_assoc. reflexivity.
    + destruct Hu as [Hu | [tail Hu]]; [left; exact Hu | right].
      rewrite (new_Set_fixed _ Hndu), Hu.
      destruct (new_Set_app (inv_visitedUrls this)
                  (compact (map url (data result)))) as [tail' ->].
      exists (tail' ++ tail). rewrite app_assoc. reflexivity.
  - simpl. intros H. inversion H. simpl. split; right; apply new_Set_app.
Qed.

Lemma run_NoDup (fuel : nat) this r :
  fst (run fuel this) = Fulfilled r ->
  NoDup (learnings r) /\ NoDup (visitedUrls r).
Proof.
  destruct fuel as [| fuel]; [discriminate |]. intros Hr.
  apply run_Fulfilled in Hr. destruct Hr as (qs & results & _ & _ & ->).
  split; apply new_Set_NoDup.
Qed.

Lemma run_heads (fuel : nat) :
  forall this r,
    fst (run fuel this) = Fulfilled r ->
    (learnings r = []
     \/ exists tail, learnings r = new_Set (inv_learnings this) ++ tail)
    /\ (visitedUrls r = []
        \/ exists tail,
             visitedUrls r = new_Set (inv_visitedUrls this) ++ tail).
Proof.
  induction fuel as [| fuel IH]; intros this r Hr; [discriminate |].
  apply run_Fulfilled in Hr. destruct Hr as (qs & results & _ & Hmap & ->).
  assert (Hall : forall b, In b results ->
            (learnings b = []
             \/ exists tail,
                  new_Set (learnings b) = new_Set (inv_learnings this) ++ tail)
            /\ (visitedUrls b = []
                \/ exists tail,
                     new_Set (visitedUrls b)
                     = new_Set (inv_visitedUrls this) ++ tail)).
  { intros b Hb. destruct (map_eq_In _ _ _ _ _ Hmap Hb) as [q [_ Hq]].
    exact (branch_heads (run fuel) this q b IH (run_NoDup fuel) Hq). }
  unfold merge_results. cbn [learnings visitedUrls].
  rewrite !flat_map_concat_map. split; apply merge_heads;
    apply Forall_map, Forall_forall; intros b Hb; apply Hall, Hb.
Qed.

(** A branch whose search fails gives the empty result and makes no
    call. *)
Lemma branch_search_fails recurse this q :
  search (query q) = None ->
  branch recurse this q = (Fulfilled empty_result, []).
Proof.
  intros H. unfold branch, research_branch.
  destruct (query q) as [| qc qt]; [reflexivity |]. rewrite H. reflexivity.
Qed.

(** A branch of a call of depth 1 or less does not look at the depth. *)
Lemma branch_last_level r1 r2 q0 b d1 d2 ls us q :
  d1 <= 1 -> d2 <= 1 ->
  branch r1 (mkInvocation q0 b d1 ls us) q
  = branch r2 (mkInvocation q0 b d2 ls us) q.
Proof.
  intros H1 H2. unfold branch, research_branch.
  cbn [inv_depth inv_breadth inv_learnings inv_visitedUrls].
  destruct (query q) as [| qc qt]; [reflexivity |].
  destruct (search _) as [result |]; [| reflexivity].
  destruct (processSerpResult _ _ _ _ _ _ _ _) as [found | e |];
    try reflexivity.
  destruct (Z.ltb_spec 0 (number_sub d1 1)) as [Hpos | _];
    [pose proof (number_sub_one_floor d1 H1); lia |].
  destruct (Z.ltb_spec 0 (number_sub d2 1)) as [Hpos | _];
    [pose proof (number_sub_one_floor d2 H2); lia |].
  reflexivity.
Qed.

Lemma run_last_level f1 f2 q0 b d1 d2 ls us :
  d1 <= 1 -> d2 <= 1 ->
  run (S f1) (mkInvocation q0 b d1 ls us)
  = run (S f2) (mkInvocation q0 b d2 ls us).
Proof.
  intros H1 H2. simpl.
  destruct (generateSerpQueries _ _ _ _ _) as [qs | e |]; try reflexivity.
  fold run.
  assert (Hmap : map (research_branch encode splitText generateText search
                        systemPrompt (run f1) (mkInvocation q0 b d1 ls us)) qs
                 = map (research_branch encode splitText generateText search
                          systemPrompt (run f2) (mkInvocation q0 b d2 ls us))
                     qs).
  { apply map_ext. intros q. apply branch_last_level; assumption. }
  rewrite Hmap. reflexivity.
Qed.

Lemma run_search_fails (fuel : nat) this qs :
  generateSerpQueries generateText systemPrompt (inv_query this)
    (inv_breadth this) (Some (inv_learnings this)) = Fulfilled qs ->
  (forall q, In q qs -> search (query q) = None) ->
  run (S fuel) this = (Fulfilled empty_result, []).
Proof.
  intros Hplan Hdown. simpl. rewrite Hplan. fold run.
  assert (Hmap : map (research_branch encode splitText generateText search
                        systemPrompt (run fuel) this) qs
                 = map (fun _ => (Fulfilled empty_result, [])) qs).
  { apply map_ext_in. intros q Hq. apply branch_search_fails, Hdown, Hq. }
  rewrite Hmap, !map_map. cbn [fst snd].
  rewrite promise_all_const, concat_map_nil, merge_results_empty.
  reflexivity.
Qed.

End OrchestratorEdges.

(** X22. When the search fails for every query of the planner,
    [deepResearch] fulfils with the empty result and makes no recursive
    call: the learnings and visited URLs it was called with are not
    returned. *)
Theorem deepResearch_search_fails_empty
    (encode : text -> list N) (splitText : Z -> text -> list text)
    (generateText : text -> text -> option Z -> option (option text))
    (search : text -> option SearchResponse) (systemPrompt : text)
    (this : Invocation) (qs : list SerpQuery)
    (Hplan : generateSerpQueries generateText systemPrompt (inv_query this)
               (inv_breadth this) (Some (inv_learnings this)) = Fulfilled qs)
    (Hdown : forall q, In q qs -> search (query q) = None) :
  deepResearch encode splitText generateText search systemPrompt this
  = (Fulfilled empty_result, []).
Proof.
  unfold deepResearch.
  exact (run_search_fails encode splitText generateText search systemPrompt
           _ this qs Hplan Hdown).
Qed.

Lemma deepResearch_search_fails_empty_witness :
  deepResearch unit_encode cut_splitText demo_generateText demo_search_down
    (lit "you are a researcher") (demo_invocation 3 2)
  = (Fulfilled empty_result, [])
  /\ inv_learnings (demo_invocation 3 2) = [lit "L0"].
Proof.
  split; [| reflexivity].
  eapply (deepResearch_search_fails_empty unit_encode cut_splitText
            demo_generateText demo_search_down (lit "you are a researcher")
            (demo_invocation 3 2)).
  - vm_compute. reflexivity.
  - intros q _. reflexivity.
Defined.

(** X23. A depth of 1 is the floor: with any depth of 1 or less (0 and
    the negative ones among them) [deepResearch] does the same, one level
    of queries, searches and distillations without a recursive call. *)
Theorem deepResearch_depth_floor
    (encode : text -> list N) (splitText : Z -> text -> list text)
    (generateText : text -> text -> option Z -> option (option text))
    (search : text -> option SearchResponse) (systemPrompt : text)
    (q : text) (breadth d1 d2 : Z) (ls us : list text)
    (H1 : d1 <= 1) (H2 : d2 <= 1) :
  deepResearch encode splitText generateText search systemPrompt
    (mkInvocation q breadth d1 ls us)
  = deepResearch encode splitText generateText search systemPrompt
      (mkInvocation q breadth d2 ls us).
Proof.
  unfold deepResearch. apply run_last_level; assumption.
Qed.

Lemma deepResearch_depth_floor_witness :
  demo_deepResearch (demo_invocation 3 (-2)) = demo_deepResearch (demo_invocation 3 1)
  /\ exists r, fst (demo_deepResearch (demo_invocation 3 (-2))) = Fulfilled r
               /\ length (learnings r) = 5%nat.
Proof.
  split.
  - exact (deepResearch_depth_floor unit_encode cut_splitText
             demo_generateText demo_search (lit "you are a researcher")
             (lit "renewable energy trends") 3 (-2) 1
             [lit "L0"] [lit "https://example.org/seed"]
             ltac:(lia) ltac:(lia)).
  - eexists. split; [vm_compute; reflexivity | reflexivity].
Defined.

(** X24. The lists that [deepResearch] returns keep the accumulator in
    front: each of them is empty, or starts with the list the call was
    given (without its duplicates, the first occurrence of each string
    kept), in the same order; what the branches found comes after it. *)
Theorem deepResearch_accumulator_first
    (encode : text -> list N) (splitText : Z -> text -> list text)
    (generateText : text -> text -> option Z -> option (option text))
    (search : text -> option SearchResponse) (systemPrompt : text)
    (this : Invocation) (r : ResearchResult)
    (Hr : fst (deepResearch encode splitText generateText search systemPrompt
                 this) = Fulfilled r) :
  (learnings r = []
   \/ exists tail, learnings r = new_Set (inv_learnings this) ++ tail)
  /\ (visitedUrls r = []
      \/ exists tail, visitedUrls r = new_Set (inv_visitedUrls this) ++ tail).
Proof.
  exact (run_heads encode splitText generateText search systemPrompt
           _ this r Hr).
Qed.

Lemma deepResearch_accumulator_first_witness :
  exists r,
    fst (demo_deepResearch (demo_invocation 3 1)) = Fulfilled r
    /\ (learnings r = []
        \/ exists tail, learnings r = [lit "L0"] ++ tail)
    /\ (visitedUrls r = []
        \/ exists tail, visitedUrls r = [lit "https://example.org/seed"] ++ tail).
Proof.
  eexists. split; [vm_compute; reflexivity |].
  exact (deepResearch_accumulator_first unit_encode cut_splitText
           demo_generateText demo_search (lit "you are a researcher")
           (demo_invocation 3 1) _ ltac:(vm_compute; reflexivity)).
Defined.

(** X25. At the last level a branch that fails costs its siblings
    nothing.  With a depth of 1 or less, when the search and the
    distillation succeed for one query of the planner, [deepResearch]
    fulfils, and what it returns holds the learnings and visited URLs it
    was called with and those found for that query, whatever happens in
    the other branches. *)
Theorem deepResearch_last_level_keeps_findings
    (encode : text -> list N) (splitText : Z -> text -> list text)
    (generateText : text -> text -> option Z -> option (option text))
    (search : text -> option SearchResponse) (systemPrompt : text)
    (Hsplit : splitter_shrinks splitText)
    (this : Invocation) (qs : list SerpQuery) (q : SerpQuery)
    (result : SearchResponse) (found : SerpLearnings)
    (Hdepth : inv_depth this <= 1)
    (Hplan : generateSerpQueries generateText systemPrompt (inv_query this)
               (inv_breadth this) (Some (inv_learnings this)) = Fulfilled qs)
    (Hq : In q qs)
    (Hquery : query q <> [])
    (Hsearch : search (query q) = Some result)
    (Hfound : processSerpResult encode splitText generateText systemPrompt
                (query q) result 3 (ceil_half (inv_breadth this))
              = Fulfilled found) :
  exists r,
    fst (deepResearch encode splitText generateText search systemPrompt this)
    = Fulfilled r
    /\ incl (inv_learnings this ++ sl_learnings found) (learnings r)
    /\ incl (inv_visitedUrls this ++ compact (map url (data result)))
         (visitedUrls r).
Proof.
  destruct (single_level_settles encode splitText generateText search
              systemPrompt this qs Hsplit Hdepth Hplan) as [r Hr].
  exists r. assert (Hfst := f_equal fst Hr). cbn [fst] in Hfst.
  split; [exact Hfst |].
  unfold deepResearch in Hfst. apply run_Fulfilled in Hfst.
  destruct Hfst as (qs' & results & Hplan' & Hmap & ->).
  rewrite Hplan in Hplan'. inversion Hplan'; subst qs'.
  assert (Hb : In (mkResearchResult
                     (inv_learnings this ++ sl_learnings found)
                     (inv_visitedUrls this ++ compact (map url (data result))))
                  results).
  { assert (Hin : In (fst (research_branch encode splitText generateText
                             search systemPrompt
                             (deepResearch_fuel encode splitText generateText
                                search systemPrompt
                                (Z.to_nat (inv_depth this))) this q))
                    (map Fulfilled results)).
    { rewrite <- Hmap.
      exact (in_map (fun q0 => fst (research_branch encode splitText
                                      generateText search systemPrompt _
                                      this q0)) qs q Hq). }
    unfold research_branch in Hin.
    destruct (query q) as [| qc qt]; [contradiction Hquery; reflexivity |].
    rewrite Hsearch, Hfound in Hin.
    destruct (Z.ltb_spec 0 (number_sub (inv_depth this) 1)) as [Hpos | _];
      [pose proof (number_sub_one_floor _ Hdepth); lia |].
    cbn [fst] in Hin. apply in_map_iff in Hin.
    destruct Hin as [b [Hb Hin]]. inversion Hb; subst b. exact Hin. }
  unfold merge_results. cbn [learnings visitedUrls].
  split; intros x Hx; apply new_Set_In, in_flat_map;
    eexists; (split; [exact Hb | exact Hx]).
Qed.

Lemma deepResearch_last_level_keeps_findings_witness :
  exists r,
    fst (demo_deepResearch (demo_invocation 3 1)) = Fulfilled r
    /\ incl ([lit "L0"] ++ [lit "L1"; lit "L1"; lit "L2"; lit "L3"; lit "L4"])
         (learnings r)
    /\ incl ([lit "https://example.org/seed"]
             ++ [lit "https://example.org/hydro"; lit "https://example.org/energy"])
         (visitedUrls r).
Proof.
  exact (deepResearch_last_level_keeps_findings unit_encode cut_splitText
           demo_generateText demo_search (lit "you are a researcher")
           cut_splitText_shrinks (demo_invocation 3 1)
           [mkSerpQuery (lit "solar") (lit "cost of solar");
            mkSerpQuery (lit "wind") (lit "cost of wind");
            mkSerpQuery (lit "hydro") (lit "cost of hydro")]
           (mkSerpQuery (lit "hydro") (lit "cost of hydro"))
           (mkSearchResponse
              [mkSearchItem (Some (lit "https://example.org/hydro"))
                 (Some (lit "a page about hydro"));
               mkSearchItem None (Some (lit "no address"));
               mkSearchItem (Some (lit "https://example.org/energy")) (Some [])])
           (mkSerpLearnings
              [lit "L1"; lit "L1"; lit "L2"; lit "L3"; lit "L4"]
              [lit "F1"; lit "F2"])
           ltac:(simpl; lia) ltac:(vm_compute; reflexivity)
           ltac:(simpl; tauto) ltac:(discriminate)
           ltac:(vm_compute; reflexivity) ltac:(vm_compute; reflexivity)).
Defined.
